(** * git-appraise: the repository port, the sync protocol, the comment and
      accept commands and the web handlers, embedded from the Go sources.

    Layout: Part I holds the embedding (one module per Go package),
    Part II the sample data, Part III the proofs, Part IV the theorems at
    work on the sample data. *)

From Stdlib Require Import ZArith String Ascii List Bool Lia.
From stdpp Require Import gmap strings list fin_maps.
Import ListNotations.

Local Open Scope string_scope.

(* ===================================================================== *)
(** * Part I. The embedding                                               *)
(* ===================================================================== *)

(** ** Go values: errors, (T, error) results, panics *)

(** A Go [error] value is represented by its message. *)
Definition error := string.

(** A function returning [(T, error)]: [Ok v] is [(v, nil)], [Err e] is a
    non-nil error.  A function returning only [error] is [result unit]. *)
Inductive result (A : Type) : Type :=
| Ok (a : A)
| Err (e : error).
Arguments Ok {A} a.
Arguments Err {A} e.

Definition isErr {A} (r : result A) : bool :=
  match r with Ok _ => false | Err _ => true end.

(** A computation that may panic at run time (index out of range). *)
Inductive go (A : Type) : Type :=
| Return (a : A)
| Panic (msg : string).
Arguments Return {A} a.
Arguments Panic {A} msg.

(** ** Package strings (the standard library functions the sources call) *)

Module strings.

(** [strings.HasPrefix(s, prefix)] *)
Definition HasPrefix (s pre : string) : bool := String.prefix pre s.

(** [strings.TrimPrefix(s, prefix)]: [s] without the leading [prefix],
    [s] itself when it does not start with it. *)
Definition TrimPrefix (s pre : string) : string :=
  if HasPrefix s pre
  then String.substring (String.length pre)
                        (String.length s - String.length pre) s
  else s.

(** [strings.HasSuffix(s, suffix)] *)
Definition HasSuffix (s suf : string) : bool :=
  (String.length suf <=? String.length s)%nat &&
  String.eqb (String.substring (String.length s - String.length suf)
                               (String.length suf) s) suf.

(** [strings.TrimSuffix(s, suffix)] *)
Definition TrimSuffix (s suf : string) : string :=
  if HasSuffix s suf
  then String.substring 0 (String.length s - String.length suf) s
  else s.

(** [strings.Replace(s, old, "", -1)] for a one-byte [old]: every
    occurrence of the byte is deleted. *)
Fixpoint Replace (s : string) (old : ascii) : string :=
  match s with
  | EmptyString => EmptyString
  | String c rest =>
      if Ascii.eqb c old then Replace rest old
      else String c (Replace rest old)
  end.

(** [strings.Split(s, sep)] for a one-byte separator.  The result is
    never empty: splitting the empty string yields one empty field. *)
Fixpoint Split (s : string) (sep : ascii) : list string :=
  match s with
  | EmptyString => [EmptyString]
  | String c rest =>
      if Ascii.eqb c sep then EmptyString :: Split rest sep
      else match Split rest sep with
           | [] => [String c EmptyString]
           | field :: fields => String c field :: fields
           end
  end.

(** The ASCII white space of [unicode.IsSpace]:
    tab, line feed, vertical tab, form feed, carriage return, space. *)
Definition isSpace (c : ascii) : bool :=
  let n := nat_of_ascii c in
  ((9 <=? n) && (n <=? 13))%nat || (n =? 32)%nat.

Fixpoint TrimLeft (s : string) : string :=
  match s with
  | EmptyString => EmptyString
  | String c rest => if isSpace c then TrimLeft rest else s
  end.

Fixpoint TrimRight (s : string) : string :=
  match s with
  | EmptyString => EmptyString
  | String c rest =>
      match TrimRight rest with
      | EmptyString => if isSpace c then EmptyString
                       else String c EmptyString
      | rest' => String c rest'
      end
  end.

(** [strings.TrimSpace(s)] *)
Definition TrimSpace (s : string) : string := TrimRight (TrimLeft s).

(** [strings.Join(elems, sep)] *)
Definition Join (elems : list string) (sep : string) : string :=
  String.concat sep elems.

End strings.

(** The bytes of a string as code points.  [for _, c := range s] decodes
    UTF-8: an ASCII byte is its own rune; a byte of 0x80 or more starts a
    rune that is itself 0x80 or more (or U+FFFD).  Every comparison the
    sources make is against ASCII bounds, so a non-ASCII rune and its
    leading byte fall on the same side of each of them. *)
Fixpoint runes (s : string) : list Z :=
  match s with
  | EmptyString => []
  | String c rest => Z.of_nat (nat_of_ascii c) :: runes rest
  end.

(** [len(s)]: the length in bytes. *)
Definition len (s : string) : Z := Z.of_nat (String.length s).

(** A rune literal. *)
Definition rune (c : ascii) : Z := Z.of_nat (nat_of_ascii c).
Arguments rune c%_char.

(** ** Package strconv *)

Module strconv.

(** [strconv.ParseUint(s, 10, bitSize)], following the library loop:
    digit by digit, with the overflow cutoff on [n * 10] and the
    [maxVal] test on [n * 10 + d].  [n] is a uint64. *)
Definition maxUint64 : Z := (2 ^ 64 - 1)%Z.

Definition cutoff10 : Z := (maxUint64 / 10 + 1)%Z.

Fixpoint parseDigits (cs : list Z) (maxVal n : Z) : result Z :=
  match cs with
  | [] => Ok n
  | c :: cs' =>
      if (rune "0" <=? c)%Z && (c <=? rune "9")%Z then
        let d := (c - rune "0")%Z in
        if (cutoff10 <=? n)%Z then Err "value out of range"
        else
          let n10 := ((n * 10) mod 2 ^ 64)%Z in
          let n1 := ((n10 + d) mod 2 ^ 64)%Z in
          if (n1 <? n10)%Z || (maxVal <? n1)%Z
          then Err "value out of range"
          else parseDigits cs' maxVal n1
      else Err "invalid syntax"
  end.

Definition ParseUint (s : string) (bitSize : Z) : result Z :=
  if String.eqb s "" then Err "invalid syntax"
  else parseDigits (runes s) (2 ^ bitSize - 1)%Z 0%Z.

(** [strconv.FormatUint(u, 10)], which is also what the verb [%d] of
    [fmt] prints for an unsigned integer: the decimal digits of [u], most
    significant first, produced from the least significant one by
    repeated division (a uint64 has at most twenty of them). *)
Fixpoint formatDigits (fuel : nat) (u : Z) (a : string) : string :=
  match fuel with
  | O => a
  | S fuel' =>
      if (10 <=? u)%Z then
        let q := (u / 10)%Z in
        formatDigits fuel' q
          (String (ascii_of_nat (Z.to_nat (rune "0" + (u - q * 10)))) a)
      else String (ascii_of_nat (Z.to_nat (rune "0" + u))) a
  end.

Definition FormatUint (u : Z) : string := formatDigits 20 u "".

(** [strconv.Atoi(s)], by its slow path [ParseInt(s, 10, 0)]: an
    optional sign, then [ParseUint] on the rest, then the range of [int],
    which is [intSize] bits wide.  (The fast path for short strings
    computes the same number with the same digit loop.) *)
Definition Atoi (intSize : Z) (s : string) : result Z :=
  if String.eqb s "" then Err "invalid syntax"
  else
    let neg := match s with
               | String c _ => Ascii.eqb c "-"
               | EmptyString => false
               end in
    let digits := match s with
                  | String c rest =>
                      if Ascii.eqb c "+" || Ascii.eqb c "-" then rest else s
                  | EmptyString => s
                  end in
    match ParseUint digits intSize with
    | Err e => Err e
    | Ok un =>
        let cutoff := (2 ^ (intSize - 1))%Z in
        if negb neg && (cutoff <=? un)%Z then Err "value out of range"
        else if neg && (cutoff <? un)%Z then Err "value out of range"
        else Ok (if neg then (- un)%Z else un)
    end.

End strconv.


(** ** Package repository: the git port (git.go) *)

Module repository.

Definition branchRefPrefix : string := "refs/heads/".
Definition notesRefPrefix : string := "refs/notes/".
Definition devtoolsRefPrefix : string := "refs/devtools/".
Definition remoteDevtoolsRefPrefix : string := "refs/remoteDevtools/".

(** *** The repository on disk *)

(** A commit object of the object store. *)
Record Commit : Type := mkCommit {
  cParents : list string;
  cTree : string;
  cMessage : string;
  cAuthor : string;
  cAuthorEmail : string;
  cCommitter : string;
  cCommitterEmail : string;
  cAuthorTime : string
}.

(** The refs, the commit objects by id, and the flattened trees
    (tree id, then path, then blob id; a tree that is not recorded is
    empty). *)
Record Store : Type := mkStore {
  refs : gmap string string;
  commits : gmap string Commit;
  trees : gmap string (gmap string string)
}.

(** [GitRepo] stands for the repository at [Path]: its store, and the
    [git] command lines run on it so far, oldest first. *)
Record GitRepo : Type := mkGitRepo {
  store : Store;
  trace : list (list string)
}.

(** An object id as git prints it holds no white space (it is a
    hexadecimal string). *)
Fixpoint cleanId (s : string) : bool :=
  match s with
  | EmptyString => true
  | String c rest => negb (strings.isSpace c) && cleanId rest
  end.

(** A ref value of a healthy repository: the non-empty, clean id of a
    commit of the store. *)
Definition validId (cs : gmap string Commit) (h : string) : bool :=
  negb (String.eqb h "") && cleanId h && bool_decide (is_Some (cs !! h)).

(** Every ref of the store holds such an id. *)
Definition wellFormed (s : Store) : bool :=
  forallb (fun rh => validId (commits s) (snd rh)) (map_to_list (refs s)).

(** What the [git] binary decides and the store does not determine. *)
Class GitBackend : Type := {
  (** the digest (SHA-1) of a new commit object, as raw bytes *)
  objectDigest : Commit -> string;
  (** author and committer identity and date of new commits,
      from the configuration and [GIT_AUTHOR_*], [GIT_COMMITTER_*] *)
  identName : string;
  identEmail : string;
  identTime : string;
  (** [git fetch remote refspecs...]: the store afterwards, or [None]
      when the fetch exits with an error *)
  fetchEffect : string -> list string -> Store -> option Store;
  (** [git notes --ref local merge remote -s strategy] *)
  notesMergeEffect : string -> string -> string -> Store -> option Store;
  (** the paths [git diff --name-only] lists for two trees, old and new.
      Which of the paths whose entries differ it lists is decided by git:
      a path it takes for another one renamed is listed once, under its
      new name *)
  diffNames : gmap string string -> gmap string string -> list string
}.

(** The lowercase hexadecimal rendering of the bytes of a digest. *)
Definition hexDigitOf (n : nat) : ascii :=
  match n with
  | 0 => "0" | 1 => "1" | 2 => "2" | 3 => "3" | 4 => "4" | 5 => "5"
  | 6 => "6" | 7 => "7" | 8 => "8" | 9 => "9" | 10 => "a" | 11 => "b"
  | 12 => "c" | 13 => "d" | 14 => "e" | _ => "f"
  end%char.

Fixpoint hexString (bytes : string) : string :=
  match bytes with
  | EmptyString => EmptyString
  | String b rest =>
      String (hexDigitOf (nat_of_ascii b / 16))
             (String (hexDigitOf (nat_of_ascii b mod 16)) (hexString rest))
  end.

(** The id [commit-tree] gives a new commit object. *)
Definition objectId `{GitBackend} (c : Commit) : string :=
  hexString (objectDigest c).

(** The [error] of [cmd.Run]: nil, an [*exec.ExitError] when the process
    ran and exited with a status other than 0, or any other error (the
    binary was not found, its output could not be copied). *)
Inductive status : Type :=
| Exit0
| ExitError (code : Z)
| ExecError (msg : string).

Record Output : Type := mkOutput {
  exit : status;
  stdout : string;
  stderr : string
}.

Definition success (out : string) : Output := mkOutput Exit0 out "".
Definition failure (code : Z) (msg : string) : Output :=
  mkOutput (ExitError code) "" msg.

Definition newline : string := String "010" EmptyString.
Definition dquote : string := String "034" EmptyString.

(** One line of output per element, as git prints lists. *)
Definition unlines (ls : list string) : string :=
  String.concat "" (List.map (fun l => l ++ newline) ls).

(** *** Ancestry in the commit graph *)

Fixpoint reaches (cs : gmap string Commit) (fuel : nat) (a b : string)
  : bool :=
  String.eqb a b ||
  match fuel with
  | O => false
  | S fuel' =>
      match cs !! b with
      | Some c => existsb (reaches cs fuel' a) (cParents c)
      | None => false
      end
  end.

(** [a] is [b] or reachable from [b] along parent links.  A path without
    repetition visits at most [size cs] commits that have parents. *)
Definition isAncestorOf (cs : gmap string Commit) (a b : string) : bool :=
  bool_decide (is_Some (cs !! a)) && bool_decide (is_Some (cs !! b)) &&
  reaches cs (size cs) a b.

(** [parent] is a parent of the stored commit [child]; [a] is an ancestor
    of [b] when it is [b] or is reached from [b] along parent links. *)
Definition parentOf (cs : gmap string Commit) (child parent : string) : Prop :=
  exists c, cs !! child = Some c /\ In parent (cParents c).

Definition Ancestor (cs : gmap string Commit) (a b : string) : Prop :=
  rtc (parentOf cs) b a.

(** The commit a ref points to; [None] for an unknown ref or a missing
    object.  The callers studied here pass fully qualified ref names. *)
Definition commitAt (s : Store) (ref : string) : option (string * Commit) :=
  match refs s !! ref with
  | Some h => match commits s !! h with
              | Some c => Some (h, c)
              | None => None
              end
  | None => None
  end.

Definition treeOf (s : Store) (h : string) : option (gmap string string) :=
  match commits s !! h with
  | Some c => Some (default ∅ (trees s !! cTree c))
  | None => None
  end.

(** How git prints the path of a tree entry ([quote_c_style], with
    [core.quotePath] at its default): a path of printable ASCII characters
    other than the double quote and the backslash is printed as it is; any
    other path is printed between double quotes, its unusual bytes
    escaped, by a letter or in octal. *)
Definition backslash : string := String "092" EmptyString.

Definition octal (n : nat) : string :=
  String (ascii_of_nat (48 + n / 64))
    (String (ascii_of_nat (48 + (n / 8) mod 8))
       (String (ascii_of_nat (48 + n mod 8)) EmptyString)).

(** The escape of a byte that is not printed as it is. *)
Definition quotedByte (c : ascii) : option string :=
  let n := nat_of_ascii c in
  if (n =? 7)%nat then Some (backslash ++ "a")
  else if (n =? 8)%nat then Some (backslash ++ "b")
  else if (n =? 9)%nat then Some (backslash ++ "t")
  else if (n =? 10)%nat then Some (backslash ++ "n")
  else if (n =? 11)%nat then Some (backslash ++ "v")
  else if (n =? 12)%nat then Some (backslash ++ "f")
  else if (n =? 13)%nat then Some (backslash ++ "r")
  else if (n =? 34)%nat then Some (backslash ++ dquote)
  else if (n =? 92)%nat then Some (backslash ++ backslash)
  else if ((n <? 32) || (126 <? n))%nat then Some (backslash ++ octal n)
  else None.

Fixpoint quoteBytes (path : string) : string :=
  match path with
  | EmptyString => EmptyString
  | String c rest =>
      match quotedByte c with
      | Some escape => escape
      | None => String c EmptyString
      end ++ quoteBytes rest
  end.

(** No byte of the path needs an escape. *)
Fixpoint plainPath (path : string) : bool :=
  match path with
  | EmptyString => true
  | String c rest =>
      match quotedByte c with
      | Some _ => false
      | None => plainPath rest
      end
  end.

Definition quotePath (path : string) : string :=
  if plainPath path then path else dquote ++ quoteBytes path ++ dquote.

(** The paths present in either tree whose entries differ. *)
Definition changedNames (t1 t2 : gmap string string) : list string :=
  List.filter (fun p => negb (bool_decide (t1 !! p = t2 !! p)))
              (elements (dom t1 ∪ dom t2)).

(** *** The git commands the port runs *)

Section Backend.
Context `{GitBackend}.

(** The format of the first [show] of [GetCommitDetails]:
    an object with the fields [tree] (%T) and [time] (%at). *)
Definition jsonObject (tree time : string) : string :=
  "{" ++ dquote ++ "tree" ++ dquote ++ ":" ++ dquote ++ tree ++ dquote
  ++ ", " ++ dquote ++ "time" ++ dquote ++ ": " ++ dquote ++ time
  ++ dquote ++ "}".

Definition jsonFormatString : string := jsonObject "%T" "%at".

(** The line of [git show-ref] for a ref: its hash, a space, its name. *)
Definition showRefLine (rh : string * string) : string :=
  snd rh ++ " " ++ fst rh.

(** [git show-ref] and [git show-ref --verify --quiet <ref>] *)
Definition git_show_ref (args : list string) (s : Store)
  : Output * Store :=
  match args with
  | [] =>
      match map_to_list (refs s) with
      | [] => (failure 1 "", s)
      | rs => (success (unlines (List.map showRefLine rs)), s)
      end
  | [verify; quiet; ref] =>
      if String.eqb verify "--verify" && String.eqb quiet "--quiet" then
        match refs s !! ref with
        | Some _ => (success "", s)
        | None => (failure 1 "", s)
        end
      else (failure 129 "usage: git show-ref", s)
  | _ => (failure 129 "usage: git show-ref", s)
  end.

(** The white space of git's own [isspace]: tab, line feed, carriage
    return, space. *)
Definition gitSpace (c : ascii) : bool :=
  let n := nat_of_ascii c in
  (n =? 9)%nat || (n =? 10)%nat || (n =? 13)%nat || (n =? 32)%nat.

Fixpoint gitTrimRight (line : string) : string :=
  match line with
  | EmptyString => EmptyString
  | String c rest =>
      match gitTrimRight rest with
      | EmptyString => if gitSpace c then EmptyString
                       else String c EmptyString
      | rest' => String c rest'
      end
  end.

Definition blankLine (line : string) : bool :=
  String.eqb (gitTrimRight line) "".

Fixpoint skipBlankLines (lines : list string) : list string :=
  match lines with
  | line :: rest => if blankLine line then skipBlankLines rest else lines
  | [] => []
  end.

Fixpoint firstParagraph (lines : list string) : list string :=
  match lines with
  | line :: rest =>
      if blankLine line then [] else gitTrimRight line :: firstParagraph rest
  | [] => []
  end.

(** The subject of a commit message, which [%s] prints: after the
    leading blank lines, the lines up to the first blank one, each without
    its trailing white space, joined by single spaces. *)
Definition subject (message : string) : string :=
  strings.Join
    (firstParagraph (skipBlankLines (strings.Split message "010"))) " ".

(** What [--format=<fmt>] prints for a commit, for the formats used. *)
Definition formatCommit (fmt : string) (h : string) (c : Commit)
  : string :=
  if String.eqb fmt "--format=%H" then h
  else if String.eqb fmt ("--format=tformat:" ++ jsonFormatString) then
    jsonObject (cTree c) (cAuthorTime c)
  else if String.eqb fmt "--format=tformat:%an" then cAuthor c
  else if String.eqb fmt "--format=tformat:%ae" then cAuthorEmail c
  else if String.eqb fmt "--format=tformat:%cn" then cCommitter c
  else if String.eqb fmt "--format=tformat:%ce" then cCommitterEmail c
  else if String.eqb fmt "--format=tformat:%s" then subject (cMessage c)
  else if String.eqb fmt "--format=tformat:%P" then
    strings.Join (cParents c) " "
  else "".

(** [git show -s <format> <ref> --] *)
Definition git_show (args : list string) (s : Store) : Output * Store :=
  match args with
  | [dashS; fmt; ref; dashes] =>
      if String.eqb dashS "-s" && String.eqb dashes "--" then
        match commitAt s ref with
        | Some (h, c) => (success (formatCommit fmt h c ++ newline), s)
        | None =>
            (failure 128 ("fatal: bad revision '" ++ ref ++ "'"), s)
        end
      else (failure 129 "usage: git show", s)
  | _ => (failure 129 "usage: git show", s)
  end.

(** [git merge-base --is-ancestor <a> <b>]: exit 0 when [a] is an
    ancestor of [b], 1 when it is not, 128 for an unknown commit. *)
Definition git_merge_base (args : list string) (s : Store)
  : Output * Store :=
  match args with
  | [flag; a; b] =>
      if String.eqb flag "--is-ancestor" then
        match commits s !! a, commits s !! b with
        | Some _, Some _ =>
            if isAncestorOf (commits s) a b then (success "", s)
            else (failure 1 "", s)
        | _, _ => (failure 128 "fatal: Not a valid commit name", s)
        end
      else (failure 129 "usage: git merge-base", s)
  | _ => (failure 129 "usage: git merge-base", s)
  end.

(** The arguments [(-p <parent>)* -m <message> <tree>]. *)
Fixpoint parseCommitTree (args : list string) (parents : list string)
  : option (list string * string * string) :=
  match args with
  | flag :: value :: rest =>
      if String.eqb flag "-p" then
        parseCommitTree rest (parents ++ [value])
      else if String.eqb flag "-m" then
        match rest with
        | [tree] => Some (parents, value, tree)
        | _ => None
        end
      else None
  | _ => None
  end.

Definition newCommit (parents : list string) (message tree : string)
  : Commit :=
  mkCommit parents tree message identName identEmail identName
           identEmail identTime.

(** [git commit-tree (-p <parent>)* -m <message> <tree>]: stores the
    commit and prints its id.  Every parent must be a commit. *)
Definition git_commit_tree (args : list string) (s : Store)
  : Output * Store :=
  match parseCommitTree args [] with
  | Some (parents, message, tree) =>
      if forallb (fun p => bool_decide (is_Some (commits s !! p)))
                 parents then
        let c := newCommit parents message tree in
        (success (objectId c ++ newline),
         mkStore (refs s) (<[objectId c := c]> (commits s)) (trees s))
      else (failure 128 "fatal: not a valid object name", s)
  | None => (failure 129 "usage: git commit-tree", s)
  end.

(** [git update-ref <ref> <new> [<old>]]: with [<old>] the ref is
    written only if it currently holds [<old>]. *)
Definition git_update_ref (args : list string) (s : Store)
  : Output * Store :=
  let write ref new :=
    match commits s !! new with
    | Some _ =>
        (success "",
         mkStore (<[ref := new]> (refs s)) (commits s) (trees s))
    | None =>
        (failure 128 "fatal: trying to write ref with nonexistent object",
         s)
    end in
  match args with
  | [ref; new] => write ref new
  | [ref; new; old] =>
      if bool_decide (refs s !! ref = Some old) then write ref new
      else (failure 128 ("fatal: cannot lock ref '" ++ ref ++ "'"), s)
  | _ => (failure 129 "usage: git update-ref", s)
  end.

(** [git notes --ref <local> merge <remote> -s <strategy>] *)
Definition git_notes (args : list string) (s : Store) : Output * Store :=
  match args with
  | [dashRef; localRef; merge; remoteRef; dashS; strategy] =>
      if String.eqb dashRef "--ref" && String.eqb merge "merge"
         && String.eqb dashS "-s" then
        match notesMergeEffect localRef remoteRef strategy s with
        | Some s' => (success "", s')
        | None => (failure 1 "fatal: notes merge failed", s)
        end
      else (failure 129 "usage: git notes", s)
  | _ => (failure 129 "usage: git notes", s)
  end.

(** [git ls-tree -r --name-only <commit>] *)
Definition git_ls_tree (args : list string) (s : Store)
  : Output * Store :=
  match args with
  | [dashR; nameOnly; h] =>
      if String.eqb dashR "-r" && String.eqb nameOnly "--name-only" then
        match treeOf s h with
        | Some t =>
            (success (unlines (List.map quotePath (elements (dom t)))), s)
        | None => (failure 128 "fatal: Not a valid object name", s)
        end
      else (failure 129 "usage: git ls-tree", s)
  | _ => (failure 129 "usage: git ls-tree", s)
  end.

(** [git diff --name-only <a> <b>] *)
Definition git_diff (args : list string) (s : Store) : Output * Store :=
  match args with
  | [nameOnly; a; b] =>
      if String.eqb nameOnly "--name-only" then
        match treeOf s a, treeOf s b with
        | Some ta, Some tb =>
            (success (unlines (List.map quotePath (diffNames ta tb))), s)
        | _, _ => (failure 128 "fatal: bad object", s)
        end
      else (failure 129 "usage: git diff", s)
  | _ => (failure 129 "usage: git diff", s)
  end.

(** [git fetch <remote> <refspec>...] *)
Definition git_fetch (args : list string) (s : Store) : Output * Store :=
  match args with
  | remote :: refspecs =>
      match fetchEffect remote refspecs s with
      | Some s' => (success "", s')
      | None => (failure 128 "fatal: unable to fetch", s)
      end
  | [] => (failure 129 "usage: git fetch", s)
  end.

(** [exec.Command("git", args...)] on the store.  The stand-in always
    finds the binary: a command ends with a status, never with an
    [ExecError]. *)
Definition git (args : list string) (s : Store) : Output * Store :=
  match args with
  | [] => (failure 1 "usage: git", s)
  | cmd :: rest =>
      if String.eqb cmd "show-ref" then git_show_ref rest s
      else if String.eqb cmd "show" then git_show rest s
      else if String.eqb cmd "merge-base" then git_merge_base rest s
      else if String.eqb cmd "commit-tree" then git_commit_tree rest s
      else if String.eqb cmd "update-ref" then git_update_ref rest s
      else if String.eqb cmd "notes" then git_notes rest s
      else if String.eqb cmd "ls-tree" then git_ls_tree rest s
      else if String.eqb cmd "diff" then git_diff rest s
      else if String.eqb cmd "fetch" then git_fetch rest s
      else (failure 1 ("git: '" ++ cmd ++ "' is not a git command"), s)
  end.

End Backend.

(** *** Running git: state and error passing *)

(** A method of [*GitRepo]: it runs on the repository and leaves it in a
    new state, with a value or an error. *)
Definition M (A : Type) : Type := GitRepo -> result A * GitRepo.

Definition ret {A} (a : A) : M A := fun repo => (Ok a, repo).

(** [x, err := m; if err != nil { return err }; k x] *)
Definition bind {A B} (m : M A) (k : A -> M B) : M B :=
  fun repo =>
    match m repo with
    | (Ok a, repo') => k a repo'
    | (Err e, repo') => (Err e, repo')
    end.

Declare Scope git_scope.
Delimit Scope git_scope with git.
Bind Scope git_scope with M.

Notation "x <- m ;; k" := (bind m (fun x => k))
  (at level 100, m at next level, right associativity) : git_scope.

Local Open Scope git_scope.

Definition fail {A} (e : error) : M A := fun repo => (Err e, repo).

(** [x, err := m] where the caller inspects [err] itself. *)
Definition attempt {A} (m : M A) : M (result A) :=
  fun repo => let '(r, repo') := m repo in (Ok r, repo').

(** The command lines [m] runs when started on [repo], in order. *)
Definition issued {A} (m : M A) (repo : GitRepo) : list (list string) :=
  drop (List.length (trace repo)) (trace (snd (m repo))).

(** The repository after one more command line. *)
Definition after (repo : GitRepo) (s : Store) (args : list string) : GitRepo :=
  mkGitRepo s (trace repo ++ [args]).

(** Two descriptions of a repository agree once the appends of their
    traces are associated the same way. *)
Ltac same_repository :=
  unfold ret, after; cbn [store trace];
  rewrite <- ?app_assoc; cbn [app List.map List.concat];
  rewrite <- ?app_assoc; reflexivity.

(** The result of [m] and the store it leaves. *)
Definition outcome {A} (m : M A) (repo : GitRepo) : result A * Store :=
  (fst (m repo), store (snd (m repo))).

(** [x, err := m; if err != nil { return fmt.Errorf(context + ": %v", err) }] *)
Definition wrapErr {A} (context : string) (m : M A) : M A :=
  fun repo =>
    match m repo with
    | (Ok a, repo') => (Ok a, repo')
    | (Err e, repo') => (Err (context ++ ": " ++ e), repo')
    end.

(** [for _, x := range xs { if err := body(x); err != nil { return err } }] *)
Fixpoint forEach {A} (xs : list A) (body : A -> M unit) : M unit :=
  match xs with
  | [] => ret tt
  | x :: xs' => _ <- body x;; forEach xs' body
  end.

Section Port.
Context `{GitBackend}.

(** [runGitCommandRaw]: trimmed stdout and stderr, and how git ended. *)
Definition runGitCommandRaw (args : list string)
  : M (string * string * status) :=
  fun repo =>
    let '(out, s') := git args (store repo) in
    (Ok (strings.TrimSpace (stdout out), strings.TrimSpace (stderr out),
         exit out),
     mkGitRepo s' (trace repo ++ [args])).

(** [runGitCommand]: stdout, or stderr as the error. *)
Definition runGitCommand (args : list string) : M string :=
  raw <- runGitCommandRaw args;;
  let '(out, errText, st) := raw in
  match st with
  | Exit0 => ret out
  | ExitError _ | ExecError _ =>
      fail (if String.eqb errText "" then
              "Error running git command: " ++ strings.Join args " "
            else errText)
  end.

(** [runGitCommandInline]: git writes to the terminal itself. *)
Definition runGitCommandInline (args : list string) : M unit :=
  raw <- runGitCommandRaw args;;
  let '(_, _, st) := raw in
  match st with
  | Exit0 => ret tt
  | ExitError code => fail "exit status"
  | ExecError msg => fail msg
  end.

Definition HasRef (ref : string) : M bool :=
  raw <- runGitCommandRaw ["show-ref"; "--verify"; "--quiet"; ref];;
  let '(_, _, st) := raw in
  match st with
  | Exit0 => ret true
  | ExitError _ => ret false
  | ExecError msg =>
      (* Got an unexpected error *)
      fail msg
  end.

Definition GetCommitHash (ref : string) : M string :=
  runGitCommand ["show"; "-s"; "--format=%H"; ref; "--"].

(** [CommitDetails], as [GetCommitDetails] fills it. *)
Record CommitDetails : Type := mkCommitDetails {
  Author : string;
  AuthorEmail : string;
  Committer : string;
  CommitterEmail : string;
  Tree : string;
  Time : string;
  Parents : list string;
  Summary : string
}.

(** [json.Unmarshal] of the object printed for [jsonFormatString].  The
    text is not parsed here: tree ids and times are hexadecimal and
    decimal strings, which JSON carries verbatim, so the two fields are
    read off the commit that [show] printed. *)
Definition unmarshalTreeAndTime (ref detailsJSON : string)
  : M (string * string) :=
  fun repo =>
    match commitAt (store repo) ref with
    | Some (_, c) => (Ok (cTree c, cAuthorTime c), repo)
    | None => (Err "unexpected end of JSON input", repo)
    end.

Definition GetCommitDetails (ref : string) : M CommitDetails :=
  let show (formatString : string) : M string :=
    runGitCommand ["show"; "-s"; "--format=tformat:" ++ formatString;
                   ref; "--"] in
  detailsJSON <- show jsonFormatString;;
  treeAndTime <- unmarshalTreeAndTime ref detailsJSON;;
  let '(tree, time) := treeAndTime in
  author <- show "%an";;
  authorEmail <- show "%ae";;
  committer <- show "%cn";;
  committerEmail <- show "%ce";;
  summary <- show "%s";;
  parentsString <- show "%P";;
  ret (mkCommitDetails author authorEmail committer committerEmail
          tree time (strings.Split parentsString " ") summary).

Definition IsAncestor (ancestor descendant : string) : M bool :=
  raw <- runGitCommandRaw
           ["merge-base"; "--is-ancestor"; ancestor; descendant];;
  let '(_, _, st) := raw in
  match st with
  | Exit0 => ret true
  | ExitError _ => ret false
  | ExecError msg =>
      fail ("Error while trying to determine commit ancestry: " ++ msg)
  end.

(** [mergeArchives] merges two archive refs. *)
Definition mergeArchives (archive remoteArchive : string) : M unit :=
  hasRemote <- HasRef remoteArchive;;
  if negb hasRemote then
    (* The remote archive does not exist, so we have nothing to do *)
    ret tt
  else
    remoteHash <- GetCommitHash remoteArchive;;
    hasLocal <- HasRef archive;;
    if negb hasLocal then
      (* The local archive does not exist, so we merely need to set it *)
      _ <- runGitCommand ["update-ref"; archive; remoteHash];;
      ret tt
    else
      archiveHash <- GetCommitHash archive;;
      isAncestor <- IsAncestor archiveHash remoteHash;;
      if isAncestor then
        (* The archive can simply be fast-forwarded *)
        _ <- runGitCommand ["update-ref"; archive; remoteHash; archiveHash];;
        ret tt
      else
        (* Create a merge commit of the two archives *)
        refDetails <- GetCommitDetails remoteArchive;;
        newArchiveHash <-
          runGitCommand ["commit-tree"; "-p"; remoteHash; "-p"; archiveHash;
                         "-m"; "Merge local and remote archives";
                         Tree refDetails];;
        let newArchiveHash := strings.TrimSpace newArchiveHash in
        _ <- runGitCommand
              ["update-ref"; archive; newArchiveHash; archiveHash];;
        ret tt.

(** [ArchiveRef] adds the commit pointed to by [ref] under the ref
    [archive], creating [archive] if it does not exist yet. *)
Definition ArchiveRef (ref archive : string) : M unit :=
  refHash <- GetCommitHash ref;;
  refDetails <- GetCommitDetails ref;;
  let commitTreeArgs := ["commit-tree"] in
  archiveLookup <- attempt (GetCommitHash archive);;
  let finish (archiveHash : string) (commitTreeArgs : list string)
    : M unit :=
    let commitTreeArgs :=
      (commitTreeArgs ++ ["-p"; refHash; "-m"; ("Archive " ++ refHash)%string;
                          Tree refDetails])%list in
    newArchiveHash <- runGitCommand commitTreeArgs;;
    let newArchiveHash := strings.TrimSpace newArchiveHash in
    let updateRefArgs := ["update-ref"; archive; newArchiveHash] in
    let updateRefArgs :=
      if negb (String.eqb archiveHash "")
      then (updateRefArgs ++ [archiveHash])%list else updateRefArgs in
    _ <- runGitCommand updateRefArgs;;
    ret tt in
  match archiveLookup with
  | Err _ => finish "" commitTreeArgs
  | Ok archiveHash =>
      isAncestor <- IsAncestor refHash archiveHash;;
      if isAncestor then
        (* The ref has already been archived, so we have nothing to do *)
        ret tt
      else finish archiveHash
                  (commitTreeArgs ++ ["-p"; archiveHash])%list
  end.

(** [SetRef] sets [ref] to [newCommitHash], iff the ref currently
    points to [previousCommitHash]. *)
Definition SetRef (ref newCommitHash previousCommitHash : string)
  : M unit :=
  let args := ["update-ref"; ref; newCommitHash] in
  let args := if negb (String.eqb previousCommitHash "")
              then (args ++ [previousCommitHash])%list else args in
  _ <- runGitCommand args;;
  ret tt.

Definition Fetch (remote : string) (refspecs : list string) : M unit :=
  let args := ["fetch"; remote] in
  let args := (args ++ refspecs)%list in
  runGitCommandInline args.

End Port.

(** *** Parsing the output of [git cat-file --batch-check] and [--batch] *)

(** [reader.ReadString(delim)] of a [bufio.Reader] over a buffer that
    holds [buf]: the bytes up to and including the first [delim], and what
    is left to read; when there is no [delim], all the bytes, with
    [io.EOF] (the only error a buffer gives). *)
Fixpoint ReadString (buf : string) (delim : ascii)
  : string * bool * string :=
  match buf with
  | EmptyString => (EmptyString, true, EmptyString)
  | String c rest =>
      if Ascii.eqb c delim then (String c EmptyString, false, rest)
      else
        let '(line, eof, rest') := ReadString rest delim in
        (String c line, eof, rest')
  end.

(** The loop of [splitBatchCheckOutput].  Every turn that does not return
    reads at least one byte, so [fuel] above the length of the buffer is
    never used up. *)
Fixpoint splitBatchCheckLoop (fuel : nat) (reader : string)
         (isCommit : gmap string bool) : result (gmap string bool) :=
  match fuel with
  | O => Ok isCommit
  | S fuel' =>
      let '(nameLine, eof, reader) := ReadString reader " " in
      if eof then Ok isCommit
      else
        let nameLine := strings.TrimSuffix nameLine " " in
        let '(typeLine, _, reader) := ReadString reader "010" in
        let typeLine := strings.TrimSuffix typeLine newline in
        splitBatchCheckLoop fuel' reader
          (if String.eqb typeLine "commit"
           then <[nameLine := true]> isCommit else isCommit)
  end.

(** [splitBatchCheckOutput] parses the output of a
    [git cat-file --batch-check=...] command: the map from object hash to
    a boolean indicating if that object is a commit. *)
Definition splitBatchCheckOutput (out : string)
  : result (gmap string bool) :=
  splitBatchCheckLoop (S (String.length out)) out ∅.

(** [make([]byte, size)] once the loop over [reader.Read] has filled it
    from [reader]: the next [size] bytes, followed by zero bytes when the
    reader runs dry before. *)
Fixpoint readContents (size : nat) (reader : string) : string :=
  match size with
  | O => EmptyString
  | S size' =>
      match reader with
      | EmptyString => String zero (readContents size' EmptyString)
      | String c rest => String c (readContents size' rest)
      end
  end.

(** [reader] after [n] bytes have been read. *)
Fixpoint discard (n : nat) (reader : string) : string :=
  match n, reader with
  | S n', String _ rest => discard n' rest
  | _, _ => reader
  end.

(** The loop on [reader.Peek(1)] that skips the newlines between two
    entries. *)
Fixpoint skipNewlines (reader : string) : string :=
  match reader with
  | String c rest => if Ascii.eqb c "010" then skipNewlines rest else reader
  | EmptyString => reader
  end.

(** The loop of [splitBatchCatFileOutput], with the width of [int] for
    [strconv.Atoi].  A negative size makes [make] panic.  So does a size
    beyond what the runtime can allocate; that limit is not modelled, and
    [make] is taken to succeed for every size that is not negative. *)
Fixpoint splitBatchCatFileLoop (intSize : Z) (fuel : nat) (reader : string)
         (contentsMap : gmap string string)
  : go (result (gmap string string)) :=
  match fuel with
  | O => Return (Ok contentsMap)
  | S fuel' =>
      let '(nameLine, eof, reader) := ReadString reader "010" in
      let nameLine :=
        if strings.HasSuffix nameLine newline
        then strings.TrimSuffix nameLine newline else nameLine in
      if eof then Return (Ok contentsMap)
      else
        let '(sizeLine, eof, reader) := ReadString reader "010" in
        let sizeLine :=
          if strings.HasSuffix sizeLine newline
          then strings.TrimSuffix sizeLine newline else sizeLine in
        if eof then
          Return (Err ("Failure while reading the next object size: "
                       ++ dquote ++ nameLine ++ dquote ++ " - EOF"))
        else
          match strconv.Atoi intSize sizeLine with
          | Err e =>
              Return (Err ("Failure while parsing the next object size: "
                           ++ dquote ++ nameLine ++ dquote ++ " - " ++ e))
          | Ok size =>
              if (size <? 0)%Z then
                Panic "runtime error: makeslice: len out of range"
              else
                let contentBytes := readContents (Z.to_nat size) reader in
                let eof := (String.length reader <? Z.to_nat size)%nat in
                let reader := discard (Z.to_nat size) reader in
                let contentsMap := <[nameLine := contentBytes]> contentsMap in
                if eof then Return (Ok contentsMap)
                else
                  splitBatchCatFileLoop intSize fuel' (skipNewlines reader)
                                        contentsMap
          end
  end.

(** [splitBatchCatFileOutput] parses the output of a
    [git cat-file --batch=...] command: the map from object hash to
    contents. *)
Definition splitBatchCatFileOutput (intSize : Z) (out : string)
  : go (result (gmap string string)) :=
  splitBatchCatFileLoop intSize (S (String.length out)) out ∅.

(** The text [git cat-file --batch-check='%(objectname) %(objecttype)']
    prints for a list of objects with their types, and the text
    [git cat-file --batch='%(objectname)\n%(objectsize)'] prints for a
    list of objects with their contents (each entry ends in a newline). *)
Definition batchCheckText (entries : list (string * string)) : string :=
  unlines (List.map (fun entry => fst entry ++ " " ++ snd entry) entries).

Definition batchText (entries : list (string * string)) : string :=
  unlines
    (List.map (fun entry =>
                 fst entry ++ newline
                 ++ strconv.FormatUint (Z.of_nat (String.length (snd entry)))
                 ++ newline ++ snd entry) entries).

(** One turn of the loop of [splitBatchCheckOutput] on an entry. *)
Definition noteCommit (isCommit : gmap string bool)
           (entry : string * string) : gmap string bool :=
  if String.eqb (snd entry) "commit"
  then <[fst entry := true]> isCommit else isCommit.

(** [s] holds no byte [c]. *)
Fixpoint without (c : ascii) (s : string) : bool :=
  match s with
  | EmptyString => true
  | String x rest => negb (Ascii.eqb x c) && without c rest
  end.

(** *** The vocabulary of the statements about the port *)

(** The store with one more commit, and with a ref set. *)
Definition withCommit `{GitBackend} (s : Store) (c : Commit) : Store :=
  mkStore (refs s) (<[objectId c := c]> (commits s)) (trees s).

Definition withRef (s : Store) (ref h : string) : Store :=
  mkStore (<[ref := h]> (refs s)) (commits s) (trees s).

(** The command line of [GetCommitHash], of [HasRef], and the seven of
    [GetCommitDetails]. *)
Definition showHash (ref : string) : list string :=
  ["show"; "-s"; "--format=%H"; ref; "--"].

Definition showRefVerify (ref : string) : list string :=
  ["show-ref"; "--verify"; "--quiet"; ref].

Definition showDetails (ref : string) : list (list string) :=
  List.map (fun formatString =>
              ["show"; "-s"; "--format=tformat:" ++ formatString; ref; "--"])
           [jsonFormatString; "%an"; "%ae"; "%cn"; "%ce"; "%s"; "%P"].

(** The commit that [ArchiveRef] creates for [refHash], and the one that
    [mergeArchives] creates. *)
Definition archiveCommit `{GitBackend} (parents : list string)
           (refHash tree : string) : Commit :=
  newCommit parents ("Archive " ++ refHash) tree.

Definition mergeCommit `{GitBackend} (remoteHash archiveHash tree : string)
  : Commit :=
  newCommit [remoteHash; archiveHash] "Merge local and remote archives" tree.

(** The [commit-tree] command line for the given parents. *)
Definition commitTree (parents : list string) (message tree : string)
  : list string :=
  ("commit-tree" :: List.concat (List.map (fun p => ["-p"; p]) parents)
     ++ ["-m"; message; tree])%list.

(** How many of the command lines are [update-ref]. *)
Definition updateRefAttempts (commands : list (list string)) : nat :=
  List.length (List.filter (fun args =>
                              match args with
                              | cmd :: _ => String.eqb cmd "update-ref"
                              | [] => false
                              end) commands).


Definition isArchiveWrite (args : list string) : bool :=
  match args with
  | cmd :: _ => String.eqb cmd "commit-tree" || String.eqb cmd "update-ref"
  | [] => false
  end.


(** The store after [ArchiveRef] or [mergeArchives] has written [archive]:
    no ref but [archive] has changed, every stored commit id is still
    stored, and the trees are as before. *)
Definition onlyWrites (archive : string) (s s' : Store) : Prop :=
  (forall other, other <> archive -> refs s' !! other = refs s !! other)
  /\ (forall h, is_Some (commits s !! h) -> is_Some (commits s' !! h))
  /\ trees s' = trees s.

(** [%q] of [fmt]: the string between double quotes (the escaping of
    special characters is not modelled; it only shapes messages). *)
Definition quoted (s : string) : string := dquote ++ s ++ dquote.

(** The loop of [getRefHashes] over the lines of [git show-ref]. *)
Fixpoint collectRefHashes (lines : list string) (refPrefix : string)
         (refsMap : gmap string string) : result (gmap string string) :=
  match lines with
  | [] => Ok refsMap
  | line :: rest =>
      match strings.Split line " " with
      | [hash; ref] =>
          collectRefHashes rest refPrefix
            (if strings.HasPrefix ref refPrefix
             then <[ref := hash]> refsMap else refsMap)
      | _ => Err ("unexpected line in output of `git show-ref`: "
                  ++ quoted line)
      end
  end.

(** One turn of that loop on the line of the ref [rh]. *)
Definition keepRef (refPrefix : string) (refsMap : gmap string string)
           (rh : string * string) : gmap string string :=
  if strings.HasPrefix (fst rh) refPrefix
  then <[fst rh := snd rh]> refsMap else refsMap.

Definition getRemoteNotesRef (remote localNotesRef : string) : string :=
  let relativeNotesRef := strings.TrimPrefix localNotesRef notesRefPrefix in
  notesRefPrefix ++ "remotes/" ++ remote ++ "/" ++ relativeNotesRef.

Definition getLocalNotesRef (remote remoteNotesRef : string) : string :=
  let relativeNotesRef :=
    strings.TrimPrefix remoteNotesRef
                       (notesRefPrefix ++ "remotes/" ++ remote ++ "/") in
  notesRefPrefix ++ relativeNotesRef.

Definition getRemoteDevtoolsRef (remote devtoolsRefPattern : string)
  : string :=
  let relativeRef := strings.TrimPrefix devtoolsRefPattern devtoolsRefPrefix in
  remoteDevtoolsRefPrefix ++ remote ++ "/" ++ relativeRef.

Definition getLocalDevtoolsRef (remote remoteDevtoolsRef : string)
  : string :=
  let relativeRef :=
    strings.TrimPrefix remoteDevtoolsRef
                       (remoteDevtoolsRefPrefix ++ remote ++ "/") in
  devtoolsRefPrefix ++ relativeRef.

Section Sync.
Context `{GitBackend}.

Definition getRefHashes (refPattern : string)
  : M (gmap string string) :=
  if negb (strings.HasSuffix refPattern "/*") then
    fail ("unsupported ref pattern " ++ quoted refPattern)
  else
    let refPrefix := strings.TrimSuffix refPattern "*" in
    showRef <- runGitCommand ["show-ref"];;
    fun repo =>
      (collectRefHashes (strings.Split showRef "010") refPrefix ∅, repo).

(** [MergeNotes] merges the remote's state of the notes refs into the
    local ones.  A Go map is ranged over in an unspecified order;
    [map_to_list] fixes one. *)
Definition MergeNotes (remote notesRefPattern : string) : M unit :=
  let remoteRefPattern := getRemoteNotesRef remote notesRefPattern in
  refsMap <- getRefHashes remoteRefPattern;;
  forEach (map_to_list refsMap) (fun entry =>
    let remoteRef := fst entry in
    let localRef := getLocalNotesRef remote remoteRef in
    _ <- runGitCommand ["notes"; "--ref"; localRef; "merge"; remoteRef;
                        "-s"; "cat_sort_uniq"];;
    ret tt).


(** [MergeArchives] merges the remote's state of the archive refs into
    the local ones. *)
Definition MergeArchives (remote archiveRefPattern : string) : M unit :=
  let remoteRefPattern := getRemoteDevtoolsRef remote archiveRefPattern in
  refsMap <- getRefHashes remoteRefPattern;;
  forEach (map_to_list refsMap) (fun entry =>
    let remoteRef := fst entry in
    let localRef := getLocalDevtoolsRef remote remoteRef in
    mergeArchives localRef remoteRef).

(** The loop of [FetchAndReturnNewReviewHashes] over the updated
    remote notes refs, filling [updatedReviewSet]. *)
Fixpoint collectUpdatedReviews (updated : list (string * string))
         (priorRefHashes : gmap string string)
         (updatedReviewSet : gset string) : M (gset string) :=
  match updated with
  | [] => ret updatedReviewSet
  | (ref, hash) :: rest =>
      let ok := bool_decide (is_Some (priorRefHashes !! ref)) in
      let priorHash := default "" (priorRefHashes !! ref) in
      if String.eqb priorHash hash then
        (* Nothing has changed for this ref *)
        collectUpdatedReviews rest priorRefHashes updatedReviewSet
      else
        notes <- (if negb ok then
                    (* This is a new ref, so include every noted object *)
                    runGitCommand ["ls-tree"; "-r"; "--name-only"; hash]
                  else
                    runGitCommand ["diff"; "--name-only"; priorHash; hash]);;
        (* The name of the review matches the name of the notes tree
           entry, with slashes removed *)
        let reviews := strings.Split (strings.Replace notes "/") "010" in
        collectUpdatedReviews rest priorRefHashes
          (list_to_set reviews ∪ updatedReviewSet)
  end.

(** [FetchAndReturnNewReviewHashes] fetches the notes refs and returns
    the ids of the reviews whose notes changed. *)
Definition FetchAndReturnNewReviewHashes
           (remote notesRefPattern : string)
           (devtoolsRefPatterns : list string) : M (list string) :=
  match List.find (fun refPattern =>
                     negb (strings.HasPrefix refPattern devtoolsRefPrefix))
                  devtoolsRefPatterns with
  | Some refPattern =>
      fail ("Unsupported devtools ref: " ++ quoted refPattern)
  | None =>
      let remoteNotesRefPattern :=
        getRemoteNotesRef remote notesRefPattern in
      let notesFetchRefSpec :=
        "+" ++ notesRefPattern ++ ":" ++ remoteNotesRefPattern in
      let localDevtoolsRefPattern := devtoolsRefPrefix ++ "*" in
      let remoteDevtoolsRefPattern :=
        getRemoteDevtoolsRef remote localDevtoolsRefPattern in
      let devtoolsFetchRefSpec :=
        "+" ++ localDevtoolsRefPattern ++ ":" ++ remoteDevtoolsRefPattern in
      (* Prior to fetching, record the current state of the remote notes
         refs *)
      priorRefHashes <-
        wrapErr ("failure reading the existing ref hashes for the remote "
                 ++ quoted remote)
                (getRefHashes remoteNotesRefPattern);;
      _ <- wrapErr ("failure fetching from the remote " ++ quoted remote)
             (Fetch remote [notesFetchRefSpec; devtoolsFetchRefSpec]);;
      (* After fetching, record the updated state of the remote notes
         refs *)
      updatedRefHashes <-
        wrapErr ("failure reading the updated ref hashes for the remote "
                 ++ quoted remote)
                (getRefHashes remoteNotesRefPattern);;
      updatedReviewSet <-
        collectUpdatedReviews (map_to_list updatedRefHashes)
                              priorRefHashes ∅;;
      ret (elements updatedReviewSet)
  end.

(** [PullNotesAndArchive] fetches the notes and archive refs from a
    remote and merges them with the corresponding local refs. *)
Definition PullNotesAndArchive
           (remote notesRefPattern archiveRefPattern : string) : M unit :=
  _ <- wrapErr ("failure fetching from the remote " ++ quoted remote)
         (FetchAndReturnNewReviewHashes remote notesRefPattern
                                        [archiveRefPattern]);;
  _ <- wrapErr ("failure merging archives from the remote "
                ++ quoted remote)
         (MergeArchives remote archiveRefPattern);;
  _ <- wrapErr ("failure merging notes from the remote " ++ quoted remote)
         (MergeNotes remote notesRefPattern);;
  ret tt.

End Sync.

(** The review ids named by the paths of a notes tree: each path with its
    slashes removed. *)
Definition reviewIds (paths : list string) : gset string :=
  list_to_set (List.map (fun path => strings.Replace path "/") paths).

(** A path of a notes tree as git prints it: not empty, no white space. *)
Definition cleanPath (path : string) : bool :=
  negb (String.eqb path "") && cleanId path.

(** The paths git lists for the version [hash] of a notes ref: every path
    of its tree when there is no prior version ([ls-tree]), the paths
    [git diff --name-only] prints against the prior version otherwise.
    [None] when a commit is missing. *)
Definition changedPaths `{GitBackend} (s : Store) (prior : option string)
           (hash : string) : option (list string) :=
  match prior with
  | None =>
      match treeOf s hash with
      | Some t => Some (elements (dom t))
      | None => None
      end
  | Some priorHash =>
      match treeOf s priorHash, treeOf s hash with
      | Some t1, Some t2 => Some (diffNames t1 t2)
      | _, _ => None
      end
  end.

(** The refs under [refPrefix] with their hashes. *)
Definition refsUnder (refPrefix : string) (rs : gmap string string)
  : gmap string string :=
  filter (fun rh => strings.HasPrefix (fst rh) refPrefix = true) rs.

(** The review ids of the refs under [refPrefix] that changed from the
    store [before] to the store [after]: nothing for a ref whose hash did
    not change, every path of the tree for a ref that is new, and for a ref
    that moved the paths that [git diff --name-only] lists against the
    prior version. *)
Definition changedReviewIds `{GitBackend} (before after : Store)
           (refPrefix : string) : gset string :=
  ⋃ (List.map
       (fun entry =>
          let ref := fst entry in
          let hash := snd entry in
          if String.eqb (default "" (refs before !! ref)) hash then ∅
          else
            match changedPaths after (refs before !! ref) hash with
            | Some paths => reviewIds paths
            | None => ∅
            end)
       (map_to_list (refsUnder refPrefix (refs after)))).

(** What the loop of [FetchAndReturnNewReviewHashes] adds to its set for
    one updated ref: nothing when the hash did not change; otherwise the
    review ids of the changed paths, and the empty string when there is no
    changed path. *)
Definition reviewsAdded `{GitBackend} (s : Store)
           (priorRefHashes : gmap string string)
           (entry : string * string) : gset string :=
  let prior := priorRefHashes !! fst entry in
  if String.eqb (default "" prior) (snd entry) then ∅
  else
    match changedPaths s prior (snd entry) with
    | Some [] => {[ "" ]}
    | Some paths => reviewIds paths
    | None => ∅
    end.

(** The ref of [entry] changed, and yet no path differs from its prior
    version. *)
Definition emptyChange `{GitBackend} (s : Store)
           (priorRefHashes : gmap string string)
           (entry : string * string) : bool :=
  let prior := priorRefHashes !! fst entry in
  negb (String.eqb (default "" prior) (snd entry)) &&
  match changedPaths s prior (snd entry) with
  | Some [] => true
  | _ => false
  end.

(** The paths of [entry], where its ref changed, can be listed: the
    commits are in the store, and the paths hold no white space and no
    byte that git prints escaped. *)
Definition pathsListed `{GitBackend} (s : Store)
           (priorRefHashes : gmap string string)
           (entry : string * string) : bool :=
  let prior := priorRefHashes !! fst entry in
  String.eqb (default "" prior) (snd entry) ||
  match changedPaths s prior (snd entry) with
  | Some paths => forallb (fun p => cleanPath p && plainPath p) paths
  | None => false
  end.

(** A store that [git show-ref] lists line by line: it has a ref, and ref
    names and ids are not empty and hold no white space. *)
Definition tidyRefs (s : Store) : bool :=
  negb (bool_decide (map_to_list (refs s) = [])) &&
  forallb (fun rh => cleanPath (fst rh) && cleanPath (snd rh))
          (map_to_list (refs s)).

(** [m] writes no ref but those satisfying [written], and drops no
    commit. *)
Definition writesOnly {A} (written : string -> Prop) (m : M A) : Prop :=
  forall repo,
    (forall ref, ~ written ref ->
                 refs (store (snd (m repo))) !! ref
                 = refs (store repo) !! ref)
    /\ (forall h, is_Some (commits (store repo) !! h) ->
                  is_Some (commits (store (snd (m repo))) !! h)).

(** The command lines that stay within [written]: those that only read,
    [commit-tree], and an [update-ref] of a ref satisfying [written]. *)
Definition staysWithin (written : string -> Prop) (args : list string)
  : Prop :=
  match args with
  | cmd :: rest =>
      In cmd ["show-ref"; "show"; "merge-base"; "commit-tree"; "ls-tree";
              "diff"]
      \/ (cmd = "update-ref"
          /\ match rest with
             | ref :: _ => written ref
             | [] => True
             end)
  | [] => True
  end.

(** Every command line that [m] runs, from any repository, satisfies [P]
    (and [m] only ever adds to the trace). *)
Definition emits {A} (P : list string -> Prop) (m : M A) : Prop :=
  forall repo, exists commands,
    trace (snd (m repo)) = (trace repo ++ commands)%list /\ Forall P commands.



End repository.

(** ** Package commands: comment.go and accept.go *)

Module commands.

(** [comment.Range], [comment.Location] and [comment.Comment]. *)
Record Range : Type := mkRange {
  StartLine : Z;
  StartColumn : Z;
  EndLine : Z;
  EndColumn : Z
}.

Record Location : Type := mkLocation {
  Commit : string;
  Path : string;
  LocationRange : option Range
}.

Record Comment : Type := mkComment {
  Timestamp : string;
  Author : string;
  CommentLocation : option Location;
  Parent : string;
  Description : string;
  Resolved : option bool;
  Signature : string
}.

(** [review.CommentThread]: a comment, its hash and its replies. *)
#[local] Unset Elimination Schemes.
Inductive CommentThread : Type :=
| mkCommentThread (hash : string) (comment : Comment)
                  (children : list CommentThread).

#[local] Set Elimination Schemes.

Definition Hash (thread : CommentThread) : string :=
  match thread with mkCommentThread hash _ _ => hash end.

Definition Children (thread : CommentThread) : list CommentThread :=
  match thread with mkCommentThread _ _ children => children end.

(** [review.Review]: the fields the commands read. *)
Record Review : Type := mkReview {
  Revision : string;
  Comments : list CommentThread
}.

(** One round of the loop of [commentHashExists]: the thread itself, then
    its children (the recursive call of the source, here a local loop so
    that the recursion is structural on the thread). *)
Fixpoint threadHashExists (hashToFind : string) (thread : CommentThread)
  {struct thread} : bool :=
  match thread with
  | mkCommentThread hash _ children =>
      if String.eqb hash hashToFind then true
      else
        (fix loop (threads : list CommentThread) : bool :=
           match threads with
           | [] => false
           | child :: rest =>
               if threadHashExists hashToFind child then true
               else loop rest
           end) children
  end.

(** [commentHashExists] checks if the given comment hash exists in the
    given comment threads. *)
Fixpoint commentHashExists (hashToFind : string)
         (threads : list CommentThread) {struct threads} : bool :=
  match threads with
  | [] => false
  | thread :: rest =>
      if threadHashExists hashToFind thread then true
      else commentHashExists hashToFind rest
  end.

(** A comment with the given hash occurs in the threads, at any depth. *)
Inductive InThreads (h : string) : list CommentThread -> Prop :=
| InThreads_here c children rest :
    InThreads h (mkCommentThread h c children :: rest)
| InThreads_child h' c children rest :
    InThreads h children ->
    InThreads h (mkCommentThread h' c children :: rest)
| InThreads_next thread rest :
    InThreads h rest -> InThreads h (thread :: rest).

(** The flag variables of the [comment] and [accept] flag sets. *)
Record commentFlags : Type := mkCommentFlags {
  commentMessageFile : string;
  commentMessage : string;
  commentParent : string;
  commentFile : string;
  commentDetached : bool;
  commentLgtm : bool;
  commentNmw : bool;
  commentSign : bool;
  commentDate : string;
  commentLocation : Range
}.

Record acceptFlags : Type := mkAcceptFlags {
  acceptMessageFile : string;
  acceptMessage : string;
  acceptDate : string;
  acceptSign : bool
}.

Definition withCommentMessage (flags : commentFlags) (message : string)
  : commentFlags :=
  mkCommentFlags (commentMessageFile flags) message (commentParent flags)
                 (commentFile flags) (commentDetached flags)
                 (commentLgtm flags) (commentNmw flags) (commentSign flags)
                 (commentDate flags) (commentLocation flags).

Definition withAcceptMessage (flags : acceptFlags) (message : string)
  : acceptFlags :=
  mkAcceptFlags (acceptMessageFile flags) message (acceptDate flags)
                (acceptSign flags).

(** The packages the two commands call and that are not part of this
    development: the [repository.Repo] interface, [review], [input],
    [gpg], and the date helpers of [commands].  [Repo] is the state of
    the repository; only the two [Add...] operations change it. *)
Class Env : Type := {
  Repo : Type;
  Time : Type;
  GetUserEmail : Repo -> result string;
  GetUserSigningKey : Repo -> result string;
  ResolveRefCommit : Repo -> string -> result string;
  review_Get : Repo -> string -> result (option Review);
  review_GetCurrent : Repo -> result (option Review);
  review_GetDetachedComments : Repo -> string -> result (list CommentThread);
  GetHeadCommit : Repo -> Review -> result string;
  AddComment : Review -> Comment -> Repo -> result unit * Repo;
  review_AddDetachedComment : Comment -> Repo -> result unit * Repo;
  location_Check : Repo -> Location -> result unit;
  input_FromFile : string -> result string;
  input_LaunchEditor : Repo -> string -> result string;
  GetDate : string -> result (option Time);
  time_Now : Time;
  FormatDate : Time -> string;
  comment_New : string -> string -> Comment;
  (** the armored detached signature of a record under a key *)
  detachSign : string -> Comment -> result string
}.

Definition commentFilename : string := "APPRAISE_COMMENT_EDITMSG".

Definition setLocation (c : Comment) (l : Location) : Comment :=
  mkComment (Timestamp c) (Author c) (Some l) (Parent c) (Description c)
            (Resolved c) (Signature c).
Definition setParent (c : Comment) (p : string) : Comment :=
  mkComment (Timestamp c) (Author c) (CommentLocation c) p (Description c)
            (Resolved c) (Signature c).
Definition setTimestamp (c : Comment) (t : string) : Comment :=
  mkComment t (Author c) (CommentLocation c) (Parent c) (Description c)
            (Resolved c) (Signature c).
Definition setResolved (c : Comment) (r : bool) : Comment :=
  mkComment (Timestamp c) (Author c) (CommentLocation c) (Parent c)
            (Description c) (Some r) (Signature c).
Definition setSignature (c : Comment) (s : string) : Comment :=
  mkComment (Timestamp c) (Author c) (CommentLocation c) (Parent c)
            (Description c) (Resolved c) s.

Section Commands.
Context `{Env}.

(** Modelled from the spec: [gpg.Sign] is not among the sources.
    It produces the detached signature of the record and places it in
    the record's signature field. *)
Definition gpg_Sign (key : string) (c : Comment) : result Comment :=
  match detachSign key c with
  | Ok sig => Ok (setSignature c sig)
  | Err e => Err e
  end.

(** [validateArgs]: the error, or the flags with [*commentMessage]
    filled in. *)
Definition validateArgs (repo : Repo) (flags : commentFlags)
           (args : list string) (threads : list CommentThread)
  : result commentFlags :=
  if commentLgtm flags && commentNmw flags then
    Err "You cannot combine the flags -lgtm and -nmw."
  else if negb (String.eqb (commentParent flags) "")
          && negb (commentHashExists (commentParent flags) threads) then
    Err "There is no matching parent comment."
  else
    let afterFile : result commentFlags :=
      if negb (String.eqb (commentMessageFile flags) "")
         && String.eqb (commentMessage flags) "" then
        match input_FromFile (commentMessageFile flags) with
        | Ok message => Ok (withCommentMessage flags message)
        | Err e => Err e
        end
      else Ok flags in
    match afterFile with
    | Err e => Err e
    | Ok flags =>
        let afterEditor : result commentFlags :=
          if String.eqb (commentMessageFile flags) ""
             && String.eqb (commentMessage flags) "" then
            match input_LaunchEditor repo commentFilename with
            | Ok message => Ok (withCommentMessage flags message)
            | Err e => Err e
            end
          else Ok flags in
        match afterEditor with
        | Err e => Err e
        | Ok flags =>
            if String.eqb (commentMessageFile flags) ""
               && String.eqb (commentMessage flags) "" then
              Err "No comment"
            else Ok flags
        end
    end.

Definition buildCommentFromFlags (repo : Repo) (flags : commentFlags)
           (commentedUponCommit : string) : result Comment :=
  let location := mkLocation commentedUponCommit "" None in
  let location :=
    if negb (String.eqb (commentFile flags) "")
    then mkLocation (Commit location) (commentFile flags)
                    (LocationRange location)
    else location in
  let location := mkLocation (Commit location) (Path location)
                             (Some (commentLocation flags)) in
  match location_Check repo location with
  | Err e => Err ("Unable to comment on the given location: " ++ e)
  | Ok _ =>
  match GetUserEmail repo with
  | Err e => Err e
  | Ok userEmail =>
  match GetDate (commentDate flags) with
  | Err e => Err e
  | Ok date =>
      let date := match date with Some d => d | None => time_Now end in
      let timestamp := FormatDate date in
      let c := comment_New userEmail (commentMessage flags) in
      let c := setLocation c location in
      let c := setParent c (commentParent flags) in
      let c := if (0 <? String.length timestamp)%nat
               then setTimestamp c timestamp else c in
      let c := if commentLgtm flags || commentNmw flags
               then setResolved c (commentLgtm flags) else c in
      if commentSign flags then
        match GetUserSigningKey repo with
        | Err e => Err e
        | Ok key => gpg_Sign key c
        end
      else Ok c
  end end end.

(** The review named by the arguments, or the current one. *)
Definition loadReview (repo : Repo) (args : list string)
  : result (option Review) :=
  match args with
  | [arg] => review_Get repo arg
  | _ => review_GetCurrent repo
  end.

(** [commentOnReview] adds a comment to the current code review. *)
Definition commentOnReview (repo : Repo) (flags : commentFlags)
           (args : list string) : result unit * Repo :=
  if (1 <? List.length args)%nat then
    (Err "Only commenting on a single review is supported.", repo)
  else
    match loadReview repo args with
    | Err e =>
        (Err ("Failed to load the review: " ++ e ++ repository.newline),
         repo)
    | Ok None => (Err "There is no matching review.", repo)
    | Ok (Some r) =>
        match validateArgs repo flags args (Comments r) with
        | Err e => (Err e, repo)
        | Ok flags =>
            match GetHeadCommit repo r with
            | Err e => (Err e, repo)
            | Ok commentedUponCommit =>
                match buildCommentFromFlags repo flags
                                            commentedUponCommit with
                | Err e => (Err e, repo)
                | Ok c => AddComment r c repo
                end
            end
        end
    end.

(** [commentOnPath] adds a comment about the given file without
    attaching it to a review. *)
Definition commentOnPath (repo : Repo) (flags : commentFlags)
           (args : list string) : result unit * Repo :=
  if String.eqb (commentFile flags) "" then
    (Err "You must specify the containing file for detached comments.",
     repo)
  else if (1 <? List.length args)%nat then
    (Err "Only commenting on a single location is supported.", repo)
  else
    let commentedUponRef :=
      match args with [arg] => arg | _ => "HEAD" end in
    match ResolveRefCommit repo commentedUponRef with
    | Err e =>
        (Err ("Failed to resolve the comment location: " ++ e
              ++ repository.newline), repo)
    | Ok commentedUponCommit =>
        match review_GetDetachedComments repo (commentFile flags) with
        | Err e => (Err e, repo)
        | Ok commentThreads =>
            match validateArgs repo flags args commentThreads with
            | Err e => (Err e, repo)
            | Ok flags =>
                match buildCommentFromFlags repo flags
                                            commentedUponCommit with
                | Err e => (Err e, repo)
                | Ok c => review_AddDetachedComment c repo
                end
            end
        end
    end.

(** The [RunMethod] of [commentCmd], after the flags are parsed. *)
Definition commentCmd (repo : Repo) (flags : commentFlags)
           (args : list string) : result unit * Repo :=
  if commentDetached flags then commentOnPath repo flags args
  else commentOnReview repo flags args.

(** [acceptReview] adds an LGTM comment to the current code review. *)
Definition acceptReview (repo : Repo) (flags : acceptFlags)
           (args : list string) : result unit * Repo :=
  if (1 <? List.length args)%nat then
    (Err "Only accepting a single review is supported.", repo)
  else
    match loadReview repo args with
    | Err e =>
        (Err ("Failed to load the review: " ++ e ++ repository.newline),
         repo)
    | Ok None => (Err "There is no matching review.", repo)
    | Ok (Some r) =>
    match GetHeadCommit repo r with
    | Err e => (Err e, repo)
    | Ok acceptedCommit =>
        let location := mkLocation acceptedCommit "" None in
        let resolved := true in
    match GetUserEmail repo with
    | Err e => (Err e, repo)
    | Ok userEmail =>
        let afterFile : result acceptFlags :=
          if negb (String.eqb (acceptMessageFile flags) "")
             && String.eqb (acceptMessage flags) "" then
            match input_FromFile (acceptMessageFile flags) with
            | Ok message => Ok (withAcceptMessage flags message)
            | Err e => Err e
            end
          else Ok flags in
    match afterFile with
    | Err e => (Err e, repo)
    | Ok flags =>
    match GetDate (acceptDate flags) with
    | Err e => (Err e, repo)
    | Ok date =>
        let date := match date with Some d => d | None => time_Now end in
        let timestamp := FormatDate date in
        let c := comment_New userEmail (acceptMessage flags) in
        let c := setLocation c location in
        let c := setResolved c resolved in
        let c := if (0 <? String.length timestamp)%nat
                 then setTimestamp c timestamp else c in
        if acceptSign flags then
          match GetUserSigningKey repo with
          | Err e => (Err e, repo)
          | Ok key =>
              match gpg_Sign key c with
              | Err e => (Err e, repo)
              | Ok c => AddComment r c repo
              end
          end
        else AddComment r c repo
    end end end end end.

(** The threads [validateArgs] checks the parent against: those of the
    review the command is about, or the detached comments of the file.
    Where they cannot be loaded the command fails before it validates. *)
Definition threadsInScope (repo : Repo) (flags : commentFlags)
           (args : list string) : list CommentThread :=
  if commentDetached flags then
    match review_GetDetachedComments repo (commentFile flags) with
    | Ok threads => threads
    | Err _ => []
    end
  else
    match loadReview repo args with
    | Ok (Some r) => Comments r
    | _ => []
    end.

End Commands.

End commands.

(** ** Package web: the HTTP handlers (web.go) *)

Module web.

(** SHA1 produces 160 bit hashes, so a hex-encoded hash should be no more
    than 40 characters. *)
Definition maxHashLength : Z := 40.

(** The loop of [checkStringLooksLikeHash] over the runes of [s]. *)
Fixpoint checkHashCharacters (cs : list Z) : result unit :=
  match cs with
  | [] => Ok tt
  | c :: rest =>
      if ((c <? rune "a")%Z || (c >? rune "f")%Z)
         && ((c <? rune "0")%Z || (c >? rune "9")%Z)
      then Err "Invalid hash character"
      else checkHashCharacters rest
  end.

Definition checkStringLooksLikeHash (s : string) : result unit :=
  if (len s >? maxHashLength)%Z then Err "Invalid hash parameter"
  else checkHashCharacters (runes s).

(** [ServePaths]: the links of the pages the server serves. *)
Definition ServePaths_Css : string := "stylesheet.css".
Definition ServePaths_Repo : string := "repo.html".
Definition ServePaths_Branch (branch : Z) : string :=
  "branch.html?branch=" ++ strconv.FormatUint branch.
Definition ServePaths_Review (branch : Z) (review : string) : string :=
  "review.html?branch=" ++ strconv.FormatUint branch
  ++ "&review=" ++ review.

(** *** net/http, as far as the handlers use it *)

Definition StatusOK : Z := 200.
Definition StatusBadRequest : Z := 400.
Definition StatusInternalServerError : Z := 500.

(** The request: the parsed query, key and value pairs in URL order. *)
Record Request : Type := mkRequest {
  Query : list (string * string)
}.

(** [r.URL.Query().Get(key)]: the first value of the key, the empty
    string when there is none. *)
Fixpoint Get (query : list (string * string)) (key : string) : string :=
  match query with
  | [] => ""
  | (k, v) :: rest => if String.eqb k key then v else Get rest key
  end.

(** What the handler wrote to its [http.ResponseWriter]. *)
Record Response : Type := mkResponse {
  StatusCode : Z;
  ContentType : string;
  Body : string
}.

(** [http.Error(w, err.Error(), code)] *)
Definition ServeErrorTemplate (err : error) (code : Z) : Response :=
  mkResponse code "text/plain; charset=utf-8"
             (err ++ String "010" EmptyString).

Definition serveHTML (body : string) : Response :=
  mkResponse StatusOK "text/html; charset=utf-8" body.

(** The types and functions of the package and of its imports that are
    not part of this development, and the width of [int]. *)
Class Env : Type := {
  (** [strconv.IntSize]: 32 or 64 *)
  intSize : Z;
  BranchDetails : Type;
  ReviewDetails : Type;
  CommitInfo : Type;
  Diffs : Type;
  (** [repoDetails.Update()]: refreshes the branches in place *)
  Update : list BranchDetails -> result unit * list BranchDetails;
  review_Get : string -> result ReviewDetails;
  (** [reviewDetails.Summary.Revision] *)
  Revision : ReviewDetails -> string;
  GetCommitDetails : string -> result CommitInfo;
  GetCommitMessage : string -> result string;
  ParsedDiff1 : string -> result Diffs;
  (** [ServeTemplate] on the arguments of the branch page *)
  branchTemplate :
    list BranchDetails -> Z -> BranchDetails -> result string;
  (** [ServeTemplate] on the arguments of the review page *)
  reviewTemplate :
    list BranchDetails -> Z -> BranchDetails -> string -> CommitInfo
    -> list string -> ReviewDetails -> Diffs -> result string
}.

Section Handlers.
Context `{Env}.

(** [RepoDetails]: the field the handlers index. *)
Record RepoDetails : Type := mkRepoDetails {
  Branches : list BranchDetails
}.

(** The conversion [int(x)] of a uint64: the low [intSize] bits, read
    as a two's complement number. *)
Definition int (x : Z) : Z :=
  ((x + 2 ^ (intSize - 1)) mod 2 ^ intSize - 2 ^ (intSize - 1))%Z.

(** [repoDetails.Branches[branch]] for a uint64 index: the bounds check,
    a run-time panic when it fails, then the element. *)
Definition indexBranches (repoDetails : RepoDetails) (branch : Z)
  : go BranchDetails :=
  if (branch <? Z.of_nat (List.length (Branches repoDetails)))%Z then
    match Branches repoDetails !! Z.to_nat branch with
    | Some b => Return b
    | None => Panic "runtime error: index out of range"
    end
  else Panic "runtime error: index out of range".

Definition WriteBranchTemplate (repoDetails : RepoDetails) (branch : Z)
  : go (result string) :=
  match indexBranches repoDetails branch with
  | Panic msg => Panic msg
  | Return branchDetails =>
      Return (branchTemplate (Branches repoDetails) branch branchDetails)
  end.

(** Shows reviews for a given branch. *)
Definition ServeBranchTemplate (repoDetails : RepoDetails) (r : Request)
  : go Response :=
  match Update (Branches repoDetails) with
  | (Err err, _) =>
      Return (ServeErrorTemplate err StatusInternalServerError)
  | (Ok _, branches) =>
      let repoDetails := mkRepoDetails branches in
      let branchParam := Get (Query r) "branch" in
      if String.eqb branchParam "" then
        Return (ServeErrorTemplate "No branch specified" StatusBadRequest)
      else
        let parsed := strconv.ParseUint branchParam 32 in
        match parsed with
        | Err _ =>
            Return (ServeErrorTemplate "Bad branch specified"
                                       StatusBadRequest)
        | Ok branchNum =>
            if (Z.of_nat (List.length (Branches repoDetails))
                <=? int branchNum)%Z then
              Return (ServeErrorTemplate "Bad branch specified"
                                         StatusBadRequest)
            else
              match WriteBranchTemplate repoDetails branchNum with
              | Panic msg => Panic msg
              | Return (Err err) =>
                  Return (ServeErrorTemplate err
                            StatusInternalServerError)
              | Return (Ok body) => Return (serveHTML body)
              end
        end
  end.

Definition WriteReviewTemplate (repoDetails : RepoDetails) (branch : Z)
           (reviewID : string) : go (result string) :=
  match review_Get reviewID with
  | Err err => Return (Err err)
  | Ok reviewDetails =>
  let commit := Revision reviewDetails in
  match GetCommitDetails commit with
  | Err err => Return (Err err)
  | Ok commitDetails =>
  match GetCommitMessage commit with
  | Err err => Return (Err err)
  | Ok commitMessage =>
  (* Show only the review commit *)
  match ParsedDiff1 commit with
  | Err err => Return (Err err)
  | Ok diffs =>
  match indexBranches repoDetails branch with
  | Panic msg => Panic msg
  | Return branchDetails =>
      Return (reviewTemplate (Branches repoDetails) branch branchDetails
                commit commitDetails (strings.Split commitMessage "010")
                reviewDetails diffs)
  end end end end end.

(** Show a review with inline diff. *)
Definition ServeReviewTemplate (repoDetails : RepoDetails) (r : Request)
  : go Response :=
  match Update (Branches repoDetails) with
  | (Err err, _) =>
      Return (ServeErrorTemplate err StatusInternalServerError)
  | (Ok _, branches) =>
      let repoDetails := mkRepoDetails branches in
      let branchParam := Get (Query r) "branch" in
      if String.eqb branchParam "" then
        Return (ServeErrorTemplate "No branch specified" StatusBadRequest)
      else
        let parsed := strconv.ParseUint branchParam 32 in
        match parsed with
        | Err _ =>
            Return (ServeErrorTemplate "Bad branch specified"
                                       StatusBadRequest)
        | Ok branchNum =>
            if (Z.of_nat (List.length (Branches repoDetails))
                <=? int branchNum)%Z then
              Return (ServeErrorTemplate "Bad branch specified"
                                         StatusBadRequest)
            else
              let reviewParam := Get (Query r) "review" in
              if String.eqb reviewParam "" then
                Return (ServeErrorTemplate "No review specified"
                                           StatusBadRequest)
              else
                match checkStringLooksLikeHash reviewParam with
                | Err err =>
                    Return (ServeErrorTemplate err StatusBadRequest)
                | Ok _ =>
                    match WriteReviewTemplate repoDetails branchNum
                                              reviewParam with
                    | Panic msg => Panic msg
                    | Return (Err err) =>
                        Return (ServeErrorTemplate err
                                  StatusInternalServerError)
                    | Return (Ok body) => Return (serveHTML body)
                    end
                end
        end
  end.

End Handlers.

(** *** The vocabulary of the statements about the handlers *)

(** A lowercase hexadecimal digit: '0'..'9' or 'a'..'f'. *)
Definition hexDigit (c : ascii) : bool :=
  let n := nat_of_ascii c in
  ((48 <=? n) && (n <=? 57))%nat || ((97 <=? n) && (n <=? 102))%nat.

Fixpoint allHexDigits (s : string) : bool :=
  match s with
  | EmptyString => true
  | String c rest => hexDigit c && allHexDigits rest
  end.

(** At most 40 characters, all of them lowercase hexadecimal digits. *)
Definition looksLikeHash (s : string) : bool :=
  (String.length s <=? 40)%nat && allHexDigits s.

(** The number a string of decimal digits denotes, continuing from [acc];
    [None] when a character is not a digit. *)
Fixpoint digitsValue (s : string) (acc : Z) : option Z :=
  match s with
  | EmptyString => Some acc
  | String c rest =>
      let n := nat_of_ascii c in
      if ((48 <=? n) && (n <=? 57))%nat
      then digitsValue rest (acc * 10 + (Z.of_nat n - 48))%Z
      else None
  end.

(** The value of a decimal unsigned 32-bit integer: a non-empty string of
    decimal digits that denotes a number below 2^32. *)
Definition decimalUint32 (s : string) : option Z :=
  match s with
  | EmptyString => None
  | _ => match digitsValue s 0 with
         | Some v => if (v <? 2 ^ 32)%Z then Some v else None
         | None => None
         end
  end.

(** The branch parameter is absent (or empty), is not a decimal unsigned
    32-bit integer, or is not below the number of branches. *)
Definition badBranch {B} (branches : list B) (branchParam : string) : bool :=
  match decimalUint32 branchParam with
  | None => true
  | Some n => (Z.of_nat (List.length branches) <=? n)%Z
  end.

Definition respondsWith {A} (code : Z) (r : go A) (status : A -> Z) : Prop :=
  exists a, r = Return a /\ status a = code.

Definition panics {A} (r : go A) : bool :=
  match r with Panic _ => true | Return _ => false end.

End web.

(* ===================================================================== *)
(** * Part II. Sample data                                                *)
(* ===================================================================== *)

(** ** A web environment: branches named by strings, a template engine that
      prints the branch, and an [Update] that fails on demand. *)

Definition sampleWebEnv (bits : Z) (updateFails : bool) : web.Env :=
  {| web.intSize := bits;
     web.BranchDetails := string;
     web.ReviewDetails := string;
     web.CommitInfo := unit;
     web.Diffs := unit;
     web.Update := fun branches =>
       if updateFails then (Err "repository unavailable", branches)
       else (Ok tt, branches);
     web.review_Get := fun id => Ok id;
     web.Revision := fun r => r;
     web.GetCommitDetails := fun _ => Ok tt;
     web.GetCommitMessage := fun _ => Ok "message";
     web.ParsedDiff1 := fun _ => Ok tt;
     web.branchTemplate := fun _ _ b => Ok b;
     web.reviewTemplate := fun _ _ b commit _ _ _ _ => Ok (b ++ commit) |}.

(** ** A git backend and a small repository

    The digest of a commit spells out its parents, tree and message,
    [fetch] installs a fixed set of remote-tracking refs, and a notes merge
    moves the local ref to the remote one.  [diff] lists the paths whose
    entries differ, except a path that is gone while its blob is found
    under a new path: git takes the two for one path renamed and lists the
    new name only.  (Renames with changed contents, which git finds by
    comparing the blobs, are beyond the sample.) *)

(** The entries of [t1] whose paths are not in [t2]. *)
Definition entriesGone (t1 t2 : gmap string string)
  : list (string * string) :=
  List.filter (fun entry => bool_decide (t2 !! fst entry = None))
              (map_to_list t1).

(** [added] without its first entry that holds [blob], if there is one. *)
Fixpoint takeBlob (blob : string) (added : list (string * string))
  : option (list (string * string)) :=
  match added with
  | [] => None
  | entry :: rest =>
      if String.eqb (snd entry) blob then Some rest
      else match takeBlob blob rest with
           | Some rest' => Some (entry :: rest')
           | None => None
           end
  end.

(** The paths of [gone] that are paired with an entry of [added] of the
    same blob, each entry of [added] being used once. *)
Fixpoint renamedAway (gone added : list (string * string)) : list string :=
  match gone with
  | [] => []
  | entry :: rest =>
      match takeBlob (snd entry) added with
      | Some added' => fst entry :: renamedAway rest added'
      | None => renamedAway rest added
      end
  end.

Definition sampleDiffNames (t1 t2 : gmap string string) : list string :=
  let away := renamedAway (entriesGone t1 t2) (entriesGone t2 t1) in
  List.filter (fun path => negb (bool_decide (path ∈ away)))
              (repository.changedNames t1 t2).

Definition sampleDigest (c : repository.Commit) : string :=
  strings.Join (repository.cParents c) "+" ++ ":" ++ repository.cTree c
  ++ ":" ++ repository.cMessage c.

Definition sampleGit (fetched : gmap string string)
  : repository.GitBackend :=
  {| repository.objectDigest := sampleDigest;
     repository.identName := "Reviewer";
     repository.identEmail := "reviewer@example.com";
     repository.identTime := "1700000000";
     repository.fetchEffect := fun remote refspecs s =>
       Some (repository.mkStore (fetched ∪ repository.refs s)
                                (repository.commits s) (repository.trees s));
     repository.notesMergeEffect := fun localRef remoteRef strategy s =>
       match repository.refs s !! remoteRef with
       | Some h => Some (repository.withRef s localRef h)
       | None => None
       end;
     repository.diffNames := sampleDiffNames |}.

Definition sampleCommit (parents : list string) (tree message : string)
  : repository.Commit :=
  repository.mkCommit parents tree message "Author" "author@example.com"
                      "Author" "author@example.com" "1600000000".

(** A branch [work] at [c2], a local archive at [c3], the remote-tracking
    archive at [c1] (the parent of both), and the remote-tracking notes at
    [n1]. *)
Definition sampleStore : repository.Store :=
  repository.mkStore
    (<["refs/heads/work" := "c2"]>
       (<["refs/devtools/archives/reviews" := "c3"]>
          (<["refs/remoteDevtools/origin/archives/reviews" := "c1"]>
             (<["refs/notes/remotes/origin/devtools/reviews" := "n1"]> ∅))))
    (<["c1" := sampleCommit [] "t1" "one"]>
       (<["c2" := sampleCommit ["c1"] "t2" "two"]>
          (<["c3" := sampleCommit ["c1"] "t3" "three"]>
             (<["n1" := sampleCommit [] "nt1" "notes"]>
                (<["n2" := sampleCommit ["n1"] "nt1" "notes again"]> ∅)))))
    (<["nt1" := <["ab/cdef" := "b1"]> ∅]> ∅).

Definition sampleRepo : repository.GitRepo :=
  repository.mkGitRepo sampleStore [].

(** What a fetch from [origin] brings: the notes ref moved to [n2], a
    commit with the tree of [n1]. *)
Definition sampleFetched : gmap string string :=
  <["refs/notes/remotes/origin/devtools/reviews" := "n2"]> ∅.

Definition sampleBackend : repository.GitBackend := sampleGit sampleFetched.

(** A repository whose remote-tracking notes are at [m1], with the note
    of the review [abcdef]; and what a fetch brings: the notes ref at
    [m2], where the same note is on the review [123456] (path
    [12/3456]). *)
Definition movedStore : repository.Store :=
  repository.mkStore
    (<["refs/notes/remotes/origin/devtools/reviews" := "m1"]> ∅)
    (<["m1" := sampleCommit [] "mt1" "notes"]>
       (<["m2" := sampleCommit ["m1"] "mt2" "notes moved"]> ∅))
    (<["mt1" := <["abcdef" := "b1"]> ∅]>
       (<["mt2" := <["12/3456" := "b1"]> ∅]> ∅)).

Definition movedFetched : gmap string string :=
  <["refs/notes/remotes/origin/devtools/reviews" := "m2"]> ∅.

(** A backend whose remote cannot be reached: every fetch fails. *)
Definition offlineBackend : repository.GitBackend :=
  {| repository.objectDigest := sampleDigest;
     repository.identName := "Reviewer";
     repository.identEmail := "reviewer@example.com";
     repository.identTime := "1700000000";
     repository.fetchEffect := fun _ _ _ => None;
     repository.notesMergeEffect := fun _ _ _ _ => None;
     repository.diffNames := sampleDiffNames |}.

Definition workRef : string := "refs/heads/work".
Definition archiveRef : string := "refs/devtools/archives/reviews".
Definition remoteArchiveRef : string :=
  "refs/remoteDevtools/origin/archives/reviews".
Definition notesPattern : string := "refs/notes/devtools/*".
Definition archivePattern : string := "refs/devtools/archives/*".






(** ** An environment for the commands

    The repository is the list of comments appended so far, each with the
    review or commit it was attached to.  Files all hold [fileContents],
    the editor always returns [editorMessage]. *)

Definition sampleThreads : list commands.CommentThread :=
  [commands.mkCommentThread "aaaa"
     (commands.mkComment "1600000000" "author@example.com" None ""
                         "first" None "")
     [commands.mkCommentThread "bbbb"
        (commands.mkComment "1600000001" "reviewer@example.com" None "aaaa"
                            "reply" None "")
        []]].

Definition sampleCommandsEnv (fileContents editorMessage : string)
  : commands.Env :=
  {| commands.Repo := list (string * commands.Comment);
     commands.Time := string;
     commands.GetUserEmail := fun _ => Ok "reviewer@example.com";
     commands.GetUserSigningKey := fun _ => Ok "KEY";
     commands.ResolveRefCommit := fun _ _ => Ok "c2";
     commands.review_Get := fun _ id =>
       Ok (Some (commands.mkReview id sampleThreads));
     commands.review_GetCurrent := fun _ =>
       Ok (Some (commands.mkReview "c2" sampleThreads));
     commands.review_GetDetachedComments := fun _ _ => Ok [];
     commands.GetHeadCommit := fun _ r => Ok (commands.Revision r);
     commands.AddComment := fun r c repo =>
       (Ok tt, (repo ++ [(commands.Revision r, c)])%list);
     commands.review_AddDetachedComment := fun c repo =>
       (Ok tt, (repo ++ [("detached", c)])%list);
     commands.location_Check := fun _ _ => Ok tt;
     commands.input_FromFile := fun _ => Ok fileContents;
     commands.input_LaunchEditor := fun _ _ => Ok editorMessage;
     commands.GetDate := fun _ => Ok None;
     commands.time_Now := "1700000000";
     commands.FormatDate := fun t => t;
     commands.comment_New := fun author description =>
       commands.mkComment "" author None "" description None "";
     commands.detachSign := fun key _ => Ok ("signed:" ++ key) |}.

Definition plainCommentFlags : commands.commentFlags :=
  commands.mkCommentFlags "" "" "" "" false false false false ""
                          (commands.mkRange 0 0 0 0).

(* ===================================================================== *)
(** * Part III. Proofs                                                    *)
(* ===================================================================== *)

(** ** The web handlers *)

Section WebFacts.
Import web.

(** The test of the loop of [checkStringLooksLikeHash], on one byte. *)
Lemma hash_character_test (c : ascii) :
  (((rune c <? rune "a")%Z || (rune c >? rune "f")%Z)
   && ((rune c <? rune "0")%Z || (rune c >? rune "9")%Z))
  = negb (hexDigit c).
Proof.
  destruct c as [[] [] [] [] [] [] [] []]; vm_compute; reflexivity.
Qed.

Lemma checkHashCharacters_allHexDigits (s : string) :
  checkHashCharacters (runes s)
  = if allHexDigits s then Ok tt else Err "Invalid hash character".
Proof.
  induction s as [|c rest IH]; [reflexivity|].
  cbn [runes checkHashCharacters allHexDigits].
  fold (rune c). rewrite hash_character_test.
  destruct (hexDigit c); cbn [negb andb]; [exact IH | reflexivity].
Qed.

(** C9.  [checkStringLooksLikeHash] returns nil exactly for the strings of
    at most 40 characters that are all lowercase hexadecimal digits (the
    empty string and shorter strings included) and an error for every
    other string: "Invalid hash parameter" when the string is longer than
    40 bytes, "Invalid hash character" otherwise. *)
Theorem checkStringLooksLikeHash_spec (s : string) :
  checkStringLooksLikeHash s
  = if looksLikeHash s then Ok tt
    else if (40 <? String.length s)%nat then Err "Invalid hash parameter"
         else Err "Invalid hash character".
Proof.
  unfold checkStringLooksLikeHash, looksLikeHash, len, maxHashLength.
  destruct (Nat.leb_spec (String.length s) 40) as [Hle|Hgt].
  - destruct (Z.gtb_spec (Z.of_nat (String.length s)) 40); [lia|].
    replace (40 <? String.length s)%nat with false
      by (symmetry; apply Nat.ltb_ge; lia).
    rewrite checkHashCharacters_allHexDigits. cbn [andb].
    destruct (allHexDigits s); reflexivity.
  - destruct (Z.gtb_spec (Z.of_nat (String.length s)) 40); [|lia].
    replace (40 <? String.length s)%nat with true
      by (symmetry; apply Nat.ltb_lt; lia).
    reflexivity.
Qed.

Example checkStringLooksLikeHash_empty :
  checkStringLooksLikeHash "" = Ok tt.
Proof. reflexivity. Qed.

Example checkStringLooksLikeHash_short :
  checkStringLooksLikeHash "0a1f" = Ok tt.
Proof. reflexivity. Qed.

Example checkStringLooksLikeHash_uppercase :
  checkStringLooksLikeHash "0A1F" = Err "Invalid hash character".
Proof. reflexivity. Qed.

Example checkStringLooksLikeHash_too_long :
  checkStringLooksLikeHash "0123456789abcdef0123456789abcdef012345678"
  = Err "Invalid hash parameter".
Proof. reflexivity. Qed.

(** *** [strconv.ParseUint] against the decimal reading of the string *)

Lemma digit_test (c : ascii) :
  ((rune "0" <=? rune c)%Z && (rune c <=? rune "9")%Z)
  = ((48 <=? nat_of_ascii c) && (nat_of_ascii c <=? 57))%nat.
Proof.
  destruct c as [[] [] [] [] [] [] [] []]; vm_compute; reflexivity.
Qed.

Lemma digitsValue_ge (s : string) :
  forall acc v, (0 <= acc)%Z -> digitsValue s acc = Some v -> (acc <= v)%Z.
Proof.
  induction s as [|c rest IH]; intros acc v Hacc Hv; cbn [digitsValue] in Hv.
  - injection Hv as <-. lia.
  - destruct ((48 <=? nat_of_ascii c) && (nat_of_ascii c <=? 57))%nat eqn:Hd;
      [|discriminate].
    apply andb_true_iff in Hd as [H1 H2].
    apply Nat.leb_le in H1, H2.
    apply IH in Hv; lia.
Qed.

Lemma parseDigits_digitsValue (s : string) :
  forall n v, (0 <= n < 2 ^ 32)%Z ->
    strconv.parseDigits (runes s) (2 ^ 32 - 1) n = Ok v
    <-> digitsValue s n = Some v /\ (v < 2 ^ 32)%Z.
Proof.
  induction s as [|c rest IH]; intros n v Hn.
  - cbn [runes strconv.parseDigits digitsValue].
    split; [intros [= <-]; split; [reflexivity | lia] | intros [[= <-] _]; reflexivity].
  - cbn [runes strconv.parseDigits digitsValue]. fold (rune c).
    rewrite digit_test.
    destruct ((48 <=? nat_of_ascii c) && (nat_of_ascii c <=? 57))%nat eqn:Hd;
      [|split; [discriminate | intros [? _]; discriminate]].
    apply andb_true_iff in Hd as [H1 H2].
    apply Nat.leb_le in H1, H2.
    change (rune "0") with 48%Z. unfold rune.
    set (d := (Z.of_nat (nat_of_ascii c) - 48)%Z).
    assert (Hd : (0 <= d <= 9)%Z) by (unfold d; lia).
    change (2 ^ 32)%Z with 4294967296%Z in *.
    change (2 ^ 64)%Z with 18446744073709551616%Z.
    change strconv.cutoff10 with 1844674407370955162%Z.
    destruct (Z.leb_spec 1844674407370955162 n); [lia|].
    rewrite (Z.mod_small (n * 10)) by lia.
    rewrite (Z.mod_small (n * 10 + d)) by lia.
    destruct (Z.ltb_spec (n * 10 + d) (n * 10)); [lia|].
    cbn [orb].
    destruct (Z.ltb_spec (4294967296 - 1) (n * 10 + d)) as [Hbig|Hsmall].
    + split; [discriminate|].
      intros [Hv Hlt]. apply digitsValue_ge in Hv; lia.
    + apply IH. lia.
Qed.

(** [ParseUint(s, 10, 32)] succeeds exactly on the decimal unsigned 32-bit
    integers, with their value. *)
Lemma ParseUint_decimalUint32 (s : string) (v : Z) :
  strconv.ParseUint s 32 = Ok v <-> decimalUint32 s = Some v.
Proof.
  unfold strconv.ParseUint, decimalUint32.
  destruct s as [|c rest]; [cbn; split; discriminate|].
  change (String.eqb (String c rest) "") with false. cbv iota.
  rewrite parseDigits_digitsValue by lia.
  destruct (digitsValue (String c rest) 0) as [w|];
    [|split; [intros [? _]|]; discriminate].
  destruct (Z.ltb_spec w (2 ^ 32)); split.
  - intros [[= <-] _]; reflexivity.
  - intros [= <-]; split; [reflexivity | assumption].
  - intros [[= <-] ?]; lia.
  - discriminate.
Qed.

Lemma ParseUint_range (s : string) (v : Z) :
  strconv.ParseUint s 32 = Ok v -> (0 <= v < 2 ^ 32)%Z.
Proof.
  intros Hv. apply ParseUint_decimalUint32 in Hv.
  unfold decimalUint32 in Hv. destruct s; [discriminate|].
  destruct (digitsValue _ 0) as [w|] eqn:Hw; [|discriminate].
  destruct (Z.ltb_spec w (2 ^ 32)); [|discriminate].
  injection Hv as <-. apply digitsValue_ge in Hw; lia.
Qed.

(** *** The branch parameter guards the index *)

Section Guard.
Context `{Env}.

Lemma int_of_uint32 (v : Z) :
  intSize = 64%Z -> (0 <= v < 2 ^ 32)%Z -> int v = v.
Proof.
  intros Hsize Hv. unfold int. rewrite Hsize.
  change (2 ^ (64 - 1))%Z with 9223372036854775808%Z.
  change (2 ^ 64)%Z with 18446744073709551616%Z.
  change (2 ^ 32)%Z with 4294967296%Z in Hv.
  rewrite Z.mod_small; lia.
Qed.

Lemma indexBranches_in_range (repoDetails : RepoDetails) (branch : Z) :
  (0 <= branch < Z.of_nat (List.length (Branches repoDetails)))%Z ->
  exists b, indexBranches repoDetails branch = Return b.
Proof.
  intros Hb. unfold indexBranches.
  destruct (Z.ltb_spec branch (Z.of_nat (List.length (Branches repoDetails))));
    [|lia].
  destruct (Branches repoDetails !! Z.to_nat branch) as [b|] eqn:Hl;
    [eauto|].
  apply lookup_ge_None in Hl. lia.
Qed.

(** The guard of both handlers: what it lets through is a valid index. *)
Lemma guard_passes (branches : list BranchDetails) (branchParam : string)
      (branchNum : Z) :
  intSize = 64%Z ->
  strconv.ParseUint branchParam 32 = Ok branchNum ->
  (Z.of_nat (List.length branches) <=? int branchNum)%Z = false ->
  (0 <= branchNum < Z.of_nat (List.length branches))%Z
  /\ badBranch branches branchParam = false.
Proof.
  intros Hsize Hparse Hguard.
  pose proof (ParseUint_range _ _ Hparse) as Hrange.
  rewrite (int_of_uint32 _ Hsize Hrange) in Hguard.
  apply Z.leb_gt in Hguard. split; [lia|].
  unfold badBranch. apply ParseUint_decimalUint32 in Hparse.
  rewrite Hparse. apply Z.leb_gt. lia.
Qed.

Lemma guard_rejects (branches : list BranchDetails) (branchParam : string) :
  intSize = 64%Z ->
  badBranch branches branchParam = true ->
  match strconv.ParseUint branchParam 32 with
  | Err _ => True
  | Ok branchNum =>
      (Z.of_nat (List.length branches) <=? int branchNum)%Z = true
  end.
Proof.
  intros Hsize Hbad.
  destruct (strconv.ParseUint branchParam 32) as [n|e] eqn:Hparse; [|exact I].
  pose proof (ParseUint_range _ _ Hparse) as Hrange.
  rewrite (int_of_uint32 _ Hsize Hrange).
  apply ParseUint_decimalUint32 in Hparse.
  unfold badBranch in Hbad. rewrite Hparse in Hbad. exact Hbad.
Qed.

Lemma ServeBranchTemplate_no_panic (repoDetails : RepoDetails) (r : Request) :
  intSize = 64%Z -> panics (ServeBranchTemplate repoDetails r) = false.
Proof.
  intros Hsize. unfold ServeBranchTemplate.
  destruct (Update (Branches repoDetails)) as [[[]|e] branches]; [|reflexivity].
  destruct (String.eqb _ _); [reflexivity|].
  destruct (strconv.ParseUint _ 32) as [n|e] eqn:Hparse; [|reflexivity].
  destruct (Z.leb _ _) eqn:Hguard; [reflexivity|].
  destruct (guard_passes _ _ _ Hsize Hparse Hguard) as [Hin _].
  unfold WriteBranchTemplate.
  destruct (indexBranches_in_range (mkRepoDetails branches) n Hin) as [b ->].
  destruct (branchTemplate _ _ _); reflexivity.
Qed.

Lemma ServeReviewTemplate_no_panic (repoDetails : RepoDetails) (r : Request) :
  intSize = 64%Z -> panics (ServeReviewTemplate repoDetails r) = false.
Proof.
  intros Hsize. unfold ServeReviewTemplate.
  destruct (Update (Branches repoDetails)) as [[[]|e] branches]; [|reflexivity].
  destruct (String.eqb _ _); [reflexivity|].
  destruct (strconv.ParseUint _ 32) as [n|e] eqn:Hparse; [|reflexivity].
  destruct (Z.leb _ _) eqn:Hguard; [reflexivity|].
  destruct (guard_passes _ _ _ Hsize Hparse Hguard) as [Hin _].
  destruct (String.eqb _ _); [reflexivity|].
  destruct (checkStringLooksLikeHash _); [|reflexivity].
  unfold WriteReviewTemplate.
  destruct (review_Get _); [|reflexivity].
  destruct (GetCommitDetails _); [|reflexivity].
  destruct (GetCommitMessage _); [|reflexivity].
  destruct (ParsedDiff1 _); [|reflexivity].
  destruct (indexBranches_in_range (mkRepoDetails branches) n Hin) as [b ->].
  destruct (reviewTemplate _ _ _ _ _ _ _ _); reflexivity.
Qed.

(** C10, as amended.  Where [int] is 64 bits wide: neither handler ever
    indexes [Branches] out of range; when [Update] fails both answer 500
    before they look at the request; when [Update] succeeds and the branch
    parameter is absent, is not a decimal unsigned 32-bit integer, or is
    not below the number of branches, both answer 400 and return before
    any indexing. *)
Theorem branch_parameter_guards_index :
  intSize = 64%Z ->
  (forall repoDetails r,
      panics (ServeBranchTemplate repoDetails r) = false
      /\ panics (ServeReviewTemplate repoDetails r) = false)
  /\ (forall repoDetails r err branches,
         Update (Branches repoDetails) = (Err err, branches) ->
         ServeBranchTemplate repoDetails r
         = Return (ServeErrorTemplate err StatusInternalServerError)
         /\ ServeReviewTemplate repoDetails r
            = Return (ServeErrorTemplate err StatusInternalServerError))
  /\ (forall repoDetails r branches,
         Update (Branches repoDetails) = (Ok tt, branches) ->
         badBranch branches (Get (Query r) "branch") = true ->
         exists msg,
           ServeBranchTemplate repoDetails r
           = Return (ServeErrorTemplate msg StatusBadRequest)
           /\ ServeReviewTemplate repoDetails r
              = Return (ServeErrorTemplate msg StatusBadRequest)).
Proof.
  intros Hsize. split; [|split].
  - intros repoDetails r. split.
    + apply ServeBranchTemplate_no_panic, Hsize.
    + apply ServeReviewTemplate_no_panic, Hsize.
  - intros repoDetails r err branches Hupdate.
    unfold ServeBranchTemplate, ServeReviewTemplate. rewrite Hupdate.
    split; reflexivity.
  - intros repoDetails r branches Hupdate Hbad.
    unfold ServeBranchTemplate, ServeReviewTemplate. rewrite Hupdate.
    cbn [Branches].
    destruct (String.eqb (Get (Query r) "branch") "") eqn:Hempty.
    + exists "No branch specified". split; reflexivity.
    + pose proof (guard_rejects _ _ Hsize Hbad) as Hguard.
      exists "Bad branch specified".
      destruct (strconv.ParseUint _ 32) as [n|e]; [|split; reflexivity].
      rewrite Hguard. split; reflexivity.
Qed.

End Guard.

End WebFacts.

(** The theorem at work on a 64-bit platform: one branch, and a request
    for branch 7. *)
Lemma branch_parameter_guards_index_witness :
  exists msg,
    @web.ServeBranchTemplate (sampleWebEnv 64 false)
      (@web.mkRepoDetails (sampleWebEnv 64 false) ["main"])
      (web.mkRequest [("branch", "7")])
    = Return (web.ServeErrorTemplate msg web.StatusBadRequest)
    /\ @web.ServeReviewTemplate (sampleWebEnv 64 false)
         (@web.mkRepoDetails (sampleWebEnv 64 false) ["main"])
         (web.mkRequest [("branch", "7")])
       = Return (web.ServeErrorTemplate msg web.StatusBadRequest).
Proof.
  destruct (@branch_parameter_guards_index (sampleWebEnv 64 false) eq_refl)
    as (_ & _ & Hbad).
  apply (Hbad (@web.mkRepoDetails (sampleWebEnv 64 false) ["main"])
              (web.mkRequest [("branch", "7")]) ["main"]).
  - reflexivity.
  - vm_compute. reflexivity.
Defined.

(** The claim as first stated fails twice.  When [Update] fails, a request
    without a branch parameter is answered with 500, not 400.  And where
    [int] is 32 bits wide, the branch 4294967295 converts to -1, passes the
    guard and indexes one branch out of range. *)
Lemma branch_parameter_unguarded :
  (web.badBranch ["main"] (web.Get (web.Query (web.mkRequest [])) "branch")
   = true
   /\ @web.ServeBranchTemplate (sampleWebEnv 64 true)
        (@web.mkRepoDetails (sampleWebEnv 64 true) ["main"])
        (web.mkRequest [])
      = Return (web.mkResponse 500 "text/plain; charset=utf-8"
                  ("repository unavailable" ++ String "010" EmptyString)))
  /\ (web.badBranch ["main"] "4294967295" = true
      /\ web.panics
           (@web.ServeBranchTemplate (sampleWebEnv 32 false)
              (@web.mkRepoDetails (sampleWebEnv 32 false) ["main"])
              (web.mkRequest [("branch", "4294967295")])) = true
      /\ web.panics
           (@web.ServeReviewTemplate (sampleWebEnv 32 false)
              (@web.mkRepoDetails (sampleWebEnv 32 false) ["main"])
              (web.mkRequest [("branch", "4294967295");
                              ("review", "0a1f")])) = true).
Proof. vm_compute. repeat split; reflexivity. Qed.

(** ** Ancestry: the bounded search finds every ancestor *)

Section AncestryFacts.
Import repository.

(** The search with fuel [n] follows the paths of at most [n] parent
    links. *)
Lemma reaches_bsteps (cs : gmap string Commit) (n : nat) (a b : string) :
  reaches cs n a b = true <-> bsteps (parentOf cs) n b a.
Proof.
  revert b. induction n as [|n IH]; intros b; cbn [reaches].
  - rewrite orb_false_r. split.
    + intros ->%String.eqb_eq. constructor.
    + inversion 1; subst. apply String.eqb_refl.
  - split.
    + intros [->%String.eqb_eq|Hstep]%orb_true_iff; [constructor|].
      destruct (cs !! b) as [c|] eqn:Hb; [|discriminate].
      apply existsb_exists in Hstep as (p & Hp & Hreach).
      apply (bsteps_l _ _ _ p); [exists c; auto | apply IH, Hreach].
    + inversion 1 as [|? ? p ? (c & Hb & Hp) Hrest]; subst.
      * rewrite String.eqb_refl. reflexivity.
      * apply orb_true_iff. right. rewrite Hb.
        apply existsb_exists. exists p. split; [assumption | apply IH, Hrest].
Qed.

Lemma bsteps_subrel {A} (R R' : relation A) n x y :
  (forall u v, R u v -> R' u v) -> bsteps R n x y -> bsteps R' n x y.
Proof. intros Hsub. induction 1; econstructor; eauto. Qed.

(** A path that leaves [x] can be cut at its last visit to [x]. *)
Lemma rtc_last_visit (R : relation string) (x u y : string) :
  rtc R u y ->
  rtc (fun v w => R v w /\ v <> x) u y
  \/ exists z, R x z /\ rtc (fun v w => R v w /\ v <> x) z y.
Proof.
  induction 1 as [u|u v y Huv _ IH]; [left; constructor|].
  destruct IH as [IH|IH]; [|right; exact IH].
  destruct (decide (u = x)) as [->|Hne].
  - right. exists v. auto.
  - left. apply (rtc_l _ _ v); auto.
Qed.

(** Where every link starts in the finite set [D], whatever is reachable
    is reachable in at most [size D] links. *)
Lemma rtc_bounded (n : nat) :
  forall (D : gset string) (R : relation string),
    size D <= n ->
    (forall x y, R x y -> x ∈ D) ->
    forall x y, rtc R x y -> bsteps R n x y.
Proof.
  induction n as [|n IH]; intros D R Hsize Hdom x y Hxy.
  - destruct Hxy as [|x z y Hxz _]; [constructor|].
    apply Hdom in Hxz. assert (size D = 0) as HD by lia.
    apply size_empty_iff in HD. set_solver.
  - destruct (decide (x = y)) as [->|Hne]; [constructor|].
    destruct (rtc_last_visit R x x y Hxy) as [Hstay|(z & Hxz & Hrest)].
    + inversion Hstay as [|? v ? [_ Hfalse] _]; subst; congruence.
    + apply (bsteps_l _ _ _ z); [assumption|].
      apply (bsteps_subrel (fun v w => R v w /\ v <> x)); [tauto|].
      apply (IH (D ∖ {[x]})); [| |assumption].
      * pose proof (Hdom _ _ Hxz) as Hx.
        rewrite size_difference by set_solver.
        rewrite size_singleton. lia.
      * intros v w [Hvw Hv]. apply Hdom in Hvw. set_solver.
Qed.

(** [isAncestorOf] decides ancestry among the commits of the store: the
    fuel it gives the search, the number of stored commits, is enough. *)
Lemma isAncestorOf_spec (cs : gmap string Commit) (a b : string) :
  isAncestorOf cs a b = true
  <-> is_Some (cs !! a) /\ is_Some (cs !! b) /\ Ancestor cs a b.
Proof.
  unfold isAncestorOf, Ancestor.
  rewrite !andb_true_iff, !bool_decide_eq_true, reaches_bsteps.
  split.
  - intros [[Ha Hb] Hsteps]. repeat split; [assumption..|].
    eapply rtc_bsteps_2, Hsteps.
  - intros (Ha & Hb & Hanc). repeat split; [assumption..|].
    apply (rtc_bounded (size cs) (dom cs)); [| |assumption].
    + rewrite size_dom. reflexivity.
    + intros x y (c & Hx & _). apply elem_of_dom. eauto.
Qed.

End AncestryFacts.

(** ** The git port *)

Section PortFacts.
Import repository.
Context `{GitBackend}.

(** *** White space around ids *)

Lemma TrimRight_clean (s : string) :
  cleanId s = true -> strings.TrimRight s = s.
Proof.
  induction s as [|c rest IH]; [reflexivity|].
  cbn [cleanId strings.TrimRight]. intros [Hc Hrest]%andb_true_iff.
  rewrite (IH Hrest). destruct rest; [|reflexivity].
  apply negb_true_iff in Hc. rewrite Hc. reflexivity.
Qed.

Lemma TrimLeft_clean (s : string) :
  cleanId s = true -> strings.TrimLeft s = s.
Proof.
  destruct s as [|c rest]; [reflexivity|].
  cbn [cleanId strings.TrimLeft]. intros [Hc _]%andb_true_iff.
  apply negb_true_iff in Hc. rewrite Hc. reflexivity.
Qed.

Lemma TrimSpace_clean (s : string) :
  cleanId s = true -> strings.TrimSpace s = s.
Proof.
  intros Hs. unfold strings.TrimSpace.
  rewrite (TrimLeft_clean _ Hs). apply TrimRight_clean, Hs.
Qed.

Lemma TrimRight_line (s : string) :
  cleanId s = true -> strings.TrimRight (s ++ newline) = s.
Proof.
  induction s as [|c rest IH]; [reflexivity|].
  cbn [cleanId]. intros [Hc Hrest]%andb_true_iff.
  change (String c rest ++ newline) with (String c (rest ++ newline)).
  cbn [strings.TrimRight]. rewrite (IH Hrest).
  destruct rest; [|reflexivity].
  apply negb_true_iff in Hc. rewrite Hc. reflexivity.
Qed.

(** The line git prints for an id, trimmed, is the id. *)
Lemma TrimSpace_line (s : string) :
  cleanId s = true -> strings.TrimSpace (s ++ newline) = s.
Proof.
  intros Hs. unfold strings.TrimSpace.
  destruct s as [|c rest]; [reflexivity|].
  change (String c rest ++ newline) with (String c (rest ++ newline)).
  pose proof Hs as Hs'. cbn [cleanId] in Hs'.
  apply andb_true_iff in Hs' as [Hc _]. apply negb_true_iff in Hc.
  cbn [strings.TrimLeft]. rewrite Hc.
  apply (TrimRight_line (String c rest) Hs).
Qed.

Lemma hexString_clean (bytes : string) : cleanId (hexString bytes) = true.
Proof.
  induction bytes as [|b rest IH]; [reflexivity|].
  cbn [hexString cleanId]. rewrite IH.
  destruct b as [[] [] [] [] [] [] [] []]; vm_compute; reflexivity.
Qed.

(** The id of a new commit comes back from git without white space. *)
Lemma objectId_clean (c : Commit) : cleanId (objectId c) = true.
Proof. apply hexString_clean. Qed.

Lemma wellFormed_lookup (s : Store) (ref h : string) :
  wellFormed s = true -> refs s !! ref = Some h ->
  h <> "" /\ cleanId h = true /\ exists c, commits s !! h = Some c.
Proof.
  unfold wellFormed. intros Hall Hh.
  rewrite forallb_forall in Hall.
  assert (Hv : validId (commits s) h = true).
  { apply (Hall (ref, h)).
    apply list_elem_of_In, elem_of_map_to_list, Hh. }
  unfold validId in Hv.
  apply andb_true_iff in Hv as [[Hne Hclean]%andb_true_iff Hc].
  apply bool_decide_eq_true in Hc as [c Hc].
  split; [|split; [assumption | eauto]].
  intros ->. discriminate.
Qed.

(** In a well-formed store a ref resolves exactly when it exists. *)
Lemma commitAt_wellFormed (s : Store) (ref : string) :
  wellFormed s = true ->
  match refs s !! ref with
  | Some h => exists c, commitAt s ref = Some (h, c) /\ commits s !! h = Some c
                        /\ h <> "" /\ cleanId h = true
  | None => commitAt s ref = None
  end.
Proof.
  intros Hwf. unfold commitAt.
  destruct (refs s !! ref) as [h|] eqn:Href; [|reflexivity].
  destruct (wellFormed_lookup s ref h Hwf Href) as (Hne & Hclean & c & Hc).
  exists c. rewrite Hc. auto.
Qed.

(** *** One step of the state and error passing *)

Lemma bind_Ok {A B} (m : M A) (k : A -> M B) repo a repo' :
  m repo = (Ok a, repo') -> bind m k repo = k a repo'.
Proof. intros Hm. unfold bind. rewrite Hm. reflexivity. Qed.

Lemma bind_Err {A B} (m : M A) (k : A -> M B) repo e repo' :
  m repo = (Err e, repo') -> bind m k repo = (Err e, repo').
Proof. intros Hm. unfold bind. rewrite Hm. reflexivity. Qed.

Lemma runGitCommand_success args repo out s' :
  git args (store repo) = (success out, s') ->
  runGitCommand args repo = (Ok (strings.TrimSpace out), after repo s' args).
Proof.
  intros Hgit. unfold runGitCommand, bind, runGitCommandRaw.
  rewrite Hgit. reflexivity.
Qed.

Lemma runGitCommand_failure args repo code msg s' :
  git args (store repo) = (failure code msg, s') ->
  exists e, runGitCommand args repo = (Err e, after repo s' args).
Proof.
  intros Hgit. unfold runGitCommand, bind, runGitCommandRaw.
  rewrite Hgit. cbn. eauto.
Qed.

(** *** What [git] does with each command line *)

Lemma git_show_hash s ref :
  git ["show"; "-s"; "--format=%H"; ref; "--"] s
  = match commitAt s ref with
    | Some (h, c) => (success (h ++ newline), s)
    | None => (failure 128 ("fatal: bad revision '" ++ ref ++ "'"), s)
    end.
Proof. cbv [git git_show]. cbn [String.eqb Ascii.eqb Bool.eqb andb].
  destruct (commitAt s ref) as [[h c]|]; reflexivity. Qed.

Lemma git_show_ref_verify s ref :
  git ["show-ref"; "--verify"; "--quiet"; ref] s
  = match refs s !! ref with
    | Some _ => (success "", s)
    | None => (failure 1 "", s)
    end.
Proof. reflexivity. Qed.

Lemma git_merge_base_is_ancestor s a b :
  git ["merge-base"; "--is-ancestor"; a; b] s
  = match commits s !! a, commits s !! b with
    | Some _, Some _ =>
        if isAncestorOf (commits s) a b then (success "", s)
        else (failure 1 "", s)
    | _, _ => (failure 128 "fatal: Not a valid commit name", s)
    end.
Proof. reflexivity. Qed.

Lemma git_update_ref_plain s ref new :
  git ["update-ref"; ref; new] s
  = match commits s !! new with
    | Some _ =>
        (success "", mkStore (<[ref := new]> (refs s)) (commits s) (trees s))
    | None =>
        (failure 128 "fatal: trying to write ref with nonexistent object", s)
    end.
Proof. reflexivity. Qed.

Lemma git_update_ref_cas s ref new old :
  git ["update-ref"; ref; new; old] s
  = if bool_decide (refs s !! ref = Some old) then
      match commits s !! new with
      | Some _ =>
          (success "",
           mkStore (<[ref := new]> (refs s)) (commits s) (trees s))
      | None =>
          (failure 128 "fatal: trying to write ref with nonexistent object",
           s)
      end
    else (failure 128 ("fatal: cannot lock ref '" ++ ref ++ "'"), s).
Proof. reflexivity. Qed.

Lemma GetCommitHash_Some repo ref h c :
  commitAt (store repo) ref = Some (h, c) -> cleanId h = true ->
  GetCommitHash ref repo
  = (Ok h, after repo (store repo) ["show"; "-s"; "--format=%H"; ref; "--"]).
Proof.
  intros Hat Hclean. unfold GetCommitHash.
  erewrite runGitCommand_success.
  2:{ rewrite git_show_hash, Hat. reflexivity. }
  rewrite (TrimSpace_line _ Hclean). reflexivity.
Qed.

Lemma GetCommitHash_None repo ref :
  commitAt (store repo) ref = None ->
  exists e,
    GetCommitHash ref repo
    = (Err e,
       after repo (store repo) ["show"; "-s"; "--format=%H"; ref; "--"]).
Proof.
  intros Hat. unfold GetCommitHash.
  eapply runGitCommand_failure. rewrite git_show_hash, Hat. reflexivity.
Qed.

Lemma HasRef_run repo ref :
  HasRef ref repo
  = (Ok (bool_decide (is_Some (refs (store repo) !! ref))),
     after repo (store repo) ["show-ref"; "--verify"; "--quiet"; ref]).
Proof.
  unfold HasRef, bind, runGitCommandRaw. rewrite git_show_ref_verify.
  destruct (refs (store repo) !! ref) eqn:Href.
  - rewrite bool_decide_eq_true_2 by eauto. reflexivity.
  - rewrite bool_decide_eq_false_2 by (intros [? ?]; discriminate).
    reflexivity.
Qed.

Lemma IsAncestor_run repo a b :
  IsAncestor a b repo
  = (Ok (isAncestorOf (commits (store repo)) a b),
     after repo (store repo) ["merge-base"; "--is-ancestor"; a; b]).
Proof.
  unfold IsAncestor, bind, runGitCommandRaw.
  rewrite git_merge_base_is_ancestor.
  unfold isAncestorOf at 2.
  destruct (commits (store repo) !! a) eqn:Ha.
  2:{ rewrite bool_decide_eq_false_2 by (intros [? ?]; discriminate).
      reflexivity. }
  destruct (commits (store repo) !! b) eqn:Hb.
  2:{ rewrite (bool_decide_eq_false_2 (is_Some None))
        by (intros [? ?]; discriminate).
      rewrite andb_false_r. reflexivity. }
  rewrite !bool_decide_eq_true_2 by eauto.
  unfold isAncestorOf. rewrite Ha, Hb.
  rewrite !bool_decide_eq_true_2 by eauto. cbn [andb].
  destruct (reaches _ _ a b); reflexivity.
Qed.

Lemma git_show_format s fmt ref :
  git ["show"; "-s"; fmt; ref; "--"] s
  = match commitAt s ref with
    | Some (h, c) => (success (formatCommit fmt h c ++ newline), s)
    | None => (failure 128 ("fatal: bad revision '" ++ ref ++ "'"), s)
    end.
Proof. reflexivity. Qed.

Lemma show_run repo fmt ref h c :
  commitAt (store repo) ref = Some (h, c) ->
  runGitCommand ["show"; "-s"; fmt; ref; "--"] repo
  = (Ok (strings.TrimSpace (formatCommit fmt h c ++ newline)),
     after repo (store repo) ["show"; "-s"; fmt; ref; "--"]).
Proof.
  intros Hat. apply runGitCommand_success.
  rewrite git_show_format, Hat. reflexivity.
Qed.

(** [GetCommitDetails] on a ref that resolves: seven [show] commands, and
    the tree of the commit in the [Tree] field. *)
Lemma GetCommitDetails_Some repo ref h c :
  commitAt (store repo) ref = Some (h, c) ->
  exists details,
    GetCommitDetails ref repo
    = (Ok details, mkGitRepo (store repo) (trace repo ++ showDetails ref))
    /\ Tree details = cTree c.
Proof.
  intros Hat. unfold GetCommitDetails.
  eexists. split.
  - erewrite bind_Ok by (apply (show_run _ _ _ h c Hat)).
    unfold unmarshalTreeAndTime at 1.
    unfold bind at 1. cbn [store after]. rewrite Hat.
    repeat (erewrite bind_Ok by (apply (show_run _ _ _ h c); exact Hat);
            cbn [store after]).
    unfold ret, after, showDetails. cbn [trace store List.map].
    rewrite <- !app_assoc. reflexivity.
  - reflexivity.
Qed.

Lemma commit_tree_run repo args parents message tree :
  parseCommitTree args [] = Some (parents, message, tree) ->
  Forall (fun p => is_Some (commits (store repo) !! p)) parents ->
  let c := newCommit parents message tree in
  runGitCommand ("commit-tree" :: args) repo
  = (Ok (objectId c),
     after repo (withCommit (store repo) c) ("commit-tree" :: args)).
Proof.
  intros Hparse Hparents c.
  erewrite runGitCommand_success.
  2:{ change (git ("commit-tree" :: args) (store repo))
        with (git_commit_tree args (store repo)).
      unfold git_commit_tree. rewrite Hparse.
      replace (forallb _ parents) with true; [reflexivity|].
      symmetry. apply forallb_forall. intros p Hp.
      apply bool_decide_eq_true. rewrite Forall_forall in Hparents.
      apply Hparents, list_elem_of_In, Hp. }
  rewrite TrimSpace_line by apply objectId_clean. reflexivity.
Qed.

Lemma update_ref_run repo ref new c :
  commits (store repo) !! new = Some c ->
  runGitCommand ["update-ref"; ref; new] repo
  = (Ok "", after repo (withRef (store repo) ref new)
                       ["update-ref"; ref; new]).
Proof.
  intros Hnew. erewrite runGitCommand_success.
  2:{ rewrite git_update_ref_plain, Hnew. reflexivity. }
  reflexivity.
Qed.

Lemma update_ref_cas_run repo ref new old c :
  refs (store repo) !! ref = Some old ->
  commits (store repo) !! new = Some c ->
  runGitCommand ["update-ref"; ref; new; old] repo
  = (Ok "", after repo (withRef (store repo) ref new)
                       ["update-ref"; ref; new; old]).
Proof.
  intros Hold Hnew. erewrite runGitCommand_success.
  2:{ rewrite git_update_ref_cas, Hnew.
      rewrite bool_decide_eq_true_2 by assumption. reflexivity. }
  reflexivity.
Qed.

Lemma update_ref_cas_conflict repo ref new old :
  refs (store repo) !! ref <> Some old ->
  exists e,
    runGitCommand ["update-ref"; ref; new; old] repo
    = (Err e, after repo (store repo) ["update-ref"; ref; new; old]).
Proof.
  intros Hold. eapply runGitCommand_failure.
  rewrite git_update_ref_cas.
  rewrite bool_decide_eq_false_2 by assumption. reflexivity.
Qed.

Lemma commitAt_refs s ref h c :
  commitAt s ref = Some (h, c) ->
  refs s !! ref = Some h /\ commits s !! h = Some c.
Proof.
  unfold commitAt. destruct (refs s !! ref) as [h'|]; [|discriminate].
  destruct (commits s !! h') as [c'|] eqn:Hc; [|discriminate].
  intros [= <- <-]. auto.
Qed.

Lemma attempt_run {A} (m : M A) repo r repo' :
  m repo = (r, repo') -> attempt m repo = (Ok r, repo').
Proof. intros Hm. unfold attempt. rewrite Hm. reflexivity. Qed.

(** *** [ArchiveRef], run on a well-formed repository *)

Lemma ArchiveRef_run repo ref archive refHash c :
  wellFormed (store repo) = true ->
  commitAt (store repo) ref = Some (refHash, c) ->
  let s := store repo in
  let reads :=
    (trace repo ++ [showHash ref] ++ showDetails ref ++ [showHash archive])%list
  in
  let message := "Archive " ++ refHash in
  let isAncestor := ["merge-base"; "--is-ancestor"] in
  ArchiveRef ref archive repo
  = match refs s !! archive with
    | None =>
        let new := archiveCommit [refHash] refHash (cTree c) in
        (Ok tt,
         mkGitRepo (withRef (withCommit s new) archive (objectId new))
           (reads ++ [commitTree [refHash] message (cTree c);
                      ["update-ref"; archive; objectId new]]))
    | Some archiveHash =>
        if isAncestorOf (commits s) refHash archiveHash then
          (Ok tt,
           mkGitRepo s (reads ++ [isAncestor ++ [refHash; archiveHash]]))%list
        else
          let new := archiveCommit [archiveHash; refHash] refHash (cTree c) in
          (Ok tt,
           mkGitRepo (withRef (withCommit s new) archive (objectId new))
             (reads ++ [(isAncestor ++ [refHash; archiveHash])%list;
                        commitTree [archiveHash; refHash] message (cTree c);
                        ["update-ref"; archive; objectId new; archiveHash]]))
    end.
Proof.
  intros Hwf Hat s reads message isAncestor.
  destruct (commitAt_refs _ _ _ _ Hat) as [Href Hc].
  destruct (wellFormed_lookup _ _ _ Hwf Href) as (_ & Hclean & _).
  unfold ArchiveRef.
  erewrite bind_Ok by (apply (GetCommitHash_Some _ _ _ _ Hat Hclean)).
  destruct (GetCommitDetails_Some (after repo s (showHash ref)) ref refHash c Hat)
    as (details & Hdetails & Htree).
  erewrite bind_Ok by exact Hdetails.
  rewrite Htree. cbn [store trace after].
  pose proof (commitAt_wellFormed s archive Hwf) as Harchive.
  fold s. destruct (refs s !! archive) as [archiveHash|] eqn:Hlocal.
  - destruct Harchive as (ac & Hatc & Hac & Hne & Hcleana).
    erewrite bind_Ok.
    2:{ apply attempt_run. eapply GetCommitHash_Some;
          [cbn [store]; exact Hatc | exact Hcleana]. }
    cbv beta iota zeta.
    erewrite bind_Ok by apply IsAncestor_run.
    cbn [store trace after]. fold s.
    destruct (isAncestorOf (commits s) refHash archiveHash).
    + unfold reads, isAncestor. same_repository.
    + cbn [app].
      erewrite bind_Ok.
      2:{ apply commit_tree_run; [reflexivity|].
          cbn [store]. repeat constructor; eauto. }
      rewrite (TrimSpace_clean _ (objectId_clean _)).
      replace (negb (String.eqb archiveHash "")) with true.
      2:{ symmetry. apply negb_true_iff, String.eqb_neq, Hne. }
      cbn [app].
      erewrite bind_Ok.
      2:{ eapply update_ref_cas_run; cbn [store after withCommit refs commits].
          - exact Hlocal.
          - apply lookup_insert_eq. }
      unfold reads, isAncestor, commitTree, archiveCommit, message.
      same_repository.
  - destruct (GetCommitHash_None
                (mkGitRepo s ((trace repo ++ [showHash ref]) ++ showDetails ref))
                archive Harchive) as [e He].
    erewrite bind_Ok by (apply attempt_run; exact He).
    cbv beta iota zeta. cbn [app].
    erewrite bind_Ok.
    2:{ apply commit_tree_run; [reflexivity|].
        cbn [store after]. repeat constructor; eauto. }
    rewrite (TrimSpace_clean _ (objectId_clean _)).
    cbn [String.eqb negb app].
    erewrite bind_Ok.
    2:{ eapply update_ref_run; cbn [store after withCommit refs commits].
        apply lookup_insert_eq. }
    unfold reads, commitTree, archiveCommit, message.
    same_repository.
Qed.

Lemma issued_eq {A} (m : M A) repo r s' commands :
  m repo = (r, mkGitRepo s' (trace repo ++ commands)) ->
  issued m repo = commands /\ outcome m repo = (r, s').
Proof.
  intros Hm. unfold issued, outcome. rewrite Hm. cbn [fst snd store trace].
  split; [apply drop_app_length | reflexivity].
Qed.

(** A commit reaches each of its parents, and itself. *)
Lemma isAncestorOf_parent cs a b c pa :
  cs !! a = Some pa -> cs !! b = Some c -> In a (cParents c) ->
  isAncestorOf cs a b = true.
Proof.
  intros Ha Hb Hin. unfold isAncestorOf.
  rewrite !bool_decide_eq_true_2 by eauto. cbn [andb].
  destruct (size cs) as [|n] eqn:Hsize.
  - apply map_size_empty_iff in Hsize. subst cs.
    rewrite lookup_empty in Hb. discriminate.
  - cbn [reaches]. rewrite Hb. apply orb_true_iff. right.
    apply existsb_exists. exists a. split; [assumption|].
    destruct n; cbn [reaches]; rewrite String.eqb_refl; reflexivity.
Qed.

(** On stored commits the answer of [IsAncestor] is ancestry itself. *)
Lemma isAncestorOf_true cs a b ca cb :
  cs !! a = Some ca -> cs !! b = Some cb -> Ancestor cs a b ->
  isAncestorOf cs a b = true.
Proof. intros Ha Hb Hanc. apply isAncestorOf_spec. eauto. Qed.

Lemma isAncestorOf_false cs a b :
  ~ Ancestor cs a b -> isAncestorOf cs a b = false.
Proof.
  intros Hnot. destruct (isAncestorOf cs a b) eqn:Hanc; [|reflexivity].
  apply isAncestorOf_spec in Hanc as (_ & _ & Hanc). contradiction.
Qed.

(** C4.  Archiving [ref] (at [refHash], a commit with tree [cTree c])
    under [archive] in a well-formed repository: if [archive] does not
    exist it is created, pointing to a new commit whose only parent is
    [refHash]; if [refHash] is an ancestor of the tip of [archive] nothing
    changes; otherwise a new commit is created with the parents
    [tip(archive); refHash] in that order, the tree of [refHash] and the
    message "Archive <refHash>", and [archive] is updated to it by an
    [update-ref] that names the old tip. *)
Theorem ArchiveRef_case_analysis repo ref archive refHash c :
  wellFormed (store repo) = true ->
  commitAt (store repo) ref = Some (refHash, c) ->
  let s := store repo in
  (refs s !! archive = None ->
   let new := archiveCommit [refHash] refHash (cTree c) in
   cParents new = [refHash]
   /\ outcome (ArchiveRef ref archive) repo
      = (Ok tt, withRef (withCommit s new) archive (objectId new))
   /\ last (issued (ArchiveRef ref archive) repo)
      = Some ["update-ref"; archive; objectId new])
  /\ (forall archiveHash,
        refs s !! archive = Some archiveHash ->
        Ancestor (commits s) refHash archiveHash ->
        outcome (ArchiveRef ref archive) repo = (Ok tt, s)
        /\ updateRefAttempts (issued (ArchiveRef ref archive) repo) = 0)
  /\ (forall archiveHash,
        refs s !! archive = Some archiveHash ->
        ~ Ancestor (commits s) refHash archiveHash ->
        let new := archiveCommit [archiveHash; refHash] refHash (cTree c) in
        cParents new = [archiveHash; refHash]
        /\ cTree new = cTree c
        /\ cMessage new = "Archive " ++ refHash
        /\ outcome (ArchiveRef ref archive) repo
           = (Ok tt, withRef (withCommit s new) archive (objectId new))
        /\ last (issued (ArchiveRef ref archive) repo)
           = Some ["update-ref"; archive; objectId new; archiveHash]).
Proof.
  intros Hwf Hat s. subst s.
  pose proof (ArchiveRef_run repo ref archive refHash c Hwf Hat) as Hrun.
  cbv zeta in Hrun.
  destruct (commitAt_refs _ _ _ _ Hat) as [_ Hc].
  split; [|split].
  - intros Hnone new. rewrite Hnone in Hrun.
    rewrite <- !app_assoc in Hrun.
    apply issued_eq in Hrun as [-> ->].
    repeat split; reflexivity.
  - intros archiveHash Hsome Hanc.
    destruct (wellFormed_lookup _ _ _ Hwf Hsome) as (_ & _ & ac & Hac).
    rewrite Hsome, (isAncestorOf_true _ _ _ _ _ Hc Hac Hanc) in Hrun.
    rewrite <- !app_assoc in Hrun.
    apply issued_eq in Hrun as [-> ->].
    split; reflexivity.
  - intros archiveHash Hsome Hanc new.
    rewrite Hsome, (isAncestorOf_false _ _ _ Hanc) in Hrun.
    rewrite <- !app_assoc in Hrun.
    apply issued_eq in Hrun as [-> ->].
    repeat split; reflexivity.
Qed.

(** C3 (P6, archive reachability).  If archiving [ref] under [archive]
    completes without error on a well-formed repository, the commit that
    [ref] pointed to at the time of the call is an ancestor of the commit
    [archive] points to afterwards (and [IsAncestor] says so). *)
Theorem ArchiveRef_reachable repo repo' ref archive :
  wellFormed (store repo) = true ->
  ArchiveRef ref archive repo = (Ok tt, repo') ->
  exists refHash tip,
    refs (store repo) !! ref = Some refHash
    /\ refs (store repo') !! archive = Some tip
    /\ Ancestor (commits (store repo')) refHash tip
    /\ isAncestorOf (commits (store repo')) refHash tip = true.
Proof.
  intros Hwf Hok.
  destruct (commitAt (store repo) ref) as [[refHash c]|] eqn:Hat.
  2:{ destruct (GetCommitHash_None repo ref Hat) as [e He].
      unfold ArchiveRef in Hok. erewrite bind_Err in Hok by exact He.
      discriminate. }
  destruct (commitAt_refs _ _ _ _ Hat) as [Href Hc].
  pose proof (ArchiveRef_run repo ref archive refHash c Hwf Hat) as Hrun.
  cbv zeta in Hrun. rewrite Hok in Hrun.
  enough (exists tip,
             refs (store repo') !! archive = Some tip
             /\ isAncestorOf (commits (store repo')) refHash tip = true)
    as (tip & Htip & Hanc).
  { exists refHash, tip. repeat split; try assumption.
    apply isAncestorOf_spec in Hanc. tauto. }
  destruct (refs (store repo) !! archive) as [archiveHash|] eqn:Hlocal.
  - destruct (isAncestorOf (commits (store repo)) refHash archiveHash) eqn:Hanc;
      injection Hrun as ->; cbn [store].
    + exists archiveHash. auto.
    + eexists. split.
      * cbn [withRef withCommit refs]. apply lookup_insert_eq.
      * cbn [withRef withCommit commits].
        eapply (isAncestorOf_parent _ _ _ _
                  (if decide (objectId (archiveCommit [archiveHash; refHash]
                                          refHash (cTree c)) = refHash)
                   then _ else c)).
        -- rewrite lookup_insert. case_decide; [reflexivity|exact Hc].
        -- apply lookup_insert_eq.
        -- cbn. auto.
  - injection Hrun as ->; cbn [store].
    eexists. split.
    + cbn [withRef withCommit refs]. apply lookup_insert_eq.
    + cbn [withRef withCommit commits].
      eapply (isAncestorOf_parent _ _ _ _
                (if decide (objectId (archiveCommit [refHash] refHash
                                        (cTree c)) = refHash)
                 then _ else c)).
      * rewrite lookup_insert. case_decide; [reflexivity|exact Hc].
      * apply lookup_insert_eq.
      * cbn. auto.
Qed.

(** *** [mergeArchives], run on a well-formed repository *)

Lemma mergeArchives_run repo archive remoteArchive :
  wellFormed (store repo) = true ->
  let s := store repo in
  let isAncestor := ["merge-base"; "--is-ancestor"] in
  mergeArchives archive remoteArchive repo
  = match commitAt s remoteArchive with
    | None =>
        (Ok tt, mkGitRepo s (trace repo ++ [showRefVerify remoteArchive]))
    | Some (remoteHash, rc) =>
        let reads :=
          (trace repo ++ [showRefVerify remoteArchive; showHash remoteArchive;
                          showRefVerify archive])%list in
        match refs s !! archive with
        | None =>
            (Ok tt,
             mkGitRepo (withRef s archive remoteHash)
               (reads ++ [["update-ref"; archive; remoteHash]]))
        | Some archiveHash =>
            let reads :=
              (reads ++ [showHash archive;
                         isAncestor ++ [archiveHash; remoteHash]])%list in
            if isAncestorOf (commits s) archiveHash remoteHash then
              (Ok tt,
               mkGitRepo (withRef s archive remoteHash)
                 (reads ++ [["update-ref"; archive; remoteHash; archiveHash]]))
            else
              let new := mergeCommit remoteHash archiveHash (cTree rc) in
              (Ok tt,
               mkGitRepo (withRef (withCommit s new) archive (objectId new))
                 (reads ++ showDetails remoteArchive
                    ++ [commitTree [remoteHash; archiveHash]
                                   "Merge local and remote archives" (cTree rc);
                        ["update-ref"; archive; objectId new; archiveHash]]))
        end
    end.
Proof.
  intros Hwf s isAncestor.
  unfold mergeArchives.
  erewrite bind_Ok by apply HasRef_run.
  pose proof (commitAt_wellFormed s remoteArchive Hwf) as Hremote.
  fold s. destruct (refs s !! remoteArchive) as [remoteHash|] eqn:Hr.
  2:{ rewrite Hremote.
      rewrite bool_decide_eq_false_2 by (intros [? ?]; discriminate).
      reflexivity. }
  destruct Hremote as (rc & Hatr & Hrc & _ & Hcleanr). rewrite Hatr.
  rewrite bool_decide_eq_true_2 by eauto. cbn [negb].
  erewrite bind_Ok
    by (eapply GetCommitHash_Some; [cbn [store after]; exact Hatr | exact Hcleanr]).
  erewrite bind_Ok by apply HasRef_run.
  cbn [store after].
  pose proof (commitAt_wellFormed s archive Hwf) as Hlocal.
  fold s. destruct (refs s !! archive) as [archiveHash|] eqn:Ha.
  2:{ rewrite bool_decide_eq_false_2 by (intros [? ?]; discriminate).
      cbn [negb].
      erewrite bind_Ok
        by (eapply update_ref_run; cbn [store after]; exact Hrc).
      same_repository. }
  destruct Hlocal as (ac & Hata & Hac & Hne & Hcleana).
  rewrite bool_decide_eq_true_2 by eauto. cbn [negb].
  erewrite bind_Ok
    by (eapply GetCommitHash_Some; [cbn [store after]; exact Hata | exact Hcleana]).
  erewrite bind_Ok by apply IsAncestor_run.
  cbn [store after].
  destruct (isAncestorOf (commits s) archiveHash remoteHash).
  - erewrite bind_Ok
      by (eapply update_ref_cas_run; cbn [store after]; [exact Ha | exact Hrc]).
    unfold isAncestor. same_repository.
  - match goal with
    | |- bind (GetCommitDetails _) _ ?r = _ =>
        destruct (GetCommitDetails_Some r remoteArchive remoteHash rc Hatr)
          as (details & Hdetails & Htree)
    end.
    erewrite bind_Ok by exact Hdetails.
    rewrite Htree.
    erewrite bind_Ok.
    2:{ apply commit_tree_run; [reflexivity|].
        cbn [store after]. repeat constructor; eauto. }
    rewrite (TrimSpace_clean _ (objectId_clean _)).
    erewrite bind_Ok.
    2:{ eapply update_ref_cas_run; cbn [store after withCommit refs commits].
        - exact Ha.
        - apply lookup_insert_eq. }
    unfold isAncestor, commitTree, mergeCommit. same_repository.
Qed.

(** C1, as amended.  Merging the remote archive ref into the local one on
    a well-formed repository: if the remote ref does not exist nothing
    changes; if the local ref does not exist it is created at the remote
    tip; if the local tip is an ancestor of the remote tip the local ref is
    moved to the remote tip; in every other case, the one where the remote
    tip is a proper ancestor of the local tip included, a merge commit with
    the parents [remote tip; local tip] is created and the local ref is
    updated to it. *)
Theorem mergeArchives_case_analysis repo archive remoteArchive :
  wellFormed (store repo) = true ->
  let s := store repo in
  (refs s !! remoteArchive = None ->
   outcome (mergeArchives archive remoteArchive) repo = (Ok tt, s))
  /\ (forall remoteHash rc,
        commitAt s remoteArchive = Some (remoteHash, rc) ->
        (refs s !! archive = None ->
         outcome (mergeArchives archive remoteArchive) repo
         = (Ok tt, withRef s archive remoteHash))
        /\ (forall archiveHash,
              refs s !! archive = Some archiveHash ->
              Ancestor (commits s) archiveHash remoteHash ->
              outcome (mergeArchives archive remoteArchive) repo
              = (Ok tt, withRef s archive remoteHash)
              /\ last (issued (mergeArchives archive remoteArchive) repo)
                 = Some ["update-ref"; archive; remoteHash; archiveHash])
        /\ (forall archiveHash,
              refs s !! archive = Some archiveHash ->
              ~ Ancestor (commits s) archiveHash remoteHash ->
              let new := mergeCommit remoteHash archiveHash (cTree rc) in
              cParents new = [remoteHash; archiveHash]
              /\ outcome (mergeArchives archive remoteArchive) repo
                 = (Ok tt, withRef (withCommit s new) archive (objectId new))
              /\ last (issued (mergeArchives archive remoteArchive) repo)
                 = Some ["update-ref"; archive; objectId new; archiveHash])).
Proof.
  intros Hwf s. subst s.
  pose proof (mergeArchives_run repo archive remoteArchive Hwf) as Hrun.
  cbv zeta in Hrun.
  split.
  - intros Hnone.
    pose proof (commitAt_wellFormed (store repo) remoteArchive Hwf) as Hat.
    rewrite Hnone in Hat. rewrite Hat in Hrun.
    apply issued_eq in Hrun as [_ ->]. reflexivity.
  - intros remoteHash rc Hat. rewrite Hat in Hrun.
    destruct (commitAt_refs _ _ _ _ Hat) as [_ Hrc].
    split; [|split].
    + intros Hnone. rewrite Hnone in Hrun.
      rewrite <- ?app_assoc in Hrun.
      apply issued_eq in Hrun as [_ ->]. reflexivity.
    + intros archiveHash Hsome Hanc.
      destruct (wellFormed_lookup _ _ _ Hwf Hsome) as (_ & _ & ac & Hac).
      rewrite Hsome, (isAncestorOf_true _ _ _ _ _ Hac Hrc Hanc) in Hrun.
      rewrite <- !app_assoc in Hrun.
      apply issued_eq in Hrun as [-> ->]. split; reflexivity.
    + intros archiveHash Hsome Hanc new.
      rewrite Hsome, (isAncestorOf_false _ _ _ Hanc) in Hrun.
      rewrite <- !app_assoc in Hrun.
      apply issued_eq in Hrun as [-> ->]. repeat split; reflexivity.
Qed.

(** C8, as amended.  A compare-and-swap [SetRef] whose expected old value
    does not match the ref runs [update-ref] exactly once, without reading
    the ref again, leaves the store as it was and returns the failure to
    the caller. *)
Theorem SetRef_conflict_surfaced repo ref newCommitHash previousCommitHash :
  previousCommitHash <> "" ->
  refs (store repo) !! ref <> Some previousCommitHash ->
  exists e,
    outcome (SetRef ref newCommitHash previousCommitHash) repo
    = (Err e, store repo)
    /\ issued (SetRef ref newCommitHash previousCommitHash) repo
       = [["update-ref"; ref; newCommitHash; previousCommitHash]].
Proof.
  intros Hprev Hold.
  destruct (update_ref_cas_conflict repo ref newCommitHash previousCommitHash
              Hold) as [e He].
  exists e. apply and_comm, issued_eq.
  unfold SetRef.
  replace (negb (String.eqb previousCommitHash "")) with true
    by (symmetry; apply negb_true_iff, String.eqb_neq, Hprev).
  cbn [app]. erewrite bind_Err by exact He. reflexivity.
Qed.

End PortFacts.

(** ** The order of the command lines of a pull *)

Section SyncFacts.
Import repository.
Context `{GitBackend}.







Lemma emits_weaken {A} (P Q : list string -> Prop) (m : M A) :
  (forall args, P args -> Q args) -> emits P m -> emits Q m.
Proof.
  intros HPQ Hm repo. destruct (Hm repo) as (t & Ht & HP).
  exists t. split; [assumption|]. eapply Forall_impl; eauto.
Qed.















End SyncFacts.

(** ** The review ids read off the output of git *)

Section ReviewIdFacts.
Import repository.
Context `{GitBackend}.

Lemma append_cons (c : ascii) (a b : string) :
  String c a ++ b = String c (a ++ b).
Proof. reflexivity. Qed.

Lemma append_empty_r (s : string) : s ++ "" = s.
Proof.
  induction s as [|c s IH]; [reflexivity|].
  rewrite append_cons, IH. reflexivity.
Qed.

Lemma append_assoc (a b c : string) : (a ++ b) ++ c = a ++ (b ++ c).
Proof.
  induction a as [|x a IH]; [reflexivity|].
  rewrite !append_cons, IH. reflexivity.
Qed.

Lemma unlines_cons (line : string) (lines : list string) :
  unlines (line :: lines) = line ++ newline ++ unlines lines.
Proof.
  unfold unlines. cbn [List.map String.concat].
  destruct (List.map (fun l => l ++ newline) lines) as [|l ls] eqn:Hmap.
  - cbn [String.concat]. rewrite append_empty_r. reflexivity.
  - rewrite append_assoc. reflexivity.
Qed.

Lemma join_cons (field next : string) (fields : list string) :
  strings.Join (field :: next :: fields) newline
  = field ++ newline ++ strings.Join (next :: fields) newline.
Proof. reflexivity. Qed.

(** Trimming on the right leaves a clean prefix alone. *)
Lemma TrimRight_app_clean (a b : string) :
  cleanId a = true -> strings.TrimRight (a ++ b) = a ++ strings.TrimRight b.
Proof.
  induction a as [|c a IH]; [reflexivity|].
  cbn [cleanId]. intros [Hc Ha]%andb_true_iff.
  apply negb_true_iff in Hc.
  rewrite !append_cons.
  cbn [strings.TrimRight]. rewrite (IH Ha), Hc.
  destruct (a ++ strings.TrimRight b); reflexivity.
Qed.

Lemma cleanPath_inv (path : string) :
  cleanPath path = true ->
  cleanId path = true
  /\ exists c rest, path = String c rest /\ strings.isSpace c = false.
Proof.
  unfold cleanPath. intros [Hne Hclean]%andb_true_iff.
  split; [assumption|].
  destruct path as [|c rest]; [discriminate|].
  cbn [cleanId] in Hclean. apply andb_true_iff in Hclean as [Hc _].
  apply negb_true_iff in Hc. eauto.
Qed.

Lemma TrimRight_unlines (paths : list string) :
  Forall (fun p => cleanPath p = true) paths ->
  strings.TrimRight (unlines paths) = strings.Join paths newline.
Proof.
  induction 1 as [|path rest Hpath Hrest IH]; [reflexivity|].
  destruct (cleanPath_inv _ Hpath) as [Hclean _].
  rewrite unlines_cons, (TrimRight_app_clean _ _ Hclean).
  destruct rest as [|next rest'].
  - cbn. rewrite append_empty_r. reflexivity.
  - rewrite join_cons. f_equal.
    change (newline ++ unlines (next :: rest'))
      with (String "010" (unlines (next :: rest'))).
    cbn [strings.TrimRight]. rewrite IH.
    inversion Hrest as [|? ? Hnext _]; subst.
    destruct (cleanPath_inv _ Hnext) as [_ (c & r & -> & _)].
    destruct rest'; reflexivity.
Qed.

(** What [runGitCommand] returns for a non-empty list of printed paths. *)
Lemma TrimSpace_unlines (path : string) (paths : list string) :
  Forall (fun p => cleanPath p = true) (path :: paths) ->
  strings.TrimSpace (unlines (path :: paths))
  = strings.Join (path :: paths) newline.
Proof.
  intros Hall. unfold strings.TrimSpace.
  inversion Hall as [|? ? Hpath _]; subst.
  destruct (cleanPath_inv _ Hpath) as [_ (c & r & -> & Hc)].
  rewrite unlines_cons.
  change (String c r ++ newline ++ unlines paths)
    with (String c (r ++ newline ++ unlines paths)).
  cbn [strings.TrimLeft]. rewrite Hc.
  change (String c (r ++ newline ++ unlines paths))
    with (String c r ++ newline ++ unlines paths).
  rewrite <- unlines_cons. apply TrimRight_unlines, Hall.
Qed.

Lemma Replace_app (a b : string) (old : ascii) :
  strings.Replace (a ++ b) old
  = strings.Replace a old ++ strings.Replace b old.
Proof.
  induction a as [|c a IH]; [reflexivity|].
  rewrite append_cons. cbn [strings.Replace]. rewrite IH.
  destruct (Ascii.eqb c old); reflexivity.
Qed.

Lemma Replace_join (paths : list string) :
  strings.Replace (strings.Join paths newline) "/"
  = strings.Join (List.map (fun p => strings.Replace p "/") paths) newline.
Proof.
  induction paths as [|path [|next rest] IH]; [reflexivity..|].
  rewrite join_cons, !Replace_app, IH. reflexivity.
Qed.

Lemma Replace_clean (path : string) (old : ascii) :
  cleanId path = true -> cleanId (strings.Replace path old) = true.
Proof.
  induction path as [|c rest IH]; [reflexivity|].
  cbn [cleanId strings.Replace]. intros [Hc Hrest]%andb_true_iff.
  destruct (Ascii.eqb c old); [auto|].
  cbn [cleanId]. rewrite Hc. auto.
Qed.

Lemma Split_clean (field : string) :
  cleanId field = true -> strings.Split field "010" = [field].
Proof.
  induction field as [|c rest IH]; [reflexivity|].
  cbn [cleanId strings.Split]. intros [Hc Hrest]%andb_true_iff.
  rewrite (IH Hrest).
  destruct (Ascii.eqb_spec c "010") as [->|_]; [discriminate|reflexivity].
Qed.

Lemma Split_app_clean (field rest : string) :
  cleanId field = true ->
  strings.Split (field ++ newline ++ rest) "010"
  = field :: strings.Split rest "010".
Proof.
  induction field as [|c field IH]; [reflexivity|].
  cbn [cleanId]. intros [Hc Hfield]%andb_true_iff.
  change (String c field ++ newline ++ rest)
    with (String c (field ++ newline ++ rest)).
  cbn [strings.Split]. rewrite (IH Hfield).
  destruct (Ascii.eqb_spec c "010") as [->|_]; [discriminate|reflexivity].
Qed.

Lemma Split_join (fields : list string) :
  fields <> [] ->
  Forall (fun f => cleanId f = true) fields ->
  strings.Split (strings.Join fields newline) "010" = fields.
Proof.
  intros Hne Hall. induction Hall as [|field [|next rest] Hfield Hrest IH];
    [congruence | apply Split_clean, Hfield |].
  rewrite join_cons, (Split_app_clean _ _ Hfield), IH by discriminate.
  reflexivity.
Qed.

(** The review names the loop reads off the output of [ls-tree] or [diff]:
    for at least one printed path, each path with its slashes removed;
    for no path at all, one empty name. *)
Lemma reviews_of_output (paths : list string) :
  Forall (fun p => cleanPath p = true) paths ->
  strings.Split (strings.Replace (strings.TrimSpace (unlines paths)) "/") "010"
  = match paths with
    | [] => [""]
    | _ => List.map (fun p => strings.Replace p "/") paths
    end.
Proof.
  intros Hall. destruct paths as [|path rest]; [reflexivity|].
  rewrite (TrimSpace_unlines _ _ Hall), Replace_join.
  apply Split_join; [discriminate|].
  apply Forall_fmap. eapply Forall_impl; [exact Hall|].
  intros p Hp. apply Replace_clean. apply cleanPath_inv in Hp. tauto.
Qed.

Lemma git_ls_tree_names s hash :
  git ["ls-tree"; "-r"; "--name-only"; hash] s
  = match treeOf s hash with
    | Some t => (success (unlines (List.map quotePath (elements (dom t)))), s)
    | None => (failure 128 "fatal: Not a valid object name", s)
    end.
Proof. reflexivity. Qed.

Lemma git_diff_names s a b :
  git ["diff"; "--name-only"; a; b] s
  = match treeOf s a, treeOf s b with
    | Some ta, Some tb =>
        (success (unlines (List.map quotePath (diffNames ta tb))), s)
    | _, _ => (failure 128 "fatal: bad object", s)
    end.
Proof. reflexivity. Qed.

(** Plain paths are printed as they are. *)
Lemma quotePath_plain (paths : list string) :
  Forall (fun p => plainPath p = true) paths ->
  List.map quotePath paths = paths.
Proof.
  induction 1 as [|p rest Hp _ IH]; [reflexivity|].
  cbn [List.map]. unfold quotePath at 1. rewrite Hp, IH. reflexivity.
Qed.

(** The loop of [FetchAndReturnNewReviewHashes], on refs whose changed
    paths can be listed: it leaves the store as it is and adds, for each
    updated ref, the review ids of the changed paths -- and the empty
    string for a ref that changed without any changed path. *)
Lemma collectUpdatedReviews_run updated priorRefHashes :
  forall updatedReviewSet repo,
    Forall (fun entry =>
              String.eqb (default "" (priorRefHashes !! fst entry)) (snd entry)
              = false ->
              exists paths,
                changedPaths (store repo) (priorRefHashes !! fst entry)
                             (snd entry) = Some paths
                /\ Forall (fun p => cleanPath p = true) paths
                /\ Forall (fun p => plainPath p = true) paths) updated ->
    outcome (collectUpdatedReviews updated priorRefHashes updatedReviewSet)
            repo
    = (Ok (⋃ (List.map (reviewsAdded (store repo) priorRefHashes) updated)
           ∪ updatedReviewSet),
       store repo).
Proof.
  induction updated as [|[ref hash] rest IH]; intros set repo Hall.
  - unfold outcome. cbn. f_equal. f_equal.
    apply set_eq. intros x. set_unfold. tauto.
  - inversion Hall as [|? ? Hentry Hrest]; subst.
    cbn [collectUpdatedReviews List.map union_list fst snd] in *.
    unfold reviewsAdded at 1. cbn [fst snd].
    destruct (String.eqb (default "" (priorRefHashes !! ref)) hash) eqn:Hsame.
    + rewrite (IH set repo Hrest). f_equal. f_equal.
      apply set_eq. intros x. set_unfold. tauto.
    + destruct (Hentry eq_refl) as (paths & Hpaths & Hclean & Hplain).
      rewrite Hpaths.
      assert (Hnotes :
        (if negb (bool_decide (is_Some (priorRefHashes !! ref)))
         then runGitCommand ["ls-tree"; "-r"; "--name-only"; hash]
         else runGitCommand
                ["diff"; "--name-only"; default "" (priorRefHashes !! ref);
                 hash]) repo
        = (Ok (strings.TrimSpace (unlines paths)),
           mkGitRepo (store repo)
             (trace repo
              ++ [if negb (bool_decide (is_Some (priorRefHashes !! ref)))
                  then ["ls-tree"; "-r"; "--name-only"; hash]
                  else ["diff"; "--name-only";
                        default "" (priorRefHashes !! ref); hash]]))).
      { unfold changedPaths in Hpaths.
        destruct (priorRefHashes !! ref) as [priorHash|] eqn:Hprior.
        - rewrite bool_decide_eq_true_2 by eauto. cbv [negb from_option id].
          apply runGitCommand_success. rewrite git_diff_names.
          destruct (treeOf (store repo) priorHash); [|discriminate].
          destruct (treeOf (store repo) hash); [|discriminate].
          injection Hpaths as <-. rewrite (quotePath_plain _ Hplain).
          reflexivity.
        - rewrite bool_decide_eq_false_2 by (intros [? ?]; discriminate).
          cbn [negb]. apply runGitCommand_success. rewrite git_ls_tree_names.
          destruct (treeOf (store repo) hash); [|discriminate].
          injection Hpaths as <-. rewrite (quotePath_plain _ Hplain).
          reflexivity. }
      unfold outcome. erewrite bind_Ok by exact Hnotes.
      rewrite (reviews_of_output _ Hclean).
      match goal with
      | |- context [collectUpdatedReviews rest priorRefHashes ?set' ?repo'] =>
          pose proof (IH set' repo' Hrest) as Hloop
      end.
      unfold outcome in Hloop. cbn [store] in Hloop.
      rewrite Hloop. f_equal. f_equal.
      unfold reviewIds.
      destruct paths; apply set_eq; intros x; set_unfold; tauto.
Qed.

End ReviewIdFacts.

(** ** The refs read off the output of [git show-ref] *)

Section RefHashFacts.
Import repository.
Context `{GitBackend}.

Lemma TrimRight_app (a b : string) :
  strings.TrimRight b <> "" ->
  strings.TrimRight (a ++ b) = a ++ strings.TrimRight b.
Proof.
  intros Hb. induction a as [|c a IH]; [reflexivity|].
  rewrite !append_cons. cbn [strings.TrimRight]. rewrite IH.
  destruct a as [|x a]; [|reflexivity].
  change ("" ++ strings.TrimRight b) with (strings.TrimRight b).
  destruct (strings.TrimRight b); [congruence|reflexivity].
Qed.

Lemma TrimRight_app_blank (a b : string) :
  strings.TrimRight b = "" ->
  strings.TrimRight (a ++ b) = strings.TrimRight a.
Proof.
  intros Hb. induction a as [|c a IH]; [exact Hb|].
  rewrite append_cons. cbn [strings.TrimRight]. rewrite IH. reflexivity.
Qed.

Lemma append_not_empty (a b : string) : a <> "" -> a ++ b <> "".
Proof. destruct a; [congruence|discriminate]. Qed.

(** Lines that are not empty and do not end in white space, printed one
    per line and trimmed on the right. *)
Lemma TrimRight_lines (lines : list string) :
  Forall (fun l => l <> "" /\ strings.TrimRight l = l) lines ->
  strings.TrimRight (unlines lines) = strings.Join lines newline.
Proof.
  induction 1 as [|line rest [Hne Hline] Hrest IH]; [reflexivity|].
  rewrite unlines_cons.
  destruct rest as [|next rest'].
  - rewrite TrimRight_app_blank by reflexivity. exact Hline.
  - rewrite join_cons.
    assert (Hnext : strings.TrimRight (newline ++ unlines (next :: rest'))
                    = newline ++ strings.Join (next :: rest') newline).
    { rewrite <- IH. apply TrimRight_app. rewrite IH.
      inversion Hrest as [|? ? [Hnext _] _]; subst.
      destruct rest'; [exact Hnext|].
      rewrite join_cons. apply append_not_empty, Hnext. }
    rewrite TrimRight_app; rewrite Hnext; [reflexivity|discriminate].
Qed.

Lemma TrimSpace_lines (line : string) (lines : list string) :
  strings.TrimLeft line = line ->
  Forall (fun l => l <> "" /\ strings.TrimRight l = l) (line :: lines) ->
  strings.TrimSpace (unlines (line :: lines))
  = strings.Join (line :: lines) newline.
Proof.
  intros Hleft Hall. unfold strings.TrimSpace.
  inversion Hall as [|? ? [Hne _] _]; subst.
  rewrite <- (TrimRight_lines _ Hall). f_equal.
  rewrite unlines_cons.
  destruct line as [|c r]; [congruence|].
  rewrite append_cons. cbn [strings.TrimLeft] in *.
  destruct (strings.isSpace c); [|reflexivity].
  exfalso. clear -Hleft.
  assert (Hlen : forall s, String.length (strings.TrimLeft s)
                           <= String.length s).
  { induction s as [|x s IHs]; [reflexivity|].
    cbn [strings.TrimLeft]. destruct (strings.isSpace x); cbn; lia. }
  specialize (Hlen r). rewrite Hleft in Hlen. cbn in Hlen. lia.
Qed.

(** A string without the separator is one field. *)
Lemma Split_field (field : string) (sep : ascii) :
  strings.isSpace sep = true -> cleanId field = true ->
  strings.Split field sep = [field].
Proof.
  intros Hsep. induction field as [|c rest IH]; [reflexivity|].
  cbn [cleanId strings.Split]. intros [Hc Hrest]%andb_true_iff.
  rewrite (IH Hrest).
  destruct (Ascii.eqb_spec c sep) as [->|_]; [|reflexivity].
  rewrite Hsep in Hc. discriminate.
Qed.

Lemma Split_app_field (field rest : string) (sep : ascii) :
  strings.Split field sep = [field] ->
  strings.Split (field ++ String sep rest) sep
  = field :: strings.Split rest sep.
Proof.
  induction field as [|c field IH]; intros Hfield.
  - change ("" ++ String sep rest) with (String sep rest).
    cbn [strings.Split]. rewrite Ascii.eqb_refl. reflexivity.
  - rewrite append_cons. cbn [strings.Split] in *.
    destruct (Ascii.eqb c sep); [discriminate|].
    destruct (strings.Split field sep) as [|f fs] eqn:Hsplit;
      [destruct field; discriminate|].
    injection Hfield as -> ->. rewrite (IH eq_refl). reflexivity.
Qed.

Lemma Split_app_one (a b : string) (sep : ascii) :
  strings.Split a sep = [a] -> strings.Split b sep = [b] ->
  strings.Split (a ++ b) sep = [a ++ b].
Proof.
  intros Ha Hb. induction a as [|c a IH]; [exact Hb|].
  rewrite append_cons. cbn [strings.Split] in *.
  destruct (Ascii.eqb c sep); [discriminate|].
  destruct (strings.Split a sep) as [|f fs] eqn:Hsplit;
    [destruct a; discriminate|].
  injection Ha as -> ->. rewrite (IH eq_refl). reflexivity.
Qed.

Lemma Split_lines (lines : list string) :
  lines <> [] ->
  Forall (fun l => strings.Split l "010" = [l]) lines ->
  strings.Split (strings.Join lines newline) "010" = lines.
Proof.
  intros Hne Hall.
  induction Hall as [|line [|next rest] Hline Hrest IH];
    [congruence | exact Hline |].
  rewrite join_cons.
  change (line ++ newline ++ strings.Join (next :: rest) newline)
    with (line ++ String "010" (strings.Join (next :: rest) newline)).
  rewrite (Split_app_field _ _ _ Hline), IH by discriminate.
  reflexivity.
Qed.

Lemma cleanPath_not_empty (path : string) :
  cleanPath path = true -> path <> "".
Proof. intros Hpath ->. discriminate. Qed.

Lemma showRefLine_tidy (rh : string * string) :
  cleanPath (fst rh) = true -> cleanPath (snd rh) = true ->
  showRefLine rh <> ""
  /\ strings.TrimLeft (showRefLine rh) = showRefLine rh
  /\ strings.TrimRight (showRefLine rh) = showRefLine rh
  /\ strings.Split (showRefLine rh) "010" = [showRefLine rh]
  /\ strings.Split (showRefLine rh) " " = [snd rh; fst rh].
Proof.
  destruct rh as [ref hash]. unfold showRefLine. cbn [fst snd].
  intros Href Hhash.
  destruct (cleanPath_inv _ Href) as [Hrefc (c & r & Hrefeq & Hc)].
  destruct (cleanPath_inv _ Hhash) as [Hhashc (d & q & Hhasheq & Hd)].
  assert (Hspace : strings.TrimRight (" " ++ ref) = " " ++ ref).
  { change (" " ++ ref) with (String " " ref). cbn [strings.TrimRight].
    rewrite (TrimRight_clean _ Hrefc), Hrefeq. reflexivity. }
  repeat split.
  - apply append_not_empty, cleanPath_not_empty, Hhash.
  - rewrite Hhasheq, append_cons. cbn [strings.TrimLeft]. rewrite Hd.
    reflexivity.
  - rewrite TrimRight_app; rewrite Hspace; [reflexivity|discriminate].
  - apply Split_app_one; [apply Split_field; auto|].
    change (" " ++ ref) with (String " " ref). cbn [strings.Split].
    rewrite (Split_field ref "010") by auto. reflexivity.
  - change (hash ++ " " ++ ref) with (hash ++ String " " ref).
    rewrite Split_app_field by (apply Split_field; auto).
    rewrite Split_field by auto. reflexivity.
Qed.

Lemma collectRefHashes_lines (entries : list (string * string))
      (refPrefix : string) :
  Forall (fun rh => cleanPath (fst rh) = true /\ cleanPath (snd rh) = true)
         entries ->
  forall refsMap,
    collectRefHashes (List.map showRefLine entries) refPrefix refsMap
    = Ok (foldl (keepRef refPrefix) refsMap entries).
Proof.
  induction 1 as [|rh rest [Href Hhash] Hrest IH]; intros refsMap;
    [reflexivity|].
  cbn [List.map collectRefHashes foldl].
  destruct (showRefLine_tidy rh Href Hhash) as (_ & _ & _ & _ & ->).
  apply IH.
Qed.

Lemma foldl_keepRef (entries : list (string * string)) (refPrefix : string) :
  NoDup (entries.*1) ->
  forall refsMap,
    foldl (keepRef refPrefix) refsMap entries
    = list_to_map
        (List.filter (fun rh => strings.HasPrefix (fst rh) refPrefix) entries)
      ∪ refsMap.
Proof.
  induction entries as [|[ref hash] rest IH]; intros Hnodup refsMap.
  - cbn. rewrite (left_id_L ∅ (∪)). reflexivity.
  - cbn [fmap list_fmap fst] in Hnodup.
    apply NoDup_cons in Hnodup as [Hfresh Hnodup].
    cbn [foldl List.filter]. rewrite (IH Hnodup).
    unfold keepRef. cbn [fst snd].
    destruct (strings.HasPrefix ref refPrefix); [|reflexivity].
    cbn [list_to_map foldr fst snd].
    rewrite <- insert_union_l. symmetry. apply insert_union_r.
    apply not_elem_of_list_to_map_1. intros Hin. apply Hfresh.
    apply list_elem_of_fmap in Hin as ([r h] & -> & Hin).
    apply list_elem_of_In, filter_In in Hin as [Hin _].
    apply list_elem_of_fmap. exists (r, h). split; [reflexivity|].
    apply list_elem_of_In, Hin.
Qed.

Lemma filter_map_to_list (refPrefix : string) (rs : gmap string string) :
  list_to_map
    (List.filter (fun rh => strings.HasPrefix (fst rh) refPrefix)
                 (map_to_list rs))
  = refsUnder refPrefix rs.
Proof.
  apply map_eq. intros ref. unfold refsUnder.
  destruct (filter _ rs !! ref) as [hash|] eqn:Hlookup.
  - apply map_lookup_filter_Some in Hlookup as [Hrs Hprefix].
    apply elem_of_list_to_map_1.
    + apply NoDup_fmap_fst.
      * intros r h1 h2 [H1 _]%list_elem_of_In%filter_In
                       [H2 _]%list_elem_of_In%filter_In.
        apply list_elem_of_In, elem_of_map_to_list in H1, H2. congruence.
      * apply NoDup_ListNoDup, List.NoDup_filter, NoDup_ListNoDup,
          NoDup_map_to_list.
    + apply list_elem_of_In, filter_In. split; [|exact Hprefix].
      apply list_elem_of_In, elem_of_map_to_list, Hrs.
  - apply not_elem_of_list_to_map_1. intros Hin.
    apply list_elem_of_fmap in Hin as ([r h] & -> & Hin).
    apply list_elem_of_In, filter_In in Hin as [Hin Hprefix].
    apply list_elem_of_In, elem_of_map_to_list in Hin.
    assert (Hsome : filter (fun rh => strings.HasPrefix (fst rh) refPrefix
                                      = true) rs !! r = Some h)
      by (apply map_lookup_filter_Some; auto).
    cbn [fst] in Hlookup. congruence.
Qed.

Lemma tidyRefs_entries (s : Store) :
  tidyRefs s = true ->
  map_to_list (refs s) <> []
  /\ Forall (fun rh => cleanPath (fst rh) = true /\ cleanPath (snd rh) = true)
            (map_to_list (refs s)).
Proof.
  unfold tidyRefs. intros [Hne Hall]%andb_true_iff.
  apply negb_true_iff, bool_decide_eq_false in Hne.
  split; [exact Hne|].
  apply Forall_forall. intros rh Hin.
  rewrite forallb_forall in Hall.
  apply andb_true_iff, Hall, list_elem_of_In, Hin.
Qed.

Lemma git_show_ref_all (s : Store) :
  map_to_list (refs s) <> [] ->
  git ["show-ref"] s
  = (success (unlines (List.map showRefLine (map_to_list (refs s)))), s).
Proof.
  intros Hne. cbv [git]. cbn [String.eqb Ascii.eqb Bool.eqb].
  unfold git_show_ref.
  destruct (map_to_list (refs s)); [congruence|reflexivity].
Qed.

(** [getRefHashes] on a tidy store: one [show-ref], and the refs under the
    prefix of the pattern with their hashes. *)
Lemma getRefHashes_run (refPattern : string) (repo : GitRepo) :
  strings.HasSuffix refPattern "/*" = true ->
  tidyRefs (store repo) = true ->
  getRefHashes refPattern repo
  = (Ok (refsUnder (strings.TrimSuffix refPattern "*") (refs (store repo))),
     after repo (store repo) ["show-ref"]).
Proof.
  intros Hsuffix [Hne Hall]%tidyRefs_entries.
  unfold getRefHashes. rewrite Hsuffix. cbn [negb].
  erewrite bind_Ok
    by (apply runGitCommand_success, git_show_ref_all, Hne).
  f_equal.
  assert (Hlines :
    Forall (fun l => l <> "" /\ strings.TrimRight l = l)
           (List.map showRefLine (map_to_list (refs (store repo))))
    /\ Forall (fun l => strings.Split l "010" = [l])
              (List.map showRefLine (map_to_list (refs (store repo))))).
  { split; apply Forall_fmap; (eapply Forall_impl; [exact Hall|]);
      intros rh [Href Hhash];
      destruct (showRefLine_tidy rh Href Hhash) as (? & ? & ? & ? & ?);
      cbn; auto. }
  destruct Hlines as [Htrim Hsplit].
  destruct (map_to_list (refs (store repo))) as [|rh rest] eqn:Hlist;
    [congruence|].
  cbn [List.map] in *.
  rewrite TrimSpace_lines; [|
    inversion Hall as [|? ? [Href Hhash] _]; subst;
    destruct (showRefLine_tidy rh Href Hhash) as (? & ? & ? & ? & ?); auto
    | exact Htrim].
  rewrite Split_lines by (discriminate || exact Hsplit).
  change (showRefLine rh :: List.map showRefLine rest)
    with (List.map showRefLine (rh :: rest)).
  rewrite collectRefHashes_lines by exact Hall.
  rewrite foldl_keepRef
    by (rewrite <- Hlist; apply NoDup_fst_map_to_list).
  rewrite (right_id_L ∅ (∪)), <- Hlist, filter_map_to_list. reflexivity.
Qed.

End RefHashFacts.

(** ** The review ids a fetch returns *)

Section FetchFacts.
Import repository.
Context `{GitBackend}.

Lemma wrapErr_Ok {A} (context : string) (m : M A) repo a repo' :
  m repo = (Ok a, repo') -> wrapErr context m repo = (Ok a, repo').
Proof. intros Hm. unfold wrapErr. rewrite Hm. reflexivity. Qed.

Lemma find_unsupported (patterns : list string) :
  forallb (fun p => strings.HasPrefix p devtoolsRefPrefix) patterns = true ->
  List.find (fun p => negb (strings.HasPrefix p devtoolsRefPrefix)) patterns
  = None.
Proof.
  induction patterns as [|p rest IH]; [reflexivity|].
  cbn [forallb List.find]. intros [Hp Hrest]%andb_true_iff.
  rewrite Hp. cbn [negb]. auto.
Qed.

Lemma Fetch_run (remote : string) (refspecs : list string) repo fetched :
  fetchEffect remote refspecs (store repo) = Some fetched ->
  Fetch remote refspecs repo
  = (Ok tt, after repo fetched ("fetch" :: remote :: refspecs)).
Proof.
  intros Hfetch. unfold Fetch, runGitCommandInline, bind, runGitCommandRaw.
  cbn [app]. cbv [git]. cbn [String.eqb Ascii.eqb Bool.eqb].
  unfold git_fetch. rewrite Hfetch. reflexivity.
Qed.

Lemma refsUnder_lookup (refPrefix ref : string) (rs : gmap string string) :
  strings.HasPrefix ref refPrefix = true ->
  refsUnder refPrefix rs !! ref = rs !! ref.
Proof.
  intros Hprefix. unfold refsUnder.
  destruct (rs !! ref) as [hash|] eqn:Href.
  - apply map_lookup_filter_Some. auto.
  - apply map_lookup_filter_None. left. exact Href.
Qed.

Lemma refsUnder_entry (refPrefix : string) (rs : gmap string string) entry :
  In entry (map_to_list (refsUnder refPrefix rs)) ->
  strings.HasPrefix (fst entry) refPrefix = true.
Proof.
  destruct entry as [ref hash]. intros Hin.
  apply list_elem_of_In, elem_of_map_to_list in Hin.
  apply map_lookup_filter_Some in Hin as [_ Hprefix]. exact Hprefix.
Qed.

Lemma pathsListed_paths (s : Store) (prior : gmap string string) entry :
  pathsListed s prior entry = true ->
  String.eqb (default "" (prior !! fst entry)) (snd entry) = false ->
  exists paths,
    changedPaths s (prior !! fst entry) (snd entry) = Some paths
    /\ Forall (fun p => cleanPath p = true) paths
    /\ Forall (fun p => plainPath p = true) paths.
Proof.
  unfold pathsListed. intros Hlisted Hchanged.
  rewrite Hchanged in Hlisted. cbn [orb] in Hlisted.
  destruct (changedPaths s (prior !! fst entry) (snd entry)) as [paths|];
    [|discriminate].
  exists paths. split; [reflexivity|].
  rewrite forallb_forall in Hlisted.
  split; apply Forall_forall; intros p Hp;
    apply list_elem_of_In, Hlisted, andb_true_iff in Hp; tauto.
Qed.

(** What the loop adds for the entries of [updated]: the review ids of the
    changed paths, and the empty string as soon as one ref changed without
    a changed path. *)
Lemma reviewsAdded_changed (before after : Store) (refPrefix : string)
      (updated : list (string * string)) :
  Forall (fun entry => strings.HasPrefix (fst entry) refPrefix = true)
         updated ->
  ⋃ (List.map (reviewsAdded after (refsUnder refPrefix (refs before)))
                updated)
  = ⋃ (List.map
         (fun entry =>
            if String.eqb (default "" (refs before !! fst entry)) (snd entry)
            then ∅
            else match changedPaths after (refs before !! fst entry)
                                    (snd entry) with
                 | Some paths => reviewIds paths
                 | None => ∅
                 end) updated)
    ∪ (if existsb (emptyChange after (refsUnder refPrefix (refs before)))
                  updated
       then {[ "" ]} else (∅ : gset string)).
Proof.
  induction 1 as [|entry rest Hprefix Hrest IH].
  - cbn. apply set_eq. intros x. set_unfold. tauto.
  - cbn [List.map existsb]. rewrite !union_list_cons, IH.
    unfold reviewsAdded at 1, emptyChange at 2.
    rewrite (refsUnder_lookup _ _ _ Hprefix).
    destruct (String.eqb (default "" (refs before !! fst entry))
                         (snd entry)); cbn [negb andb orb].
    + apply set_eq. intros x. set_unfold. tauto.
    + destruct (changedPaths after (refs before !! fst entry) (snd entry))
        as [[|path paths]|]; cbn [orb];
        destruct (existsb _ rest);
        apply set_eq; intros x; unfold reviewIds; set_unfold; tauto.
Qed.

Lemma outcome_bind_ret {A B} (m : M A) (f : A -> B) repo a s :
  outcome m repo = (Ok a, s) ->
  outcome (bind m (fun x => ret (f x))) repo = (Ok (f a), s).
Proof.
  unfold outcome, bind. destruct (m repo) as [[x|e] repo']; cbn;
    intros Hm; [|discriminate].
  injection Hm as -> ->. reflexivity.
Qed.

(** C5, as the code has it: on stores that [git show-ref] lists line by
    line, where the fetch succeeds and the paths can be listed,
    [FetchAndReturnNewReviewHashes] leaves the fetched store and returns
    the review ids of the paths that git lists for the remote notes refs
    -- nothing for a ref whose hash did not change, every path of the tree
    for a new ref, the paths that [git diff --name-only] prints against
    the prior version for a ref that moved, slashes removed -- together
    with the empty string when git lists no path for some ref that
    changed. *)
Theorem FetchAndReturnNewReviewHashes_review_ids
        (remote notesRefPattern : string) (devtoolsRefPatterns : list string)
        (repo : GitRepo) (fetched : Store) :
  let remotePattern := getRemoteNotesRef remote notesRefPattern in
  let refPrefix := strings.TrimSuffix remotePattern "*" in
  let prior := refsUnder refPrefix (refs (store repo)) in
  let updated := map_to_list (refsUnder refPrefix (refs fetched)) in
  forallb (fun p => strings.HasPrefix p devtoolsRefPrefix)
          devtoolsRefPatterns = true ->
  strings.HasSuffix remotePattern "/*" = true ->
  tidyRefs (store repo) = true ->
  fetchEffect remote
    ["+" ++ notesRefPattern ++ ":" ++ remotePattern;
     "+" ++ (devtoolsRefPrefix ++ "*") ++ ":"
     ++ getRemoteDevtoolsRef remote (devtoolsRefPrefix ++ "*")]
    (store repo) = Some fetched ->
  tidyRefs fetched = true ->
  forallb (pathsListed fetched prior) updated = true ->
  outcome (FetchAndReturnNewReviewHashes remote notesRefPattern
                                         devtoolsRefPatterns) repo
  = (Ok (elements
           (changedReviewIds (store repo) fetched refPrefix
            ∪ (if existsb (emptyChange fetched prior) updated
               then {[ "" ]} else ∅))),
     fetched).
Proof.
  intros remotePattern refPrefix prior updated
         Hpatterns Hsuffix Htidy Hfetch Htidy' Hlisted.
  unfold FetchAndReturnNewReviewHashes.
  rewrite (find_unsupported _ Hpatterns).
  fold remotePattern.
  unfold outcome at 1.
  erewrite bind_Ok
    by (apply wrapErr_Ok, getRefHashes_run; [exact Hsuffix|exact Htidy]).
  erewrite bind_Ok
    by (apply wrapErr_Ok, Fetch_run; cbn [after store]; exact Hfetch).
  erewrite bind_Ok
    by (apply wrapErr_Ok, getRefHashes_run;
        [exact Hsuffix|cbn [after store]; exact Htidy']).
  cbn [after store].
  fold refPrefix. fold prior. fold updated.
  match goal with
  | |- (fst (bind ?m ?k ?r), store (snd (bind ?m ?k ?r))) = _ =>
      change (outcome (bind m k) r = (Ok (elements
           (changedReviewIds (store repo) fetched refPrefix
            ∪ (if existsb (emptyChange fetched prior) updated
               then {[ "" ]} else ∅))), fetched))
  end.
  apply (outcome_bind_ret _ elements).
  rewrite collectUpdatedReviews_run.
  - cbn [store]. f_equal. f_equal.
    rewrite (right_id_L ∅ (∪)).
    unfold prior. rewrite (reviewsAdded_changed _ _ refPrefix); [reflexivity|].
    apply Forall_forall. intros entry Hin.
    apply (refsUnder_entry refPrefix (refs fetched)), list_elem_of_In, Hin.
  - cbn [store]. apply Forall_forall. intros entry Hin.
    apply pathsListed_paths.
    rewrite forallb_forall in Hlisted. apply Hlisted, list_elem_of_In, Hin.
Qed.

End FetchFacts.

(** ** The merges of a pull, ref by ref *)

Section MergeFacts.
Import repository.
Context `{GitBackend}.






End MergeFacts.

(** ** Further properties of the port *)

Section PortProperties.
Import repository.
Context `{GitBackend}.

(** X2.  A [SetRef] to a stored commit whose expected old value matches (or
    that names none) succeeds with one [update-ref]; afterwards the ref
    holds the new hash, every other ref is as before, and [GetCommitHash]
    of the ref returns the new hash. *)
Theorem SetRef_sets_ref repo ref newCommitHash previousCommitHash :
  is_Some (commits (store repo) !! newCommitHash) ->
  cleanId newCommitHash = true ->
  previousCommitHash = ""
  \/ refs (store repo) !! ref = Some previousCommitHash ->
  exists repo',
    SetRef ref newCommitHash previousCommitHash repo = (Ok tt, repo')
    /\ store repo' = withRef (store repo) ref newCommitHash
    /\ updateRefAttempts (issued (SetRef ref newCommitHash previousCommitHash)
                                 repo) = 1
    /\ refs (store repo') !! ref = Some newCommitHash
    /\ (forall other, other <> ref ->
                      refs (store repo') !! other
                      = refs (store repo) !! other)
    /\ fst (GetCommitHash ref repo') = Ok newCommitHash.
Proof.
  intros [c Hc] Hclean Hprev.
  assert (Hrun : exists args,
    SetRef ref newCommitHash previousCommitHash repo
    = (Ok tt, after repo (withRef (store repo) ref newCommitHash)
                         ("update-ref" :: args))).
  { unfold SetRef.
    destruct (String.eqb_spec previousCommitHash "") as [->|Hne].
    - cbn [negb]. exists [ref; newCommitHash].
      erewrite bind_Ok by (eapply update_ref_run; exact Hc). reflexivity.
    - destruct Hprev as [->|Hold]; [congruence|].
      cbn [negb app]. exists [ref; newCommitHash; previousCommitHash].
      erewrite bind_Ok by (eapply update_ref_cas_run; eassumption).
      reflexivity. }
  destruct Hrun as [args Hrun].
  eexists. split; [exact Hrun|].
  assert (Hlookup : refs (withRef (store repo) ref newCommitHash) !! ref
                    = Some newCommitHash)
    by (cbn [withRef refs]; apply lookup_insert_eq).
  cbn [after store]. repeat split.
  - unfold issued. rewrite Hrun. cbn [snd after trace].
    rewrite drop_app_length. reflexivity.
  - exact Hlookup.
  - intros other Hother. cbn [withRef refs].
    apply lookup_insert_ne. congruence.
  - erewrite GetCommitHash_Some; [reflexivity| |exact Hclean].
    unfold commitAt. cbn [after store]. rewrite Hlookup.
    cbn [withRef commits]. rewrite Hc. reflexivity.
Qed.

Lemma onlyWrites_refl archive s : onlyWrites archive s s.
Proof. repeat split; auto. Qed.

Lemma onlyWrites_new archive s c :
  onlyWrites archive s (withRef (withCommit s c) archive (objectId c)).
Proof.
  repeat split.
  - intros other Hother. cbn [withRef withCommit refs].
    apply lookup_insert_ne. congruence.
  - intros h Hh. cbn [withRef withCommit commits].
    destruct (decide (objectId c = h)) as [->|Hne].
    + rewrite lookup_insert_eq. eauto.
    + rewrite lookup_insert_ne by exact Hne. exact Hh.
Qed.

Lemma onlyWrites_ref archive s h :
  onlyWrites archive s (withRef s archive h).
Proof.
  repeat split; auto.
  intros other Hother. cbn [withRef refs].
  apply lookup_insert_ne. congruence.
Qed.

Lemma Ancestor_new_parent (cs : gmap string Commit) (c : Commit)
      (id parent : string) :
  In parent (cParents c) -> Ancestor (<[id := c]> cs) parent id.
Proof.
  intros Hin. unfold Ancestor. eapply rtc_l; [|apply rtc_refl].
  exists c. split; [apply lookup_insert_eq | exact Hin].
Qed.

(** X3.  [ArchiveRef] only ever adds to the archive: whatever it returns, no
    ref but [archive] changes and no commit is dropped; and when [archive]
    existed, its old tip is still reachable from the tip it has
    afterwards. *)
Theorem ArchiveRef_only_grows repo ref archive :
  wellFormed (store repo) = true ->
  onlyWrites archive (store repo) (store (snd (ArchiveRef ref archive repo)))
  /\ (forall archiveHash,
        refs (store repo) !! archive = Some archiveHash ->
        exists tip,
          refs (store (snd (ArchiveRef ref archive repo))) !! archive
          = Some tip
          /\ Ancestor (commits (store (snd (ArchiveRef ref archive repo))))
                      archiveHash tip).
Proof.
  intros Hwf.
  destruct (commitAt (store repo) ref) as [[refHash c]|] eqn:Hat.
  - pose proof (ArchiveRef_run repo ref archive refHash c Hwf Hat) as Hrun.
    cbv zeta in Hrun. rewrite Hrun. clear Hrun.
    destruct (refs (store repo) !! archive) as [archiveHash|] eqn:Hlocal.
    + destruct (isAncestorOf (commits (store repo)) refHash archiveHash);
        cbn [snd store].
      * split; [apply onlyWrites_refl|].
        intros ? [= <-]. exists archiveHash. split; [exact Hlocal|].
        apply rtc_refl.
      * split; [apply onlyWrites_new|].
        intros ? [= <-]. eexists. split.
        -- cbn [withRef refs]. apply lookup_insert_eq.
        -- cbn [withRef withCommit commits].
           apply Ancestor_new_parent. cbn. auto.
    + cbn [snd store]. split; [apply onlyWrites_new|]. discriminate.
  - destruct (GetCommitHash_None repo ref Hat) as [e He].
    unfold ArchiveRef. erewrite bind_Err by exact He.
    cbn [snd after store]. split; [apply onlyWrites_refl|].
    intros archiveHash Hlocal. exists archiveHash.
    split; [exact Hlocal | apply rtc_refl].
Qed.

Lemma wellFormed_intro (s : Store) :
  (forall ref h, refs s !! ref = Some h ->
                 h <> "" /\ cleanId h = true /\ is_Some (commits s !! h)) ->
  wellFormed s = true.
Proof.
  intros Hall. unfold wellFormed. apply forallb_forall.
  intros [ref h] Hin.
  apply list_elem_of_In, elem_of_map_to_list in Hin.
  destruct (Hall ref h Hin) as (Hne & Hclean & Hc).
  unfold validId. cbn [snd]. rewrite Hclean.
  rewrite bool_decide_eq_true_2 by exact Hc.
  apply String.eqb_neq in Hne. rewrite Hne. reflexivity.
Qed.

Lemma hexString_not_empty (bytes : string) :
  bytes <> "" -> hexString bytes <> "".
Proof. destruct bytes; [congruence|discriminate]. Qed.

(** A well-formed store stays well-formed when [archive] is set to a new
    commit. *)
Lemma wellFormed_new archive s c :
  wellFormed s = true -> objectDigest c <> "" ->
  wellFormed (withRef (withCommit s c) archive (objectId c)) = true.
Proof.
  intros Hwf Hdigest. apply wellFormed_intro. intros ref h.
  cbn [withRef withCommit refs commits].
  destruct (decide (archive = ref)) as [->|Hne].
  - rewrite lookup_insert_eq. intros [= <-].
    split; [apply hexString_not_empty, Hdigest|].
    split; [apply objectId_clean|].
    rewrite lookup_insert_eq. eauto.
  - rewrite lookup_insert_ne by exact Hne. intros Href.
    destruct (wellFormed_lookup _ _ _ Hwf Href) as (Hh & Hclean & c' & Hc').
    split; [exact Hh|]. split; [exact Hclean|].
    destruct (decide (objectId c = h)) as [->|Hne'].
    + rewrite lookup_insert_eq. eauto.
    + rewrite lookup_insert_ne by exact Hne'. eauto.
Qed.

(** X4.  [ArchiveRef] is idempotent: once it has succeeded, running it again
    with the same arguments succeeds, creates no commit, writes no ref and
    leaves the store as it is.  (Object ids are digests, never empty.) *)
Theorem ArchiveRef_idempotent repo repo' ref archive :
  (forall c, objectDigest c <> "") ->
  wellFormed (store repo) = true ->
  ArchiveRef ref archive repo = (Ok tt, repo') ->
  outcome (ArchiveRef ref archive) repo' = (Ok tt, store repo')
  /\ Forall (fun args => isArchiveWrite args = false)
            (issued (ArchiveRef ref archive) repo').
Proof.
  intros Hdigest Hwf Hok.
  destruct (commitAt (store repo) ref) as [[refHash c]|] eqn:Hat.
  2:{ destruct (GetCommitHash_None repo ref Hat) as [e He].
      unfold ArchiveRef in Hok. erewrite bind_Err in Hok by exact He.
      discriminate. }
  destruct (commitAt_refs _ _ _ _ Hat) as [Href Hc].
  pose proof (ArchiveRef_run repo ref archive refHash c Hwf Hat) as Hrun.
  cbv zeta in Hrun. rewrite Hok in Hrun.
  (* the store after the first run: well-formed, [ref] still at [refHash],
     and [refHash] an ancestor of the tip of [archive] *)
  assert (Hafter :
    wellFormed (store repo') = true
    /\ (exists c', commitAt (store repo') ref = Some (refHash, c'))
    /\ exists tip,
         refs (store repo') !! archive = Some tip
         /\ isAncestorOf (commits (store repo')) refHash tip = true).
  { assert (Hnew : forall parents,
              In refHash parents ->
              (refs (store repo) !! archive = None
               \/ ref <> archive) ->
              let new := archiveCommit parents refHash (cTree c) in
              let s' := withRef (withCommit (store repo) new) archive
                                (objectId new) in
              wellFormed s' = true
              /\ (exists c', commitAt s' ref = Some (refHash, c'))
              /\ exists tip,
                   refs s' !! archive = Some tip
                   /\ isAncestorOf (commits s') refHash tip = true).
    { intros parents Hin Hother new s'. subst s'.
      assert (Hdiff : archive <> ref).
      { destruct Hother as [Hnone|Hne]; [|congruence].
        intros ->. congruence. }
      split; [apply wellFormed_new; [exact Hwf | apply Hdigest]|].
      assert (Hstored : exists c',
                 <[objectId new := new]> (commits (store repo)) !! refHash
                 = Some c').
      { destruct (decide (objectId new = refHash)) as [->|Hne'].
        - rewrite lookup_insert_eq. eauto.
        - rewrite lookup_insert_ne by exact Hne'. eauto. }
      destruct Hstored as [c' Hc'].
      split.
      - exists c'. unfold commitAt. cbn [withRef withCommit refs commits].
        rewrite lookup_insert_ne by exact Hdiff. rewrite Href, Hc'.
        reflexivity.
      - eexists. split.
        + cbn [withRef refs]. apply lookup_insert_eq.
        + cbn [withRef withCommit commits].
          eapply isAncestorOf_parent;
            [exact Hc' | apply lookup_insert_eq | exact Hin]. }
    destruct (refs (store repo) !! archive) as [archiveHash|] eqn:Hlocal.
    - destruct (isAncestorOf (commits (store repo)) refHash archiveHash)
        eqn:Hanc; injection Hrun as ->; cbn [store].
      + split; [exact Hwf|]. split; [eauto|]. eauto.
      + apply Hnew; [cbn; auto|]. right. intros ->.
        assert (archiveHash = refHash) as -> by congruence.
        destruct (wellFormed_lookup _ _ _ Hwf Href) as (_ & _ & ? & ?).
        rewrite (isAncestorOf_true _ _ _ c c) in Hanc;
          [discriminate | assumption | assumption | apply rtc_refl].
    - injection Hrun as ->; cbn [store].
      apply Hnew; [cbn; auto | left; reflexivity]. }
  destruct Hafter as (Hwf' & [c' Hat'] & tip & Htip & Hanc).
  pose proof (ArchiveRef_run repo' ref archive refHash c' Hwf' Hat') as Hrun'.
  cbv zeta in Hrun'. rewrite Htip, Hanc in Hrun'.
  rewrite <- !app_assoc in Hrun'.
  apply issued_eq in Hrun' as [-> ->].
  split; [reflexivity|].
  unfold showDetails, showHash. cbn [List.map app].
  repeat constructor.
Qed.

(** X6.  [mergeArchives] loses nothing.  On a well-formed repository,
    whatever it returns, it changes no ref but the local one and drops no
    commit, and the old tip of the local ref (if there was one) is
    reachable from the tip the local ref has afterwards; and when it
    returns no error and the remote ref exists, the tip of the remote ref
    is reachable from it too. *)
Theorem mergeArchives_keeps_tips repo archive remoteArchive :
  wellFormed (store repo) = true ->
  let merged := store (snd (mergeArchives archive remoteArchive repo)) in
  onlyWrites archive (store repo) merged
  /\ (forall archiveHash,
        refs (store repo) !! archive = Some archiveHash ->
        exists tip,
          refs merged !! archive = Some tip
          /\ Ancestor (commits merged) archiveHash tip)
  /\ (fst (mergeArchives archive remoteArchive repo) = Ok tt ->
      forall remoteHash,
        refs (store repo) !! remoteArchive = Some remoteHash ->
        exists tip,
          refs merged !! archive = Some tip
          /\ Ancestor (commits merged) remoteHash tip).
Proof.
  intros Hwf merged. subst merged.
  pose proof (mergeArchives_run repo archive remoteArchive Hwf) as Hrun.
  cbv zeta in Hrun. rewrite Hrun. clear Hrun.
  pose proof (commitAt_wellFormed (store repo) remoteArchive Hwf) as Hremote.
  destruct (refs (store repo) !! remoteArchive) as [remoteHash|] eqn:Href.
  2:{ rewrite Hremote. cbn [fst snd store].
      split; [apply onlyWrites_refl|]. split; [|discriminate].
      intros archiveHash Hlocal. exists archiveHash.
      split; [exact Hlocal | apply rtc_refl]. }
  destruct Hremote as (rc & -> & Hrc & _ & _).
  destruct (refs (store repo) !! archive) as [archiveHash|] eqn:Hlocal.
  - destruct (isAncestorOf (commits (store repo)) archiveHash remoteHash)
      eqn:Hanc; cbn [fst snd store].
    + split; [apply onlyWrites_ref|]. split.
      * intros ? [= <-]. exists remoteHash.
        split; [cbn [withRef refs]; apply lookup_insert_eq|].
        cbn [withRef commits]. apply isAncestorOf_spec in Hanc. tauto.
      * intros _ ? [= <-]. exists remoteHash.
        split; [cbn [withRef refs]; apply lookup_insert_eq | apply rtc_refl].
    + split; [apply onlyWrites_new|]. split.
      * intros ? [= <-]. eexists.
        split; [cbn [withRef refs]; apply lookup_insert_eq|].
        cbn [withRef withCommit commits].
        apply Ancestor_new_parent. cbn. auto.
      * intros _ ? [= <-]. eexists.
        split; [cbn [withRef refs]; apply lookup_insert_eq|].
        cbn [withRef withCommit commits].
        apply Ancestor_new_parent. cbn. auto.
  - cbn [fst snd store].
    split; [apply onlyWrites_ref|]. split; [discriminate|].
    intros _ ? [= <-]. exists remoteHash.
    split; [cbn [withRef refs]; apply lookup_insert_eq | apply rtc_refl].
Qed.

End PortProperties.

(** ** Ref names, ref listings and the steps of a pull *)

Section SyncProperties.
Import repository.
Context `{GitBackend}.

Lemma substring_all (s : string) :
  String.substring 0 (String.length s) s = s.
Proof. induction s as [|c s IH]; [reflexivity|]. cbn. rewrite IH. reflexivity. Qed.

Lemma length_append (a b : string) :
  String.length (a ++ b) = String.length a + String.length b.
Proof.
  induction a as [|c a IH]; [reflexivity|].
  rewrite append_cons. cbn [String.length]. rewrite IH. reflexivity.
Qed.

Lemma HasPrefix_append (pre s : string) :
  strings.HasPrefix (pre ++ s) pre = true.
Proof.
  unfold strings.HasPrefix.
  induction pre as [|c pre IH]; [destruct s; reflexivity|].
  rewrite append_cons. cbn [String.prefix].
  destruct (ascii_dec c c); [exact IH|congruence].
Qed.

Lemma TrimPrefix_append (pre s : string) :
  strings.TrimPrefix (pre ++ s) pre = s.
Proof.
  unfold strings.TrimPrefix. rewrite HasPrefix_append, length_append.
  replace (String.length pre + String.length s - String.length pre)
    with (String.length s) by lia.
  induction pre as [|c pre IH]; [apply substring_all|].
  rewrite append_cons. cbn [String.length String.substring]. exact IH.
Qed.

Lemma HasPrefix_split (s pre : string) :
  strings.HasPrefix s pre = true -> pre ++ strings.TrimPrefix s pre = s.
Proof.
  intros Hprefix.
  assert (Hs : exists rest, s = pre ++ rest).
  { clear -Hprefix. unfold strings.HasPrefix in Hprefix. revert s Hprefix.
    induction pre as [|c pre IH]; intros s Hprefix; [exists s; reflexivity|].
    destruct s as [|d s]; [discriminate|]. cbn [String.prefix] in Hprefix.
    destruct (ascii_dec c d) as [->|]; [|discriminate].
    destruct (IH s Hprefix) as [rest ->]. exists rest. reflexivity. }
  destruct Hs as [rest ->]. rewrite TrimPrefix_append. reflexivity.
Qed.

(** X8.  The names of the local notes refs and of their remote-tracking refs
    correspond one to one: a ref under [refs/notes/] comes back from its
    remote-tracking name, and a ref under [refs/notes/remotes/<remote>/]
    from its local name. *)
Theorem notes_ref_round_trip (remote : string) :
  (forall localNotesRef,
      strings.HasPrefix localNotesRef notesRefPrefix = true ->
      getLocalNotesRef remote (getRemoteNotesRef remote localNotesRef)
      = localNotesRef)
  /\ (forall remoteNotesRef,
         strings.HasPrefix remoteNotesRef
                           (notesRefPrefix ++ "remotes/" ++ remote ++ "/")
         = true ->
         getRemoteNotesRef remote (getLocalNotesRef remote remoteNotesRef)
         = remoteNotesRef).
Proof.
  split.
  - intros localNotesRef Hprefix. unfold getLocalNotesRef, getRemoteNotesRef.
    replace (notesRefPrefix ++ "remotes/" ++ remote ++ "/"
             ++ strings.TrimPrefix localNotesRef notesRefPrefix)
      with ((notesRefPrefix ++ "remotes/" ++ remote ++ "/")
            ++ strings.TrimPrefix localNotesRef notesRefPrefix)
      by (rewrite !append_assoc; reflexivity).
    rewrite TrimPrefix_append. apply HasPrefix_split, Hprefix.
  - intros remoteNotesRef Hprefix. unfold getLocalNotesRef, getRemoteNotesRef.
    rewrite TrimPrefix_append.
    replace (notesRefPrefix ++ "remotes/" ++ remote ++ "/"
             ++ strings.TrimPrefix remoteNotesRef
                  (notesRefPrefix ++ "remotes/" ++ remote ++ "/"))
      with ((notesRefPrefix ++ "remotes/" ++ remote ++ "/")
            ++ strings.TrimPrefix remoteNotesRef
                 (notesRefPrefix ++ "remotes/" ++ remote ++ "/"))
      by (rewrite !append_assoc; reflexivity).
    apply HasPrefix_split, Hprefix.
Qed.

(** X9.  The same for the devtools refs: [refs/devtools/...] and
    [refs/remoteDevtools/<remote>/...]. *)
Theorem devtools_ref_round_trip (remote : string) :
  (forall devtoolsRef,
      strings.HasPrefix devtoolsRef devtoolsRefPrefix = true ->
      getLocalDevtoolsRef remote (getRemoteDevtoolsRef remote devtoolsRef)
      = devtoolsRef)
  /\ (forall remoteDevtoolsRef,
         strings.HasPrefix remoteDevtoolsRef
                           (remoteDevtoolsRefPrefix ++ remote ++ "/") = true ->
         getRemoteDevtoolsRef remote
                              (getLocalDevtoolsRef remote remoteDevtoolsRef)
         = remoteDevtoolsRef).
Proof.
  split.
  - intros devtoolsRef Hprefix.
    unfold getLocalDevtoolsRef, getRemoteDevtoolsRef.
    replace (remoteDevtoolsRefPrefix ++ remote ++ "/"
             ++ strings.TrimPrefix devtoolsRef devtoolsRefPrefix)
      with ((remoteDevtoolsRefPrefix ++ remote ++ "/")
            ++ strings.TrimPrefix devtoolsRef devtoolsRefPrefix)
      by (rewrite !append_assoc; reflexivity).
    rewrite TrimPrefix_append. apply HasPrefix_split, Hprefix.
  - intros remoteDevtoolsRef Hprefix.
    unfold getLocalDevtoolsRef, getRemoteDevtoolsRef.
    rewrite TrimPrefix_append.
    replace (remoteDevtoolsRefPrefix ++ remote ++ "/"
             ++ strings.TrimPrefix remoteDevtoolsRef
                  (remoteDevtoolsRefPrefix ++ remote ++ "/"))
      with ((remoteDevtoolsRefPrefix ++ remote ++ "/")
            ++ strings.TrimPrefix remoteDevtoolsRef
                 (remoteDevtoolsRefPrefix ++ remote ++ "/"))
      by (rewrite !append_assoc; reflexivity).
    apply HasPrefix_split, Hprefix.
Qed.

(** X10.  [getRefHashes] on a tidy store: it runs one [show-ref], leaves the
    store as it is, and returns the map that holds a ref with its hash
    exactly when the ref is under the prefix of the pattern. *)
Theorem getRefHashes_refs_under_prefix (refPattern : string) repo :
  strings.HasSuffix refPattern "/*" = true ->
  tidyRefs (store repo) = true ->
  exists refsMap,
    getRefHashes refPattern repo
    = (Ok refsMap, after repo (store repo) ["show-ref"])
    /\ forall ref hash,
         refsMap !! ref = Some hash
         <-> strings.HasPrefix ref (strings.TrimSuffix refPattern "*") = true
             /\ refs (store repo) !! ref = Some hash.
Proof.
  intros Hsuffix Htidy. eexists.
  split; [apply getRefHashes_run; assumption|].
  intros ref hash. unfold refsUnder.
  rewrite map_lookup_filter_Some. cbn [fst]. tauto.
Qed.

(** X11.  The two ways [getRefHashes] fails: a pattern that does not end in
    [/*] is refused before git is run; and in a repository without any
    ref [show-ref] exits with status 1, which comes back as an error, not
    as an empty map. *)
Theorem getRefHashes_errors (refPattern : string) repo :
  (strings.HasSuffix refPattern "/*" = false ->
   getRefHashes refPattern repo
   = (Err ("unsupported ref pattern " ++ quoted refPattern), repo))
  /\ (strings.HasSuffix refPattern "/*" = true ->
      refs (store repo) = ∅ ->
      getRefHashes refPattern repo
      = (Err "Error running git command: show-ref",
         after repo (store repo) ["show-ref"])).
Proof.
  split.
  - intros Hsuffix. unfold getRefHashes. rewrite Hsuffix. reflexivity.
  - intros Hsuffix Hempty. unfold getRefHashes. rewrite Hsuffix.
    cbn [negb]. unfold bind at 1.
    unfold runGitCommand, bind, runGitCommandRaw.
    cbv [git]. cbn [String.eqb Ascii.eqb Bool.eqb]. unfold git_show_ref.
    rewrite Hempty, map_to_list_empty. reflexivity.
Qed.

(** X12.  [FetchAndReturnNewReviewHashes] refuses a devtools ref pattern that is
    not under [refs/devtools/] before it runs any git command: nothing is
    read and nothing is fetched. *)
Theorem FetchAndReturnNewReviewHashes_unsupported
        (remote notesRefPattern : string) (devtoolsRefPatterns : list string)
        (refPattern : string) repo :
  In refPattern devtoolsRefPatterns ->
  strings.HasPrefix refPattern devtoolsRefPrefix = false ->
  exists unsupported,
    In unsupported devtoolsRefPatterns
    /\ strings.HasPrefix unsupported devtoolsRefPrefix = false
    /\ FetchAndReturnNewReviewHashes remote notesRefPattern
                                     devtoolsRefPatterns repo
       = (Err ("Unsupported devtools ref: " ++ quoted unsupported), repo).
Proof.
  intros Hin Hprefix. unfold FetchAndReturnNewReviewHashes.
  destruct (List.find _ devtoolsRefPatterns) as [unsupported|] eqn:Hfind.
  - apply find_some in Hfind as [Hin' Hbad].
    apply negb_true_iff in Hbad. exists unsupported. auto.
  - apply (find_none _ _ Hfind) in Hin. rewrite Hprefix in Hin.
    discriminate.
Qed.

Lemma runGitCommandInline_failure args repo code msg s' :
  git args (store repo) = (failure code msg, s') ->
  exists e, runGitCommandInline args repo = (Err e, after repo s' args).
Proof.
  intros Hgit. unfold runGitCommandInline, bind, runGitCommandRaw.
  rewrite Hgit. cbn. eauto.
Qed.

Lemma wrapErr_Err {A} (context : string) (m : M A) repo e repo' :
  m repo = (Err e, repo') ->
  wrapErr context m repo = (Err (context ++ ": " ++ e), repo').
Proof. intros Hm. unfold wrapErr. rewrite Hm. reflexivity. Qed.

(** X13.  A pull whose fetch fails stops there: on a tidy store it has run
    [show-ref] and the fetch, it returns an error, the store is as before
    and no archive or notes merge has been attempted. *)
Theorem PullNotesAndArchive_failed_fetch
        (remote notesRefPattern archiveRefPattern : string) repo :
  strings.HasPrefix archiveRefPattern devtoolsRefPrefix = true ->
  strings.HasSuffix (getRemoteNotesRef remote notesRefPattern) "/*" = true ->
  tidyRefs (store repo) = true ->
  fetchEffect remote
    ["+" ++ notesRefPattern ++ ":" ++ getRemoteNotesRef remote notesRefPattern;
     "+" ++ (devtoolsRefPrefix ++ "*") ++ ":"
     ++ getRemoteDevtoolsRef remote (devtoolsRefPrefix ++ "*")]
    (store repo) = None ->
  exists e,
    outcome (PullNotesAndArchive remote notesRefPattern archiveRefPattern)
            repo = (Err e, store repo)
    /\ issued (PullNotesAndArchive remote notesRefPattern archiveRefPattern)
              repo
       = [["show-ref"];
          ["fetch"; remote;
           "+" ++ notesRefPattern ++ ":"
           ++ getRemoteNotesRef remote notesRefPattern;
           "+" ++ (devtoolsRefPrefix ++ "*") ++ ":"
           ++ getRemoteDevtoolsRef remote (devtoolsRefPrefix ++ "*")]].
Proof.
  intros Hpattern Hsuffix Htidy Hfetch.
  assert (Hgit : exists e,
    Fetch remote
      ["+" ++ notesRefPattern ++ ":"
       ++ getRemoteNotesRef remote notesRefPattern;
       "+" ++ (devtoolsRefPrefix ++ "*") ++ ":"
       ++ getRemoteDevtoolsRef remote (devtoolsRefPrefix ++ "*")]
      (after repo (store repo) ["show-ref"])
    = (Err e,
       after (after repo (store repo) ["show-ref"]) (store repo)
         ["fetch"; remote;
          "+" ++ notesRefPattern ++ ":"
          ++ getRemoteNotesRef remote notesRefPattern;
          "+" ++ (devtoolsRefPrefix ++ "*") ++ ":"
          ++ getRemoteDevtoolsRef remote (devtoolsRefPrefix ++ "*")])).
  { unfold Fetch. cbn [app].
    eapply runGitCommandInline_failure.
    cbv [git]. cbn [String.eqb Ascii.eqb Bool.eqb].
    unfold git_fetch. cbn [after store]. rewrite Hfetch. reflexivity. }
  destruct Hgit as [e Hgit].
  assert (Hfirst : exists e',
    FetchAndReturnNewReviewHashes remote notesRefPattern [archiveRefPattern]
                                  repo
    = (Err e',
       after (after repo (store repo) ["show-ref"]) (store repo)
         ["fetch"; remote;
          "+" ++ notesRefPattern ++ ":"
          ++ getRemoteNotesRef remote notesRefPattern;
          "+" ++ (devtoolsRefPrefix ++ "*") ++ ":"
          ++ getRemoteDevtoolsRef remote (devtoolsRefPrefix ++ "*")])).
  { unfold FetchAndReturnNewReviewHashes.
    cbn [List.find]. rewrite Hpattern. cbn [negb].
    erewrite bind_Ok
      by (apply wrapErr_Ok, getRefHashes_run; [exact Hsuffix|exact Htidy]).
    erewrite bind_Err by (apply wrapErr_Err; exact Hgit).
    eauto. }
  destruct Hfirst as [e' Hfirst].
  eexists. apply and_comm, issued_eq.
  unfold PullNotesAndArchive.
  erewrite bind_Err by (apply wrapErr_Err; exact Hfirst).
  unfold after. cbn [store trace]. rewrite <- app_assoc. reflexivity.
Qed.

End SyncProperties.

(** ** The details of a commit, and a pull of the notes alone *)

Section DetailsProperties.
Import repository.
Context `{GitBackend}.

Lemma concat_cons (sep a b : string) (rest : list string) :
  String.concat sep (a :: b :: rest)
  = a ++ sep ++ String.concat sep (b :: rest).
Proof. reflexivity. Qed.

Lemma concat_not_empty (sep a : string) (rest : list string) :
  a <> "" -> String.concat sep (a :: rest) <> "".
Proof.
  intros Ha. destruct rest; [exact Ha|].
  rewrite concat_cons. apply append_not_empty, Ha.
Qed.

(** Ids joined by single spaces survive the trimming of [runGitCommand]
    and split back into the ids. *)
Lemma TrimRight_joined (ids : list string) :
  Forall (fun id => cleanPath id = true) ids ->
  strings.TrimRight (strings.Join ids " ") = strings.Join ids " ".
Proof.
  unfold strings.Join.
  induction 1 as [|id [|next rest] Hid Hrest IH]; [reflexivity| |].
  - apply TrimRight_clean. apply cleanPath_inv in Hid. tauto.
  - rewrite concat_cons.
    assert (Hnext : String.concat " " (next :: rest) <> "").
    { inversion Hrest; subst.
      apply concat_not_empty, cleanPath_not_empty. assumption. }
    assert (Hspace : strings.TrimRight (" " ++ String.concat " " (next :: rest))
                     = " " ++ String.concat " " (next :: rest)).
    { change (" " ++ String.concat " " (next :: rest))
        with (String " " (String.concat " " (next :: rest))).
      cbn [strings.TrimRight]. rewrite IH.
      destruct (String.concat " " (next :: rest)); [congruence|reflexivity]. }
    rewrite TrimRight_app; rewrite Hspace; [reflexivity|discriminate].
Qed.

Lemma TrimSpace_joined_line (ids : list string) :
  Forall (fun id => cleanPath id = true) ids ->
  strings.TrimSpace (strings.Join ids " " ++ newline) = strings.Join ids " ".
Proof.
  intros Hall. unfold strings.TrimSpace.
  destruct Hall as [|id rest Hid Hrest]; [reflexivity|].
  assert (Hleft : strings.TrimLeft (strings.Join (id :: rest) " " ++ newline)
                  = strings.Join (id :: rest) " " ++ newline).
  { destruct (cleanPath_inv _ Hid) as [_ (c & r & -> & Hc)].
    unfold strings.Join.
    destruct rest; [|rewrite concat_cons]; cbn [String.concat];
      rewrite !append_cons; cbn [strings.TrimLeft]; rewrite Hc; reflexivity. }
  rewrite Hleft, TrimRight_app_blank by reflexivity.
  apply TrimRight_joined. constructor; assumption.
Qed.

Lemma Split_joined (ids : list string) :
  ids <> [] ->
  Forall (fun id => cleanPath id = true) ids ->
  strings.Split (strings.Join ids " ") " " = ids.
Proof.
  intros Hne Hall. unfold strings.Join.
  induction Hall as [|id [|next rest] Hid Hrest IH]; [congruence| |].
  - apply Split_field; [reflexivity|]. apply cleanPath_inv in Hid. tauto.
  - rewrite concat_cons.
    change (id ++ " " ++ String.concat " " (next :: rest))
      with (id ++ String " " (String.concat " " (next :: rest))).
    rewrite Split_app_field, IH by
      (discriminate || (apply Split_field; [reflexivity|];
                        apply cleanPath_inv in Hid; tauto)).
    reflexivity.
Qed.

(** X16.  [GetCommitDetails] of a ref that resolves to a commit runs seven
    [show] commands, leaves the store as it is, and reports the tree of
    the commit and its parents in order -- except that for a commit
    without parents the list of parents holds one empty string, the
    result of splitting the empty output. *)
Theorem GetCommitDetails_parents repo ref h c :
  commitAt (store repo) ref = Some (h, c) ->
  Forall (fun parent => cleanPath parent = true) (cParents c) ->
  exists details,
    GetCommitDetails ref repo
    = (Ok details, mkGitRepo (store repo) (trace repo ++ showDetails ref))
    /\ Tree details = cTree c
    /\ Parents details = match cParents c with
                         | [] => [""]
                         | parents => parents
                         end.
Proof.
  intros Hat Hparents. unfold GetCommitDetails.
  eexists. split; [|split].
  - erewrite bind_Ok by (apply (show_run _ _ _ h c Hat)).
    unfold unmarshalTreeAndTime at 1.
    unfold bind at 1. cbn [store after]. rewrite Hat.
    repeat (erewrite bind_Ok by (apply (show_run _ _ _ h c); exact Hat);
            cbn [store after]).
    unfold ret, after, showDetails. cbn [trace store List.map].
    rewrite <- !app_assoc. reflexivity.
  - reflexivity.
  - cbn [Parents].
    change (formatCommit ("--format=tformat:" ++ "%P") h c)
      with (strings.Join (cParents c) " ").
    rewrite (TrimSpace_joined_line _ Hparents).
    destruct (cParents c) as [|parent rest] eqn:Hc; [reflexivity|].
    apply Split_joined; [discriminate|exact Hparents].
Qed.


End DetailsProperties.

(** ** The comment and accept commands *)

Section CommandFacts.
Import commands.

(** Induction on a thread with the hypothesis for each of its children. *)
Lemma CommentThread_nested_ind (P : CommentThread -> Prop) :
  (forall hash comment children,
      Forall P children -> P (mkCommentThread hash comment children)) ->
  forall thread, P thread.
Proof.
  intros Hstep. fix IH 1. intros [hash comment children].
  apply Hstep. induction children as [|child rest IHrest].
  - constructor.
  - constructor; [apply IH | exact IHrest].
Qed.

(** The equation of the source: the thread, then its children, then the
    remaining threads. *)
Lemma commentHashExists_cons hashToFind hash comment children rest :
  commentHashExists hashToFind (mkCommentThread hash comment children :: rest)
  = if String.eqb hash hashToFind then true
    else if commentHashExists hashToFind children then true
         else commentHashExists hashToFind rest.
Proof.
  cbn [commentHashExists threadHashExists].
  destruct (String.eqb hash hashToFind); [reflexivity|].
  assert (Hloop :
    (fix loop (threads : list CommentThread) : bool :=
       match threads with
       | [] => false
       | child :: rest0 =>
           if threadHashExists hashToFind child then true else loop rest0
       end) children = commentHashExists hashToFind children).
  { induction children as [|child rest0 IHc]; [reflexivity|].
    cbn [commentHashExists]. rewrite IHc. reflexivity. }
  rewrite Hloop. reflexivity.
Qed.

Lemma commentHashExists_complete hashToFind threads :
  InThreads hashToFind threads -> commentHashExists hashToFind threads = true.
Proof.
  induction 1 as [c children rest | h' c children rest _ IH | [h' c children] rest _ IH];
    rewrite commentHashExists_cons.
  - rewrite String.eqb_refl. reflexivity.
  - rewrite IH. destruct (String.eqb h' hashToFind); reflexivity.
  - rewrite IH.
    destruct (String.eqb h' hashToFind); [reflexivity|].
    destruct (commentHashExists hashToFind children); reflexivity.
Qed.

Lemma commentHashExists_sound hashToFind threads :
  commentHashExists hashToFind threads = true -> InThreads hashToFind threads.
Proof.
  assert (Hthread : forall thread rest,
             commentHashExists hashToFind [thread] = true ->
             InThreads hashToFind (thread :: rest)).
  { apply (CommentThread_nested_ind
             (fun t => forall rest,
                  commentHashExists hashToFind [t] = true ->
                  InThreads hashToFind (t :: rest))).
    intros hash comment children IHc rest.
    rewrite commentHashExists_cons.
    destruct (String.eqb_spec hash hashToFind) as [->|Hne];
      [intros _; constructor|].
    destruct (commentHashExists hashToFind children) eqn:Hc;
      [intros _|cbn; discriminate].
    apply InThreads_child.
    clear Hne. induction children as [|[h1 c1 ch1] rest1 IHrest1];
      [discriminate|].
    inversion IHc as [|? ? Hhead Htail]; subst.
    rewrite commentHashExists_cons in Hc.
    destruct (String.eqb h1 hashToFind) eqn:Heq1.
    - apply Hhead. rewrite commentHashExists_cons, Heq1. reflexivity.
    - destruct (commentHashExists hashToFind ch1) eqn:Hch1.
      + apply Hhead. rewrite commentHashExists_cons, Heq1, Hch1. reflexivity.
      + apply InThreads_next. apply IHrest1; assumption. }
  induction threads as [|[h c ch] rest IH]; [discriminate|].
  rewrite commentHashExists_cons.
  destruct (String.eqb h hashToFind) eqn:Heq.
  - intros _. apply Hthread. rewrite commentHashExists_cons, Heq. reflexivity.
  - destruct (commentHashExists hashToFind ch) eqn:Hch.
    + intros _. apply Hthread.
      rewrite commentHashExists_cons, Heq, Hch. reflexivity.
    + intros Hrest. apply InThreads_next, IH, Hrest.
Qed.

Context `{Env}.

(** The three rejections of [validateArgs]. *)
Lemma validateArgs_rejects repo flags args threads :
  commentLgtm flags && commentNmw flags = true
  \/ (commentParent flags <> ""
      /\ ~ InThreads (commentParent flags) threads)
  \/ (commentMessageFile flags = "" /\ commentMessage flags = ""
      /\ forall message,
           input_LaunchEditor repo commentFilename = Ok message ->
           message = "") ->
  exists e, validateArgs repo flags args threads = Err e.
Proof.
  intros Hbad. unfold validateArgs.
  destruct (commentLgtm flags && commentNmw flags) eqn:Hboth; [eauto|].
  destruct Hbad as [Hboth'|[[Hparent Hnot]|(Hfile & Hmessage & Heditor)]];
    [discriminate| |].
  - apply String.eqb_neq in Hparent. rewrite Hparent.
    destruct (commentHashExists (commentParent flags) threads) eqn:Hexists.
    + apply commentHashExists_sound in Hexists. contradiction.
    + cbn [negb andb]. eauto.
  - destruct (negb (String.eqb (commentParent flags) "")
              && negb (commentHashExists (commentParent flags) threads));
      [eauto|].
    rewrite Hfile, Hmessage. cbn [String.eqb negb andb].
    rewrite Hfile, Hmessage. cbn [String.eqb andb].
    destruct (input_LaunchEditor repo commentFilename) as [message|e] eqn:Hed;
      [|eauto].
    rewrite (Heditor message eq_refl).
    unfold withCommentMessage. cbn [commentMessageFile commentMessage].
    rewrite Hfile. cbn [String.eqb andb]. eauto.
Qed.

(** C6, as amended.  The comment command returns an error and leaves the
    repository as it was whenever both -lgtm and -nmw are set, or the given
    parent hash is not the hash of any comment, at any depth, of the
    threads in scope, or no message file is named, -m is empty and the
    editor yields no non-empty message. *)
Theorem commentCmd_rejects_without_mutation repo flags args :
  commentLgtm flags && commentNmw flags = true
  \/ (commentParent flags <> ""
      /\ ~ InThreads (commentParent flags) (threadsInScope repo flags args))
  \/ (commentMessageFile flags = "" /\ commentMessage flags = ""
      /\ forall message,
           input_LaunchEditor repo commentFilename = Ok message ->
           message = "") ->
  exists e, commentCmd repo flags args = (Err e, repo).
Proof.
  intros Hbad. unfold commentCmd, threadsInScope in *.
  destruct (commentDetached flags).
  - unfold commentOnPath.
    destruct (String.eqb (commentFile flags) ""); [eauto|].
    destruct (1 <? length args)%nat; [eauto|].
    destruct (ResolveRefCommit repo _); [|eauto].
    destruct (review_GetDetachedComments repo (commentFile flags))
      as [threads|e]; [|eauto].
    destruct (validateArgs_rejects repo flags args threads Hbad) as [e ->].
    eauto.
  - unfold commentOnReview.
    destruct (1 <? length args)%nat; [eauto|].
    destruct (loadReview repo args) as [[r|]|e]; [|eauto..].
    destruct (validateArgs_rejects repo flags args (Comments r) Hbad)
      as [e ->].
    eauto.
Qed.

(** [validateArgs] only ever fills in the message. *)
Lemma validateArgs_flags repo flags args threads flags' :
  validateArgs repo flags args threads = Ok flags' ->
  exists message, flags' = withCommentMessage flags message.
Proof.
  assert (Hsame : flags = withCommentMessage flags (commentMessage flags))
    by (destruct flags; reflexivity).
  unfold validateArgs.
  destruct (commentLgtm flags && commentNmw flags); [discriminate|].
  destruct (negb (String.eqb (commentParent flags) "")
            && negb (commentHashExists (commentParent flags) threads));
    [discriminate|].
  destruct (negb (String.eqb (commentMessageFile flags) "")
            && String.eqb (commentMessage flags) "");
    [destruct (input_FromFile (commentMessageFile flags)) as [fromFile|e];
       [|discriminate]|];
    cbn [withCommentMessage commentMessageFile commentMessage];
    (destruct (String.eqb (commentMessageFile flags) "" && String.eqb _ "");
     [destruct (input_LaunchEditor repo commentFilename) as [edited|e];
        [|discriminate]|]);
    cbn [withCommentMessage commentMessageFile commentMessage];
    try (destruct (String.eqb (commentMessageFile flags) ""
                   && String.eqb _ ""); [discriminate|]);
    intros [= <-]; eauto.
Qed.

(** The counterpart for [comment -lgtm] on a review: what it appends is
    also a comment with Resolved set to true at the head commit of the
    review. *)
Lemma commentOnReview_lgtm repo flags args :
  commentLgtm flags = true ->
  (exists e, commentOnReview repo flags args = (Err e, repo))
  \/ (exists r head c location,
        loadReview repo args = Ok (Some r)
        /\ GetHeadCommit repo r = Ok head
        /\ commentOnReview repo flags args = AddComment r c repo
        /\ Resolved c = Some true
        /\ CommentLocation c = Some location
        /\ Commit location = head).
Proof.
  intros Hlgtm. unfold commentOnReview.
  destruct (1 <? length args)%nat; [left; eauto|].
  destruct (loadReview repo args) as [[r|]|e] eqn:Hload; [|left; eauto..].
  destruct (validateArgs repo flags args (Comments r)) as [flags'|e]
    eqn:Hvalid; [|left; eauto].
  apply validateArgs_flags in Hvalid as [message ->].
  destruct (GetHeadCommit repo r) as [head|e] eqn:Hhead; [|left; eauto].
  unfold buildCommentFromFlags.
  cbn [withCommentMessage commentFile commentLocation commentDate
       commentMessage commentParent commentLgtm commentNmw commentSign
       Commit Path LocationRange].
  rewrite Hlgtm. cbn [orb].
  destruct (location_Check repo _) as [[]|e]; [|left; eauto].
  destruct (GetUserEmail repo) as [userEmail|e]; [|left; eauto].
  destruct (GetDate _) as [date|e]; [|left; eauto].
  destruct (commentSign flags);
    [destruct (GetUserSigningKey repo) as [key|e]; [|left; eauto];
     unfold gpg_Sign; destruct (detachSign key _) as [sig|e]; [|left; eauto]
    |];
    right; exists r, head;
    destruct (0 <? String.length _)%nat;
    destruct (negb (String.eqb (commentFile flags) ""));
    do 2 eexists; repeat split; first [exact Hhead | reflexivity].
Qed.

(** C7.  [acceptReview] is the addition of an LGTM comment.  Whatever it
    appends is a comment with Resolved set to true whose location is the
    head commit of the review: either it returns an error before it
    appends anything, or it is exactly [AddComment] of such a comment to
    the loaded review.  And it does append: for at most one argument, when
    the review is found, its head commit and the e-mail of the user are
    known, the message file (if one is to be read) can be read, the date
    parses and the signature (if asked for) can be made, [acceptReview] is
    [AddComment] of a comment whose Resolved is true and whose location is
    the head commit, with no path and no range. *)
Theorem acceptReview_appends_lgtm repo flags args :
  ((exists e, acceptReview repo flags args = (Err e, repo))
   \/ (exists r head c location,
         loadReview repo args = Ok (Some r)
         /\ GetHeadCommit repo r = Ok head
         /\ acceptReview repo flags args = AddComment r c repo
         /\ Resolved c = Some true
         /\ CommentLocation c = Some location
         /\ Commit location = head))
  /\ (forall r head userEmail,
        (List.length args <= 1)%nat ->
        loadReview repo args = Ok (Some r) ->
        GetHeadCommit repo r = Ok head ->
        GetUserEmail repo = Ok userEmail ->
        acceptMessageFile flags = "" \/ acceptMessage flags <> ""
        \/ isErr (input_FromFile (acceptMessageFile flags)) = false ->
        isErr (GetDate (acceptDate flags)) = false ->
        acceptSign flags = false
        \/ (exists key,
              GetUserSigningKey repo = Ok key
              /\ forall c, isErr (detachSign key c) = false) ->
        exists c,
          acceptReview repo flags args = AddComment r c repo
          /\ Resolved c = Some true
          /\ CommentLocation c = Some (mkLocation head "" None)).
Proof.
  split.
  - unfold acceptReview.
    destruct (1 <? length args)%nat; [left; eauto|].
    destruct (loadReview repo args) as [[r|]|e] eqn:Hload; [|left; eauto..].
    destruct (GetHeadCommit repo r) as [head|e] eqn:Hhead; [|left; eauto].
    destruct (GetUserEmail repo) as [userEmail|e]; [|left; eauto].
    destruct (negb (String.eqb (acceptMessageFile flags) "")
              && String.eqb (acceptMessage flags) "");
      [destruct (input_FromFile (acceptMessageFile flags)) as [message|e];
         [|left; eauto]|];
      (destruct (GetDate _) as [date|e]; [|left; eauto]);
      (destruct (acceptSign _);
       [destruct (GetUserSigningKey repo) as [key|e]; [|left; eauto];
        unfold gpg_Sign; destruct (detachSign key _) as [sig|e];
        [|left; eauto]
       |]);
      right; exists r, head;
      destruct (0 <? String.length _)%nat;
      do 2 eexists; repeat split; first [exact Hhead | reflexivity].
  - intros r head userEmail Hargs Hload Hhead Hemail Hmessage Hdate Hsign.
    unfold acceptReview.
    replace (1 <? length args)%nat with false
      by (symmetry; apply Nat.ltb_ge; exact Hargs).
    rewrite Hload, Hhead, Hemail.
    assert (Hfile :
      exists flags',
        (if negb (String.eqb (acceptMessageFile flags) "")
            && String.eqb (acceptMessage flags) "" then
           match input_FromFile (acceptMessageFile flags) with
           | Ok message => Ok (withAcceptMessage flags message)
           | Err e => Err e
           end
         else Ok flags) = Ok flags'
        /\ acceptDate flags' = acceptDate flags
        /\ acceptSign flags' = acceptSign flags).
    { destruct (String.eqb_spec (acceptMessageFile flags) "") as [Hf|Hf];
        [eauto|].
      destruct (String.eqb_spec (acceptMessage flags) "") as [Hm|Hm];
        [|eauto].
      cbn [negb andb].
      destruct Hmessage as [Hno|[Hyes|Hread]]; [congruence..|].
      destruct (input_FromFile (acceptMessageFile flags)) as [message|e];
        [eauto|discriminate]. }
    destruct Hfile as (flags' & -> & Hdate' & Hsign').
    rewrite Hdate', Hsign'.
    destruct (GetDate (acceptDate flags)) as [date|e]; [|discriminate].
    destruct (acceptSign flags).
    + destruct Hsign as [Hoff|(key & -> & Hsig)]; [discriminate|].
      unfold gpg_Sign.
      match goal with
      | |- context [detachSign key ?c] =>
          pose proof (Hsig c) as Hc; destruct (detachSign key c) as [sig|e];
          [|discriminate]
      end.
      eexists. split; [reflexivity|].
      destruct (0 <? String.length _)%nat; split; reflexivity.
    + eexists. split; [reflexivity|].
      destruct (0 <? String.length _)%nat; split; reflexivity.
Qed.

End CommandFacts.

(** ** Further properties of the comment command *)

Section CommandProperties.
Import commands.

(** X20.  [commentHashExists] answers true exactly when a comment with the
    hash occurs in the threads, at any depth of replies. *)
Theorem commentHashExists_iff hashToFind threads :
  commentHashExists hashToFind threads = true
  <-> InThreads hashToFind threads.
Proof.
  split; [apply commentHashExists_sound | apply commentHashExists_complete].
Qed.

Context `{Env}.

Lemma validateArgs_not_both repo flags args threads flags' :
  validateArgs repo flags args threads = Ok flags' ->
  commentLgtm flags && commentNmw flags = false.
Proof.
  unfold validateArgs.
  destruct (commentLgtm flags && commentNmw flags);
    [discriminate|reflexivity].
Qed.

(** X21.  When [validateArgs] accepts, it has changed nothing but the message,
    and the message comes from the first source that applies: [-m] when it
    is not empty; else the file named by [-F], whatever it holds; else the
    editor, which must then yield a non-empty message.  The flags [-lgtm]
    and [-nmw] are not both set, and a parent, if given, is the hash of a
    comment of the threads. *)
Theorem validateArgs_accepts repo flags args threads flags' :
  validateArgs repo flags args threads = Ok flags' ->
  exists message,
    flags' = withCommentMessage flags message
    /\ (if negb (String.eqb (commentMessage flags) "") then
          message = commentMessage flags
        else if negb (String.eqb (commentMessageFile flags) "") then
          input_FromFile (commentMessageFile flags) = Ok message
        else
          input_LaunchEditor repo commentFilename = Ok message
          /\ message <> "")
    /\ commentLgtm flags && commentNmw flags = false
    /\ (commentParent flags = ""
        \/ InThreads (commentParent flags) threads).
Proof.
  assert (Hsame : flags = withCommentMessage flags (commentMessage flags))
    by (destruct flags; reflexivity).
  unfold validateArgs. intros Hok.
  destruct (commentLgtm flags && commentNmw flags); [discriminate|].
  assert (Hknown : commentParent flags = ""
                   \/ InThreads (commentParent flags) threads).
  { destruct (String.eqb_spec (commentParent flags) "") as [Hp|Hp];
      [left; exact Hp|right].
    apply commentHashExists_sound.
    destruct (commentHashExists (commentParent flags) threads);
      [reflexivity|discriminate]. }
  destruct (negb (String.eqb (commentParent flags) "")
            && negb (commentHashExists (commentParent flags) threads));
    [discriminate|].
  destruct (String.eqb (commentMessage flags) "") eqn:Hm;
    destruct (String.eqb (commentMessageFile flags) "") eqn:Hf;
    cbn [negb andb] in Hok |- *.
  - (* neither -m nor -F: the editor *)
    rewrite Hf, Hm in Hok. cbn [andb] in Hok.
    destruct (input_LaunchEditor repo commentFilename) as [edited|e];
      [|discriminate].
    cbn [withCommentMessage commentMessageFile commentMessage] in Hok.
    rewrite Hf in Hok. cbn [andb] in Hok.
    destruct (String.eqb edited "") eqn:Hedited; [discriminate|].
    apply String.eqb_neq in Hedited.
    injection Hok as <-. exists edited. auto.
  - (* -F alone: the file *)
    destruct (input_FromFile (commentMessageFile flags)) as [fromFile|e];
      [|discriminate].
    repeat (progress
              (rewrite ?Hf in Hok;
               cbn [andb withCommentMessage commentMessageFile
                    commentMessage] in Hok)).
    injection Hok as <-. exists fromFile. auto.
  - (* -m *)
    repeat (progress (rewrite ?Hf, ?Hm in Hok; cbn [andb] in Hok)).
    injection Hok as <-. exists (commentMessage flags). auto.
  - repeat (progress (rewrite ?Hf, ?Hm in Hok; cbn [andb] in Hok)).
    injection Hok as <-. exists (commentMessage flags). auto.
Qed.

(** X22.  Every run of the comment command either returns an error and leaves
    the repository as it was, or is one call of [AddComment] (of
    [AddDetachedComment] with [-d]) on a comment built from the flags:
    its parent is the [-p] flag, its location holds the file of [-f], the
    range of [-l] and, as commit, the head commit of the review (the
    commit the argument or HEAD resolves to, with [-d]); [-lgtm] makes it
    resolved, [-nmw] unresolved. *)
Theorem commentCmd_appends_comment repo flags args :
  (exists e, commentCmd repo flags args = (Err e, repo))
  \/ (exists c commit,
        CommentLocation c
        = Some (mkLocation commit (commentFile flags)
                           (Some (commentLocation flags)))
        /\ Parent c = commentParent flags
        /\ (commentLgtm flags = true -> Resolved c = Some true)
        /\ (commentNmw flags = true -> Resolved c = Some false)
        /\ if commentDetached flags then
             commentFile flags <> ""
             /\ ResolveRefCommit repo
                  (match args with [arg] => arg | _ => "HEAD" end)
                = Ok commit
             /\ commentCmd repo flags args = review_AddDetachedComment c repo
           else
             exists r,
               loadReview repo args = Ok (Some r)
               /\ GetHeadCommit repo r = Ok commit
               /\ commentCmd repo flags args = AddComment r c repo).
Proof.
  assert (Hbuild : forall repo' flags' commit c,
    buildCommentFromFlags repo' flags' commit = Ok c ->
    CommentLocation c
    = Some (mkLocation commit (commentFile flags')
                       (Some (commentLocation flags')))
    /\ Parent c = commentParent flags'
    /\ (commentLgtm flags' || commentNmw flags' = true ->
        Resolved c = Some (commentLgtm flags'))).
  { intros repo' flags' commit c. unfold buildCommentFromFlags.
    assert (Hloc :
      mkLocation
        (Commit (if negb (String.eqb (commentFile flags') "")
                 then mkLocation (Commit (mkLocation commit "" None))
                                 (commentFile flags')
                                 (LocationRange (mkLocation commit "" None))
                 else mkLocation commit "" None))
        (Path (if negb (String.eqb (commentFile flags') "")
               then mkLocation (Commit (mkLocation commit "" None))
                               (commentFile flags')
                               (LocationRange (mkLocation commit "" None))
               else mkLocation commit "" None))
        (Some (commentLocation flags'))
      = mkLocation commit (commentFile flags')
                   (Some (commentLocation flags'))).
    { destruct (String.eqb_spec (commentFile flags') "") as [->|_];
        reflexivity. }
    cbv zeta. rewrite Hloc.
    destruct (location_Check repo' _) as [[]|e]; [|discriminate].
    destruct (GetUserEmail repo') as [userEmail|e]; [|discriminate].
    destruct (GetDate _) as [date|e]; [|discriminate].
    destruct (commentSign flags');
      [destruct (GetUserSigningKey repo') as [key|e]; [|discriminate];
       unfold gpg_Sign; destruct (detachSign key _) as [sig|e];
       [|discriminate]|];
      intros [= <-];
      destruct (commentLgtm flags' || commentNmw flags');
      destruct (0 <? String.length _)%nat;
      repeat split; first [reflexivity | discriminate]. }
  assert (Hshape : forall flags' commit c,
    (exists message, flags' = withCommentMessage flags message) ->
    commentLgtm flags && commentNmw flags = false ->
    buildCommentFromFlags repo flags' commit = Ok c ->
    CommentLocation c
    = Some (mkLocation commit (commentFile flags)
                       (Some (commentLocation flags)))
    /\ Parent c = commentParent flags
    /\ (commentLgtm flags = true -> Resolved c = Some true)
    /\ (commentNmw flags = true -> Resolved c = Some false)).
  { intros flags' commit c [message ->] Hboth Hc.
    apply Hbuild in Hc as (Hloc & Hparent & Hresolved).
    cbn [withCommentMessage commentFile commentLocation commentParent
         commentLgtm commentNmw] in *.
    repeat split; [exact Hloc | exact Hparent | |].
    - intros Hlgtm. rewrite Hlgtm in *. apply Hresolved. reflexivity.
    - intros Hnmw. rewrite Hnmw in *.
      destruct (commentLgtm flags); [discriminate|].
      apply Hresolved. reflexivity. }
  unfold commentCmd.
  destruct (commentDetached flags).
  - unfold commentOnPath.
    destruct (String.eqb_spec (commentFile flags) "") as [Hfile|Hfile];
      [left; eauto|].
    destruct (1 <? length args)%nat; [left; eauto|].
    destruct (ResolveRefCommit repo _) as [commit|e] eqn:Hresolve;
      [|left; eauto].
    destruct (review_GetDetachedComments repo (commentFile flags))
      as [threads|e]; [|left; eauto].
    destruct (validateArgs repo flags args threads) as [flags'|e] eqn:Hvalid;
      [|left; eauto].
    pose proof (validateArgs_not_both _ _ _ _ _ Hvalid) as Hboth.
    apply validateArgs_flags in Hvalid as [message ->].
    destruct (buildCommentFromFlags repo _ commit) as [c|e] eqn:Hc;
      [|left; eauto].
    right. exists c, commit.
    destruct (Hshape _ _ _ (ex_intro _ message eq_refl) Hboth Hc)
      as (? & ? & ? & ?).
    auto 10.
  - unfold commentOnReview.
    destruct (1 <? length args)%nat; [left; eauto|].
    destruct (loadReview repo args) as [[r|]|e] eqn:Hload; [|left; eauto..].
    destruct (validateArgs repo flags args (Comments r)) as [flags'|e]
      eqn:Hvalid; [|left; eauto].
    pose proof (validateArgs_not_both _ _ _ _ _ Hvalid) as Hboth.
    apply validateArgs_flags in Hvalid as [message ->].
    destruct (GetHeadCommit repo r) as [commit|e] eqn:Hhead; [|left; eauto].
    destruct (buildCommentFromFlags repo _ commit) as [c|e] eqn:Hc;
      [|left; eauto].
    right. exists c, commit.
    destruct (Hshape _ _ _ (ex_intro _ message eq_refl) Hboth Hc)
      as (? & ? & ? & ?).
    eauto 10.
Qed.

End CommandProperties.

(** ** Further properties of the web handlers *)

Section WebProperties.
Import web.

Lemma digitsValue_app (a b : string) :
  forall acc,
    digitsValue (a ++ b) acc
    = match digitsValue a acc with
      | Some v => digitsValue b v
      | None => None
      end.
Proof.
  induction a as [|c a IH]; intros acc; [reflexivity|].
  rewrite append_cons. cbn [digitsValue].
  destruct ((48 <=? nat_of_ascii c) && (nat_of_ascii c <=? 57))%nat;
    [apply IH|reflexivity].
Qed.

Lemma digit_value (d : Z) (acc : Z) :
  (0 <= d < 10)%Z ->
  digitsValue (String (ascii_of_nat (Z.to_nat (rune "0" + d))) "") acc
  = Some (acc * 10 + d)%Z.
Proof.
  intros Hd. cbn [digitsValue].
  assert (Hn : nat_of_ascii (ascii_of_nat (Z.to_nat (rune "0" + d)))
               = Z.to_nat (48 + d)).
  { rewrite nat_ascii_embedding; [reflexivity|].
    change (rune "0") with 48%Z. lia. }
  rewrite Hn.
  replace ((48 <=? Z.to_nat (48 + d)) && (Z.to_nat (48 + d) <=? 57))%nat
    with true.
  - f_equal. lia.
  - symmetry. apply andb_true_iff. split; apply Nat.leb_le; lia.
Qed.

Lemma formatDigits_acc (fuel : nat) :
  forall u a,
    strconv.formatDigits fuel u a = strconv.formatDigits fuel u "" ++ a.
Proof.
  induction fuel as [|fuel IH]; intros u a; [reflexivity|].
  cbn [strconv.formatDigits].
  destruct (10 <=? u)%Z; [|reflexivity].
  rewrite IH, (IH _ (String _ "")), append_assoc. reflexivity.
Qed.

Lemma formatDigits_value (fuel : nat) :
  forall u acc,
    (0 <= u < 10 ^ Z.of_nat (S fuel))%Z ->
    exists k,
      digitsValue (strconv.formatDigits (S fuel) u "") acc
      = Some (acc * 10 ^ Z.of_nat k + u)%Z
      /\ strconv.formatDigits (S fuel) u "" <> "".
Proof.
  induction fuel as [|fuel IH]; intros u acc Hu.
  - change (10 ^ Z.of_nat 1)%Z with 10%Z in Hu.
    cbn [strconv.formatDigits].
    destruct (Z.leb_spec 10 u); [lia|].
    exists 1%nat. rewrite digit_value by lia.
    split; [f_equal; lia|discriminate].
  - rewrite Nat2Z.inj_succ, Z.pow_succ_r in Hu by lia.
    remember (S fuel) as fuel' eqn:Hfuel.
    cbn [strconv.formatDigits].
    destruct (Z.leb_spec 10 u) as [Hbig|Hsmall].
    + rewrite formatDigits_acc, digitsValue_app.
      destruct (IH (u / 10)%Z acc) as (k & Hvalue & Hne).
      { subst fuel'. split; [apply Z.div_pos; lia|].
        apply Z.div_lt_upper_bound; lia. }
      subst fuel'. rewrite Hvalue.
      exists (S k). rewrite digit_value.
      * split; [|apply append_not_empty, Hne].
        f_equal. rewrite Nat2Z.inj_succ, Z.pow_succ_r by lia.
        pose proof (Z.div_mod u 10). lia.
      * pose proof (Z.mod_pos_bound u 10).
        pose proof (Z.div_mod u 10). lia.
    + exists 1%nat. rewrite digit_value by lia.
      split; [f_equal; lia|discriminate].
Qed.

(** What [FormatUint] prints for a uint64 is a non-empty string of
    decimal digits that denotes the number. *)
Lemma FormatUint_value (u : Z) :
  (0 <= u < 2 ^ 64)%Z ->
  digitsValue (strconv.FormatUint u) 0 = Some u
  /\ strconv.FormatUint u <> "".
Proof.
  intros Hu. unfold strconv.FormatUint.
  destruct (formatDigits_value 19 u 0) as (k & Hvalue & Hne).
  { change (10 ^ Z.of_nat 20)%Z with 100000000000000000000%Z.
    change (2 ^ 64)%Z with 18446744073709551616%Z in Hu. lia. }
  rewrite Hvalue. split; [f_equal; lia|exact Hne].
Qed.

Lemma append_inv_head (a b c : string) : a ++ b = a ++ c -> b = c.
Proof.
  induction a as [|x a IH]; [auto|].
  rewrite !append_cons. intros [= Heq]. auto.
Qed.

Section Served.
Context `{Env}.

(** X23.  A request for a branch that exists is served that branch: when
    [Update] succeeds and the branch parameter is a decimal number below
    the number of branches, [ServeBranchTemplate] renders the branch of
    that index in the refreshed list, answering 200 with the page, or 500
    when the template fails. *)
Theorem ServeBranchTemplate_serves_branch
        (repoDetails : RepoDetails) (r : Request)
        (branches : list BranchDetails) (n : Z) (b : BranchDetails) :
  intSize = 64%Z ->
  Update (Branches repoDetails) = (Ok tt, branches) ->
  decimalUint32 (Get (Query r) "branch") = Some n ->
  branches !! Z.to_nat n = Some b ->
  ServeBranchTemplate repoDetails r
  = Return match branchTemplate branches n b with
           | Ok body => serveHTML body
           | Err err => ServeErrorTemplate err StatusInternalServerError
           end.
Proof.
  intros Hsize Hupdate Hparam Hb.
  unfold ServeBranchTemplate. rewrite Hupdate. cbn [Branches].
  pose proof Hparam as Hparse. apply ParseUint_decimalUint32 in Hparse.
  pose proof (ParseUint_range _ _ Hparse) as Hrange.
  destruct (String.eqb_spec (Get (Query r) "branch") "") as [Hempty|_].
  { rewrite Hempty in Hparam. discriminate. }
  rewrite Hparse, (int_of_uint32 _ Hsize Hrange).
  pose proof (lookup_lt_Some _ _ _ Hb) as Hlt.
  destruct (Z.leb_spec (Z.of_nat (length branches)) n); [lia|].
  unfold WriteBranchTemplate, indexBranches. cbn [Branches].
  destruct (Z.ltb_spec n (Z.of_nat (length branches))); [|lia].
  rewrite Hb. destruct (branchTemplate branches n b); reflexivity.
Qed.

(** The answer of [checkStringLooksLikeHash], by the length and the
    characters of the string. *)
Lemma checkStringLooksLikeHash_outcome (s : string) :
  checkStringLooksLikeHash s
  = if looksLikeHash s then Ok tt
    else if (40 <? String.length s)%nat then Err "Invalid hash parameter"
         else Err "Invalid hash character".
Proof.
  unfold checkStringLooksLikeHash, looksLikeHash, len, maxHashLength.
  rewrite checkHashCharacters_allHexDigits.
  destruct (Nat.leb_spec (String.length s) 40) as [Hle|Hgt];
    destruct (Z.gtb_spec (Z.of_nat (String.length s)) 40); try lia;
    destruct (Nat.ltb_spec 40 (String.length s)); try lia;
    cbn [andb]; [destruct (allHexDigits s)|]; reflexivity.
Qed.

(** X24.  The review parameter is checked before the review is looked up: with
    a valid branch, [ServeReviewTemplate] answers 400 when the parameter
    is absent or does not look like a hash; for a parameter that looks
    like a hash it answers 500 with the error of [review.Get] when there
    is no such review. *)
Theorem ServeReviewTemplate_review_parameter
        (repoDetails : RepoDetails) (r : Request)
        (branches : list BranchDetails) :
  intSize = 64%Z ->
  Update (Branches repoDetails) = (Ok tt, branches) ->
  badBranch branches (Get (Query r) "branch") = false ->
  let reviewParam := Get (Query r) "review" in
  (reviewParam = "" ->
   ServeReviewTemplate repoDetails r
   = Return (ServeErrorTemplate "No review specified" StatusBadRequest))
  /\ (reviewParam <> "" -> looksLikeHash reviewParam = false ->
      exists msg,
        ServeReviewTemplate repoDetails r
        = Return (ServeErrorTemplate msg StatusBadRequest))
  /\ (reviewParam <> "" -> looksLikeHash reviewParam = true ->
      forall err,
        review_Get reviewParam = Err err ->
        ServeReviewTemplate repoDetails r
        = Return (ServeErrorTemplate err StatusInternalServerError)).
Proof.
  intros Hsize Hupdate Hbranch reviewParam.
  unfold badBranch in Hbranch.
  destruct (decimalUint32 (Get (Query r) "branch")) as [n|] eqn:Hparam;
    [|discriminate].
  apply Z.leb_gt in Hbranch.
  pose proof Hparam as Hparse. apply ParseUint_decimalUint32 in Hparse.
  pose proof (ParseUint_range _ _ Hparse) as Hrange.
  assert (Hserve :
    ServeReviewTemplate repoDetails r
    = if String.eqb reviewParam "" then
        Return (ServeErrorTemplate "No review specified" StatusBadRequest)
      else
        match checkStringLooksLikeHash reviewParam with
        | Err err => Return (ServeErrorTemplate err StatusBadRequest)
        | Ok _ =>
            match WriteReviewTemplate (mkRepoDetails branches) n
                                      reviewParam with
            | Panic msg => Panic msg
            | Return (Err err) =>
                Return (ServeErrorTemplate err StatusInternalServerError)
            | Return (Ok body) => Return (serveHTML body)
            end
        end).
  { unfold ServeReviewTemplate. rewrite Hupdate. cbn [Branches].
    destruct (String.eqb_spec (Get (Query r) "branch") "") as [Hempty|_].
    { rewrite Hempty in Hparam. discriminate. }
    rewrite Hparse, (int_of_uint32 _ Hsize Hrange).
    destruct (Z.leb_spec (Z.of_nat (length branches)) n); [lia|].
    reflexivity. }
  rewrite Hserve. clear Hserve.
  rewrite checkStringLooksLikeHash_outcome.
  split; [|split].
  - intros ->. reflexivity.
  - intros Hne Hhash. apply String.eqb_neq in Hne. rewrite Hne, Hhash.
    destruct (40 <? String.length reviewParam)%nat; eauto.
  - intros Hne Hhash err Hget. apply String.eqb_neq in Hne.
    rewrite Hne, Hhash. unfold WriteReviewTemplate. rewrite Hget.
    reflexivity.
Qed.

(** X25.  The link to a branch comes back as the branch: the number
    [ServePaths.Branch] prints after [branch=] is read back by the
    [ParseUint] of the handlers as the same number, for every branch
    number below 2^32; so the handler serves the branch the link was made
    for. *)
Theorem ServePaths_Branch_round_trip
        (repoDetails : RepoDetails) (r : Request)
        (branches : list BranchDetails) (n : Z) (b : BranchDetails) :
  intSize = 64%Z ->
  Update (Branches repoDetails) = (Ok tt, branches) ->
  (0 <= n)%Z ->
  branches !! Z.to_nat n = Some b ->
  (Z.of_nat (length branches) <= 2 ^ 32)%Z ->
  ServePaths_Branch n = "branch.html?branch=" ++ Get (Query r) "branch" ->
  strconv.ParseUint (Get (Query r) "branch") 32 = Ok n
  /\ ServeBranchTemplate repoDetails r
     = Return match branchTemplate branches n b with
              | Ok body => serveHTML body
              | Err err => ServeErrorTemplate err StatusInternalServerError
              end.
Proof.
  intros Hsize Hupdate Hn Hb Hlen Hlink.
  pose proof (lookup_lt_Some _ _ _ Hb) as Hlt.
  assert (Hparam : Get (Query r) "branch" = strconv.FormatUint n).
  { unfold ServePaths_Branch in Hlink.
    symmetry. eapply append_inv_head. exact Hlink. }
  destruct (FormatUint_value n) as [Hvalue Hne].
  { change (2 ^ 64)%Z with 18446744073709551616%Z.
    change (2 ^ 32)%Z with 4294967296%Z in Hlen. lia. }
  assert (Hdecimal : decimalUint32 (Get (Query r) "branch") = Some n).
  { rewrite Hparam. unfold decimalUint32.
    destruct (strconv.FormatUint n) eqn:Hformat; [congruence|].
    rewrite Hvalue.
    destruct (Z.ltb_spec n (2 ^ 32)); [reflexivity|lia]. }
  split; [apply ParseUint_decimalUint32, Hdecimal|].
  unfold ServeBranchTemplate. rewrite Hupdate. cbn [Branches].
  pose proof Hdecimal as Hparse. apply ParseUint_decimalUint32 in Hparse.
  pose proof (ParseUint_range _ _ Hparse) as Hrange.
  destruct (String.eqb_spec (Get (Query r) "branch") "") as [Hempty|_].
  { rewrite Hempty in Hdecimal. discriminate. }
  rewrite Hparse, (int_of_uint32 _ Hsize Hrange).
  destruct (Z.leb_spec (Z.of_nat (length branches)) n); [lia|].
  unfold WriteBranchTemplate, indexBranches. cbn [Branches].
  destruct (Z.ltb_spec n (Z.of_nat (length branches))); [|lia].
  rewrite Hb. destruct (branchTemplate branches n b); reflexivity.
Qed.

End Served.

End WebProperties.

(** ** The parsers of the output of [git cat-file] *)

Section ParserProperties.
Import repository.

Lemma ReadString_delim (line rest : string) (delim : ascii) :
  without delim line = true ->
  ReadString (line ++ String delim rest) delim
  = (line ++ String delim "", false, rest).
Proof.
  induction line as [|c line IH]; cbn [without].
  - intros _. change ("" ++ String delim rest) with (String delim rest).
    cbn [ReadString]. rewrite Ascii.eqb_refl. reflexivity.
  - intros [Hc Hline]%andb_true_iff. apply negb_true_iff in Hc.
    rewrite !append_cons. cbn [ReadString]. rewrite Hc, (IH Hline).
    reflexivity.
Qed.

Lemma ReadString_eof (line : string) (delim : ascii) :
  without delim line = true -> ReadString line delim = (line, true, "").
Proof.
  induction line as [|c line IH]; cbn [without]; [reflexivity|].
  intros [Hc Hline]%andb_true_iff. apply negb_true_iff in Hc.
  cbn [ReadString]. rewrite Hc, (IH Hline). reflexivity.
Qed.

Lemma substring_skip (a b : string) (n : nat) :
  String.substring (String.length a) n (a ++ b) = String.substring 0 n b.
Proof.
  induction a as [|c a IH]; [reflexivity|].
  rewrite append_cons. cbn [String.length String.substring]. exact IH.
Qed.

Lemma substring_head (a b : string) :
  String.substring 0 (String.length a) (a ++ b) = a.
Proof.
  induction a as [|c a IH]; [destruct b; reflexivity|].
  rewrite append_cons. cbn [String.length String.substring].
  rewrite IH. reflexivity.
Qed.

Lemma HasSuffix_append (a suf : string) :
  strings.HasSuffix (a ++ suf) suf = true.
Proof.
  unfold strings.HasSuffix. rewrite length_append.
  replace (String.length a + String.length suf - String.length suf)
    with (String.length a) by lia.
  rewrite substring_skip, substring_all, String.eqb_refl.
  apply andb_true_iff. split; [apply Nat.leb_le; lia|reflexivity].
Qed.

Lemma TrimSuffix_append (a suf : string) :
  strings.TrimSuffix (a ++ suf) suf = a.
Proof.
  unfold strings.TrimSuffix. rewrite HasSuffix_append, length_append.
  replace (String.length a + String.length suf - String.length suf)
    with (String.length a) by lia.
  apply substring_head.
Qed.

Lemma length_unlines (lines : list string) :
  List.length lines <= String.length (unlines lines).
Proof.
  induction lines as [|line rest IH]; [reflexivity|].
  rewrite unlines_cons, !length_append. cbn [List.length String.length newline].
  lia.
Qed.

Lemma splitBatchCheckLoop_entries (entries : list (string * string))
      (tail : string) :
  forallb (fun entry => without " " (fst entry) && without "010" (snd entry))
          entries = true ->
  without " " tail = true ->
  forall fuel isCommit,
    List.length entries < fuel ->
    splitBatchCheckLoop fuel (batchCheckText entries ++ tail) isCommit
    = Ok (foldl noteCommit isCommit entries).
Proof.
  intros Hentries Htail.
  induction entries as [|[name type] rest IH]; intros fuel isCommit Hfuel.
  - destruct fuel as [|fuel]; [cbn in Hfuel; lia|].
    change (batchCheckText [] ++ tail) with tail.
    cbn [splitBatchCheckLoop]. rewrite (ReadString_eof _ _ Htail).
    reflexivity.
  - cbn [forallb fst snd] in Hentries.
    apply andb_true_iff in Hentries as [[Hname Htype]%andb_true_iff Hrest].
    destruct fuel as [|fuel]; [cbn in Hfuel; lia|].
    cbn [List.length] in Hfuel.
    unfold batchCheckText. cbn [List.map fst snd].
    rewrite unlines_cons. fold (batchCheckText rest).
    replace ((name ++ " " ++ type) ++ newline ++ batchCheckText rest)
      with (name ++ String " " (type ++ String "010" (batchCheckText rest)))
      by (rewrite !append_assoc; reflexivity).
    replace ((name ++ String " " (type ++ String "010" (batchCheckText rest)))
             ++ tail)
      with (name ++ String " "
                 (type ++ String "010" (batchCheckText rest ++ tail))).
    2:{ rewrite append_assoc, append_cons, append_assoc, append_cons.
        reflexivity. }
    cbn [splitBatchCheckLoop].
    rewrite (ReadString_delim _ _ _ Hname), (ReadString_delim _ _ _ Htype).
    change (name ++ String " " "") with (name ++ " ").
    change (type ++ String "010" "") with (type ++ newline).
    rewrite !TrimSuffix_append.
    rewrite (IH Hrest) by lia. reflexivity.
Qed.

Lemma foldl_noteCommit (entries : list (string * string)) :
  forall isCommit name,
    foldl noteCommit isCommit entries !! name
    = if existsb (fun entry => String.eqb (fst entry) name
                               && String.eqb (snd entry) "commit") entries
      then Some true else isCommit !! name.
Proof.
  induction entries as [|[n t] rest IH]; intros isCommit name;
    [reflexivity|].
  cbn [foldl existsb fst snd]. rewrite IH. unfold noteCommit. cbn [fst snd].
  destruct (existsb _ rest); [rewrite orb_true_r; reflexivity|].
  rewrite orb_false_r.
  destruct (String.eqb t "commit"); [|rewrite andb_false_r; reflexivity].
  rewrite andb_true_r.
  destruct (String.eqb_spec n name) as [->|Hne].
  - apply lookup_insert_eq.
  - apply lookup_insert_ne. exact Hne.
Qed.

(** X17.  [splitBatchCheckOutput] reads back what [cat-file --batch-check]
    prints: for a list of objects with their types (names without space,
    types without newline), it returns without error the map that holds
    true for exactly the objects listed with the type [commit], and
    nothing for the others; bytes after the last line that hold no space
    are ignored. *)
Theorem splitBatchCheckOutput_round_trip
        (entries : list (string * string)) (tail : string) :
  forallb (fun entry => without " " (fst entry) && without "010" (snd entry))
          entries = true ->
  without " " tail = true ->
  exists isCommit,
    splitBatchCheckOutput (batchCheckText entries ++ tail) = Ok isCommit
    /\ forall name,
         isCommit !! name
         = if existsb (fun entry => String.eqb (fst entry) name
                                    && String.eqb (snd entry) "commit")
                      entries
           then Some true else None.
Proof.
  intros Hentries Htail. eexists. split.
  - unfold splitBatchCheckOutput.
    apply (splitBatchCheckLoop_entries _ _ Hentries Htail).
    rewrite length_append.
    pose proof (length_unlines
                  (List.map (fun entry => fst entry ++ " " ++ snd entry)
                            entries)) as Hlen.
    rewrite length_map in Hlen. unfold batchCheckText. lia.
  - intros name. rewrite foldl_noteCommit, lookup_empty. reflexivity.
Qed.

End ParserProperties.

(** ** The sizes and contents of [git cat-file --batch] *)

Section BatchProperties.
Import repository.

(** [parseDigits] reads a string of decimal digits as the number it
    denotes, as long as the number is within [maxVal]. *)
Lemma parseDigits_value (s : string) :
  forall n v maxVal,
    (0 <= n)%Z -> (maxVal < 2 ^ 64)%Z ->
    web.digitsValue s n = Some v -> (v <= maxVal)%Z ->
    strconv.parseDigits (runes s) maxVal n = Ok v.
Proof.
  induction s as [|c rest IH]; intros n v maxVal Hn Hmax Hv Hle;
    cbn [runes strconv.parseDigits web.digitsValue] in *.
  - congruence.
  - fold (rune c). rewrite digit_test.
    destruct ((48 <=? nat_of_ascii c) && (nat_of_ascii c <=? 57))%nat eqn:Hd;
      [|discriminate].
    apply andb_true_iff in Hd as [H1 H2].
    apply Nat.leb_le in H1, H2.
    change (rune "0") with 48%Z. unfold rune.
    set (d := (Z.of_nat (nat_of_ascii c) - 48)%Z) in *.
    assert (Hd : (0 <= d <= 9)%Z) by (unfold d; lia).
    assert (Hge : (n * 10 + d <= v)%Z)
      by (eapply digitsValue_ge; [|exact Hv]; lia).
    change (2 ^ 64)%Z with 18446744073709551616%Z in *.
    change strconv.cutoff10 with 1844674407370955162%Z.
    destruct (Z.leb_spec 1844674407370955162 n); [lia|].
    rewrite (Z.mod_small (n * 10)) by lia.
    rewrite (Z.mod_small (n * 10 + d)) by lia.
    destruct (Z.ltb_spec (n * 10 + d) (n * 10)); [lia|].
    destruct (Z.ltb_spec maxVal (n * 10 + d)); [lia|].
    cbn [orb]. apply IH; [lia | lia | exact Hv | exact Hle].
Qed.

Lemma digitsValue_without (s : string) (c : ascii) :
  (nat_of_ascii c < 48)%nat ->
  forall acc v, web.digitsValue s acc = Some v -> without c s = true.
Proof.
  intros Hc. induction s as [|x rest IH]; intros acc v Hv; [reflexivity|].
  cbn [web.digitsValue without] in *.
  destruct ((48 <=? nat_of_ascii x) && (nat_of_ascii x <=? 57))%nat eqn:Hd;
    [|discriminate].
  apply andb_true_iff in Hd as [H1 _]. apply Nat.leb_le in H1.
  rewrite (IH _ _ Hv), andb_true_r. apply negb_true_iff.
  apply Ascii.eqb_neq. intros ->. lia.
Qed.

(** [Atoi] reads back what [FormatUint] prints, within the range of
    [int]. *)
Lemma Atoi_FormatUint (intSize n : Z) :
  intSize = 32%Z \/ intSize = 64%Z ->
  (0 <= n < 2 ^ (intSize - 1))%Z ->
  strconv.Atoi intSize (strconv.FormatUint n) = Ok n.
Proof.
  intros Hsize Hn.
  assert (Hbig : (2 ^ (intSize - 1) <= 2 ^ 63)%Z
                 /\ (2 ^ (intSize - 1) < 2 ^ intSize)%Z
                 /\ (2 ^ intSize <= 2 ^ 64)%Z)
    by (destruct Hsize as [->| ->]; repeat split;
        (apply Z.leb_le || apply Z.ltb_lt); reflexivity).
  destruct (FormatUint_value n) as [Hvalue Hne].
  { destruct Hbig as (Hbig & _ & _).
    change (2 ^ 63)%Z with 9223372036854775808%Z in Hbig.
    change (2 ^ 64)%Z with 18446744073709551616%Z.
    clear Hsize. set (p := (2 ^ (intSize - 1))%Z) in *. clearbody p. lia. }
  unfold strconv.Atoi.
  destruct (strconv.FormatUint n) as [|c rest] eqn:Hformat; [congruence|].
  change (String.eqb (String c rest) "") with false. cbv iota.
  assert (Hdigit : (48 <= nat_of_ascii c)%nat).
  { cbn [web.digitsValue] in Hvalue.
    destruct ((48 <=? nat_of_ascii c) && (nat_of_ascii c <=? 57))%nat eqn:Hd;
      [|discriminate].
    apply andb_true_iff in Hd as [H1 _]. apply Nat.leb_le in H1. exact H1. }
  assert (Hplus : Ascii.eqb c "+" = false)
    by (apply Ascii.eqb_neq; intros ->; vm_compute in Hdigit; lia).
  assert (Hminus : Ascii.eqb c "-" = false)
    by (apply Ascii.eqb_neq; intros ->; vm_compute in Hdigit; lia).
  rewrite Hplus, Hminus. cbn [orb negb andb].
  unfold strconv.ParseUint.
  change (String.eqb (String c rest) "") with false. cbv iota.
  rewrite (parseDigits_value _ 0 n) by (lia || exact Hvalue).
  destruct (Z.leb_spec (2 ^ (intSize - 1)) n); [lia|reflexivity].
Qed.

Lemma readContents_app (contents rest : string) :
  readContents (String.length contents) (contents ++ rest) = contents.
Proof.
  induction contents as [|c contents IH]; [reflexivity|].
  rewrite append_cons. cbn [String.length readContents]. rewrite IH.
  reflexivity.
Qed.

Lemma discard_app (contents rest : string) :
  discard (String.length contents) (contents ++ rest) = rest.
Proof.
  induction contents as [|c contents IH]; [destruct rest; reflexivity|].
  rewrite append_cons. cbn [String.length discard]. exact IH.
Qed.

Lemma skipNewlines_batchText (entries : list (string * string)) :
  forallb (fun entry => negb (String.eqb (fst entry) "")
                        && without "010" (fst entry)) entries = true ->
  skipNewlines (batchText entries) = batchText entries.
Proof.
  destruct entries as [|[name contents] rest]; [reflexivity|].
  cbn [forallb fst snd].
  intros [[Hne Hname]%andb_true_iff _]%andb_true_iff.
  unfold batchText. cbn [List.map fst snd]. rewrite unlines_cons.
  destruct name as [|c name]; [discriminate|].
  cbn [without] in Hname. apply andb_true_iff in Hname as [Hc _].
  apply negb_true_iff in Hc.
  rewrite !append_cons. cbn [skipNewlines]. rewrite Hc. reflexivity.
Qed.

Lemma splitBatchCatFileLoop_entries (intSize : Z)
      (entries : list (string * string)) :
  intSize = 32%Z \/ intSize = 64%Z ->
  forallb (fun entry => negb (String.eqb (fst entry) "")
                        && without "010" (fst entry)) entries = true ->
  Forall (fun entry =>
            (Z.of_nat (String.length (snd entry)) < 2 ^ (intSize - 1))%Z)
         entries ->
  forall fuel contentsMap,
    List.length entries < fuel ->
    splitBatchCatFileLoop intSize fuel (batchText entries) contentsMap
    = Return (Ok (foldl (fun m entry => <[fst entry := snd entry]> m)
                        contentsMap entries)).
Proof.
  intros Hsize Hnames Hsizes.
  induction Hsizes as [|[name contents] rest Hlen Hrest IH];
    intros fuel contentsMap Hfuel.
  - destruct fuel as [|fuel]; [cbn in Hfuel; lia|]. reflexivity.
  - pose proof (skipNewlines_batchText rest) as Hskip.
    cbn [forallb fst snd] in Hnames, Hlen.
    apply andb_true_iff in Hnames as [[Hne Hname]%andb_true_iff Hnames].
    specialize (Hskip Hnames).
    destruct fuel as [|fuel]; [cbn in Hfuel; lia|].
    cbn [List.length] in Hfuel.
    unfold batchText. cbn [List.map fst snd].
    rewrite unlines_cons. fold (batchText rest).
    set (size := strconv.FormatUint (Z.of_nat (String.length contents))).
    replace ((name ++ newline ++ size ++ newline ++ contents)
             ++ newline ++ batchText rest)
      with (name ++ String "010"
                 (size ++ String "010"
                       (contents ++ String "010" (batchText rest))))
      by (rewrite !append_assoc; reflexivity).
    assert (Hdigits : without "010" size = true).
    { destruct (FormatUint_value (Z.of_nat (String.length contents)))
        as [Hvalue _].
      - split; [lia|].
        assert ((2 ^ (intSize - 1) <= 2 ^ 64)%Z)
          by (destruct Hsize as [->| ->]; apply Z.leb_le; reflexivity).
        lia.
      - eapply digitsValue_without; [|exact Hvalue]. vm_compute. lia. }
    cbn [splitBatchCatFileLoop].
    rewrite (ReadString_delim _ _ _ Hname), (ReadString_delim _ _ _ Hdigits).
    change (name ++ String "010" "") with (name ++ newline).
    change (size ++ String "010" "") with (size ++ newline).
    rewrite !HasSuffix_append, !TrimSuffix_append.
    unfold size. rewrite Atoi_FormatUint by (assumption || lia).
    destruct (Z.ltb_spec (Z.of_nat (String.length contents)) 0); [lia|].
    rewrite Nat2Z.id, readContents_app, discard_app.
    replace (String.length (contents ++ String "010" (batchText rest))
             <? String.length contents)%nat with false
      by (symmetry; apply Nat.ltb_ge; rewrite length_append; lia).
    cbn [skipNewlines]. rewrite Ascii.eqb_refl, Hskip.
    rewrite (IH Hnames) by lia. reflexivity.
Qed.

(** X18.  [splitBatchCatFileOutput] reads back what [cat-file --batch] prints:
    for a list of objects with their contents (names not empty and without
    newline, sizes within [int]) it returns the map from each object to
    its contents, byte for byte -- newlines in the contents included,
    since the size line tells where they end -- a later entry replacing
    an earlier one of the same name. *)
Theorem splitBatchCatFileOutput_round_trip (intSize : Z)
        (entries : list (string * string)) :
  intSize = 32%Z \/ intSize = 64%Z ->
  forallb (fun entry =>
             negb (String.eqb (fst entry) "") && without "010" (fst entry)
             && (Z.of_nat (String.length (snd entry)) <? 2 ^ (intSize - 1))%Z)
          entries = true ->
  splitBatchCatFileOutput intSize (batchText entries)
  = Return (Ok (foldl (fun m entry => <[fst entry := snd entry]> m)
                      ∅ entries)).
Proof.
  intros Hsize Hall. unfold splitBatchCatFileOutput.
  rewrite forallb_forall in Hall.
  apply splitBatchCatFileLoop_entries; [exact Hsize| | |].
  - apply forallb_forall. intros entry Hin.
    apply Hall, andb_true_iff in Hin as [Hname _]. exact Hname.
  - apply Forall_forall. intros entry Hin%list_elem_of_In.
    apply Hall, andb_true_iff in Hin as [_ Hlen].
    apply Z.ltb_lt, Hlen.
  - pose proof (length_unlines
                  (List.map (fun entry =>
                     fst entry ++ newline
                     ++ strconv.FormatUint
                          (Z.of_nat (String.length (snd entry)))
                     ++ newline ++ snd entry) entries)) as Hlen.
    rewrite length_map in Hlen. unfold batchText. lia.
Qed.

Lemma Atoi_negative (intSize n : Z) :
  intSize = 32%Z \/ intSize = 64%Z ->
  (0 <= n <= 2 ^ (intSize - 1))%Z ->
  strconv.Atoi intSize ("-" ++ strconv.FormatUint n) = Ok (- n)%Z.
Proof.
  intros Hsize Hn.
  assert (Hbig : (2 ^ (intSize - 1) <= 2 ^ 63)%Z
                 /\ (2 ^ (intSize - 1) <= 2 ^ intSize - 1)%Z
                 /\ (2 ^ intSize - 1 < 2 ^ 64)%Z)
    by (destruct Hsize as [->| ->]; repeat split;
        (apply Z.leb_le || apply Z.ltb_lt); reflexivity).
  destruct Hbig as (Hbig & Hmax & Hmax').
  destruct (FormatUint_value n) as [Hvalue Hne].
  { change (2 ^ 63)%Z with 9223372036854775808%Z in Hbig.
    change (2 ^ 64)%Z with 18446744073709551616%Z.
    clear Hsize Hmax Hmax'.
    set (p := (2 ^ (intSize - 1))%Z) in *. clearbody p. lia. }
  unfold strconv.Atoi.
  change ("-" ++ strconv.FormatUint n)
    with (String "-" (strconv.FormatUint n)).
  change (String.eqb (String "-" (strconv.FormatUint n)) "") with false.
  cbv iota.
  change (Ascii.eqb "-" "-") with true.
  change (Ascii.eqb "-" "+") with false. cbn [orb negb andb].
  unfold strconv.ParseUint.
  destruct (strconv.FormatUint n) as [|c rest] eqn:Hformat; [congruence|].
  change (String.eqb (String c rest) "") with false. cbv iota.
  rewrite (parseDigits_value _ 0 n);
    [|lia|exact Hmax'|exact Hvalue|
     set (p := (2 ^ (intSize - 1))%Z) in *; clearbody p; lia].
  destruct (Z.ltb_spec (2 ^ (intSize - 1)) n); [lia|reflexivity].
Qed.

(** X19.  A malformed batch.  When the buffer ends within the size line
    of an object, or when that line is not a number that fits [int], the
    parser returns an error; and a negative size makes it panic, in
    [make]. *)
Theorem splitBatchCatFileOutput_broken_off (intSize : Z) (name : string) :
  intSize = 32%Z \/ intSize = 64%Z ->
  without "010" name = true ->
  (forall sizeLine,
        without "010" sizeLine = true ->
        exists e,
          splitBatchCatFileOutput intSize (name ++ newline ++ sizeLine)
          = Return (Err e))
  /\ (forall sizeLine rest,
        without "010" sizeLine = true ->
        isErr (strconv.Atoi intSize sizeLine) = true ->
        exists e,
          splitBatchCatFileOutput intSize
            (name ++ newline ++ sizeLine ++ newline ++ rest)
          = Return (Err e))
  /\ (forall size rest,
        (0 < size <= 2 ^ (intSize - 1))%Z ->
        exists msg,
          splitBatchCatFileOutput intSize
            (name ++ newline ++ "-" ++ strconv.FormatUint size
             ++ newline ++ rest)
          = Panic msg).
Proof.
  intros Hsize Hname. unfold splitBatchCatFileOutput.
  assert (Hdigits : forall n,
            (0 <= n < 2 ^ 64)%Z ->
            without "010" (strconv.FormatUint n) = true).
  { intros n Hn. destruct (FormatUint_value n Hn) as [Hvalue _].
    eapply digitsValue_without; [|exact Hvalue]. vm_compute. lia. }
  assert (Hbig : (2 ^ (intSize - 1) < 2 ^ 64)%Z)
    by (destruct Hsize as [->| ->]; apply Z.ltb_lt; reflexivity).
  split; [|split].
  - intros sizeLine Hline.
    change (name ++ newline ++ sizeLine)
      with (name ++ String "010" sizeLine).
    cbn [splitBatchCatFileLoop].
    rewrite (ReadString_delim _ _ _ Hname), (ReadString_eof _ _ Hline).
    eauto.
  - intros sizeLine rest Hline Hbad.
    change (name ++ newline ++ sizeLine ++ newline ++ rest)
      with (name ++ String "010" (sizeLine ++ String "010" rest)).
    cbn [splitBatchCatFileLoop].
    rewrite (ReadString_delim _ _ _ Hname), (ReadString_delim _ _ _ Hline).
    change (name ++ String "010" "") with (name ++ newline).
    change (sizeLine ++ String "010" "") with (sizeLine ++ newline).
    rewrite !HasSuffix_append, !TrimSuffix_append.
    destruct (strconv.Atoi intSize sizeLine); [discriminate|eauto].
  - intros size rest Hrange.
    change (name ++ newline ++ "-" ++ strconv.FormatUint size
            ++ newline ++ rest)
      with (name ++ String "010"
                 (("-" ++ strconv.FormatUint size) ++ String "010" rest)).
    cbn [splitBatchCatFileLoop].
    rewrite (ReadString_delim _ _ _ Hname).
    rewrite (ReadString_delim ("-" ++ strconv.FormatUint size) rest "010").
    2:{ change ("-" ++ strconv.FormatUint size)
          with (String "-" (strconv.FormatUint size)).
        cbn [without]. rewrite Hdigits; [reflexivity|].
        set (p := (2 ^ (intSize - 1))%Z) in *. clearbody p. lia. }
    change (name ++ String "010" "") with (name ++ newline).
    change (("-" ++ strconv.FormatUint size) ++ String "010" "")
      with (("-" ++ strconv.FormatUint size) ++ newline).
    rewrite !HasSuffix_append, !TrimSuffix_append.
    rewrite Atoi_negative by (assumption || lia).
    destruct (Z.ltb_spec (- size) 0); [eauto|lia].
Qed.

End BatchProperties.

(** ** What the archive merges never write *)

Section FrameProperties.
Import repository.
Context `{GitBackend}.

Lemma git_reads (cmd : string) (rest : list string) (s : Store) :
  In cmd ["show-ref"; "show"; "merge-base"; "ls-tree"; "diff"] ->
  snd (git (cmd :: rest) s) = s.
Proof.
  intros [<-|[<-|[<-|[<-|[<-|[]]]]]];
    cbv [git]; cbn [String.eqb Ascii.eqb Bool.eqb];
    unfold git_show_ref, git_show, git_merge_base, git_ls_tree, git_diff;
    repeat case_match; reflexivity.
Qed.

Lemma git_staysWithin (written : string -> Prop) (args : list string)
      (s : Store) :
  staysWithin written args ->
  (forall ref, ~ written ref ->
               refs (snd (git args s)) !! ref = refs s !! ref)
  /\ (forall h, is_Some (commits s !! h) ->
                is_Some (commits (snd (git args s)) !! h)).
Proof.
  destruct args as [|cmd rest]; [intros _; split; auto|].
  intros [Hcmd|[-> Hwritten]].
  - destruct Hcmd as [<-|[<-|[<-|[<-|Hread]]]];
      try (rewrite git_reads by (cbn; tauto); split; auto).
    (* commit-tree *)
    cbv [git]. cbn [String.eqb Ascii.eqb Bool.eqb].
    unfold git_commit_tree. repeat case_match; cbn [snd refs commits];
      (split; [auto|]); try solve [auto].
    intros h Hh.
    match goal with
    | |- is_Some (<[?id := _]> _ !! _) =>
        destruct (decide (id = h)) as [->|Hne];
        [rewrite lookup_insert_eq; eauto
        |rewrite lookup_insert_ne by exact Hne; exact Hh]
    end.
  - cbv [git]. cbn [String.eqb Ascii.eqb Bool.eqb].
    unfold git_update_ref. repeat case_match; cbn [snd refs commits];
      (split; [|auto]); try solve [auto];
      intros ref Hnot; apply lookup_insert_ne; intros ->; contradiction.
Qed.

Lemma writesOnly_ret {A} written (a : A) : writesOnly written (ret a).
Proof. intros repo. split; auto. Qed.

Lemma writesOnly_fail {A} written e : writesOnly written (@fail A e).
Proof. intros repo. split; auto. Qed.

Lemma writesOnly_pure {A} written (f : GitRepo -> result A) :
  writesOnly written (fun repo => (f repo, repo)).
Proof. intros repo. split; auto. Qed.

Lemma writesOnly_bind {A B} written (m : M A) (k : A -> M B) :
  writesOnly written m -> (forall a, writesOnly written (k a)) ->
  writesOnly written (bind m k).
Proof.
  intros Hm Hk repo. unfold bind.
  destruct (Hm repo) as [Hrefs Hcommits].
  destruct (m repo) as [[a|e] repo1]; cbn [snd] in *; [|split; auto].
  destruct (Hk a repo1) as [Hrefs' Hcommits'].
  split.
  - intros ref Hnot. rewrite Hrefs', Hrefs by exact Hnot. reflexivity.
  - auto.
Qed.

Lemma writesOnly_attempt {A} written (m : M A) :
  writesOnly written m -> writesOnly written (attempt m).
Proof.
  intros Hm repo. unfold attempt. specialize (Hm repo).
  destruct (m repo) as [r repo1]. exact Hm.
Qed.

Lemma writesOnly_forEach {A} written (xs : list A) (body : A -> M unit) :
  (forall x, writesOnly written (body x)) ->
  writesOnly written (forEach xs body).
Proof.
  intros Hbody. induction xs as [|x xs IH]; cbn [forEach].
  - apply writesOnly_ret.
  - apply writesOnly_bind; [apply Hbody | intros _; exact IH].
Qed.

Lemma writesOnly_weaken {A} (written written' : string -> Prop) (m : M A) :
  (forall ref, written ref -> written' ref) ->
  writesOnly written m -> writesOnly written' m.
Proof.
  intros Hsub Hm repo. destruct (Hm repo) as [Hrefs Hcommits].
  split; [|exact Hcommits]. intros ref Hnot. apply Hrefs. auto.
Qed.

Lemma writesOnly_runGitCommandRaw written args :
  staysWithin written args -> writesOnly written (runGitCommandRaw args).
Proof.
  intros Hargs repo. unfold runGitCommandRaw.
  pose proof (git_staysWithin written args (store repo) Hargs) as Hgit.
  destruct (git args (store repo)) as [out s']. exact Hgit.
Qed.

Lemma writesOnly_runGitCommand written args :
  staysWithin written args -> writesOnly written (runGitCommand args).
Proof.
  intros Hargs. unfold runGitCommand.
  apply writesOnly_bind; [apply writesOnly_runGitCommandRaw, Hargs|].
  intros [[out errText] [|code|msg]];
    [apply writesOnly_ret | apply writesOnly_fail..].
Qed.

Lemma writesOnly_raw_bool written args (unexpected : string -> error) :
  staysWithin written args ->
  writesOnly written
    (bind (runGitCommandRaw args)
          (fun raw => let '(_, _, st) := raw in
                      match st with
                      | Exit0 => ret true
                      | ExitError _ => ret false
                      | ExecError msg => fail (unexpected msg)
                      end)).
Proof.
  intros Hargs.
  apply writesOnly_bind; [apply writesOnly_runGitCommandRaw, Hargs|].
  intros [[out errText] [|code|msg]];
    [apply writesOnly_ret | apply writesOnly_ret | apply writesOnly_fail].
Qed.

Lemma writesOnly_GetCommitDetails written ref :
  writesOnly written (GetCommitDetails ref).
Proof.
  unfold GetCommitDetails.
  repeat first
    [ apply writesOnly_ret
    | apply writesOnly_runGitCommand; left; cbn; tauto
    | apply writesOnly_bind; [|intros ?]
    | match goal with
      | |- writesOnly _ (let '(_, _) := ?x in _) => destruct x
      end ].
  unfold unmarshalTreeAndTime. intros repo.
  destruct (commitAt _ _) as [[? ?]|]; split; auto.
Qed.

Lemma writesOnly_getRefHashes written refPattern :
  writesOnly written (getRefHashes refPattern).
Proof.
  unfold getRefHashes.
  destruct (negb _); [apply writesOnly_fail|].
  apply writesOnly_bind;
    [apply writesOnly_runGitCommand; left; cbn; tauto|].
  intros showRef. apply writesOnly_pure.
Qed.

Lemma writesOnly_mergeArchives archive remoteArchive :
  writesOnly (fun ref => ref = archive) (mergeArchives archive remoteArchive).
Proof.
  unfold mergeArchives, HasRef, GetCommitHash, IsAncestor.
  repeat first
    [ apply writesOnly_ret
    | apply writesOnly_raw_bool; left; cbn; tauto
    | apply writesOnly_runGitCommand; left; cbn; tauto
    | apply writesOnly_runGitCommand; right; split; reflexivity
    | apply writesOnly_GetCommitDetails
    | apply writesOnly_bind; [|intros ?]
    | match goal with
      | |- writesOnly _ (if ?b then _ else _) => destruct b
      end ].
Qed.

(** X7.  [MergeArchives] writes nothing but local archive refs: whatever it
    returns, every ref that is not under [refs/devtools/] -- the branches,
    the notes, the remote-tracking refs it merges from -- is as before,
    and no commit has been dropped. *)
Theorem MergeArchives_writes_devtools_only
        (remote archiveRefPattern : string) repo :
  let merged := store (snd (MergeArchives remote archiveRefPattern repo)) in
  (forall ref,
      strings.HasPrefix ref devtoolsRefPrefix = false ->
      refs merged !! ref = refs (store repo) !! ref)
  /\ (forall h, is_Some (commits (store repo) !! h) ->
                is_Some (commits merged !! h)).
Proof.
  assert (Hwrites :
    writesOnly (fun ref => strings.HasPrefix ref devtoolsRefPrefix = true)
               (MergeArchives remote archiveRefPattern)).
  { unfold MergeArchives.
    apply writesOnly_bind; [apply writesOnly_getRefHashes|].
    intros refsMap. apply writesOnly_forEach. intros entry.
    eapply writesOnly_weaken; [|apply writesOnly_mergeArchives].
    intros ref ->. unfold getLocalDevtoolsRef. apply HasPrefix_append. }
  destruct (Hwrites repo) as [Hrefs Hcommits].
  split; [|exact Hcommits].
  intros ref Hprefix. apply Hrefs. rewrite Hprefix. discriminate.
Qed.

(** X5.  [ArchiveRef] likewise writes nothing but [archive], on any
    repository and whatever it returns. *)
Lemma ArchiveRef_writes_archive_only (ref archive : string) :
  writesOnly (fun written => written = archive) (ArchiveRef ref archive).
Proof.
  unfold ArchiveRef, GetCommitHash, IsAncestor.
  repeat first
    [ apply writesOnly_ret
    | apply writesOnly_raw_bool; left; cbn; tauto
    | apply writesOnly_attempt
    | apply writesOnly_runGitCommand; left; cbn; tauto
    | apply writesOnly_runGitCommand; right; split; reflexivity
    | apply writesOnly_runGitCommand;
      match goal with
      | |- staysWithin _ (if ?b then _ else _) => destruct b
      end; right; split; reflexivity
    | apply writesOnly_GetCommitDetails
    | apply writesOnly_bind; [|intros ?]
    | match goal with
      | |- writesOnly _ (if ?b then _ else _) => destruct b
      | |- writesOnly _ (match ?r with Ok _ => _ | Err _ => _ end) =>
          destruct r
      end ].
Qed.

End FrameProperties.

(** ** The steps of a pull *)

Section PullFacts.
Import repository.
Context `{GitBackend}.






















End PullFacts.

(* ===================================================================== *)
(** * Part IV. The theorems at work on the sample repository              *)
(* ===================================================================== *)

Section Samples.
Import repository.

(** Archiving [work] (at [c2]) under the archive (at [c3]): [c2] is
    reachable from the new tip. *)
Lemma ArchiveRef_reachable_witness :
  exists refHash tip,
    refs (store sampleRepo) !! workRef = Some refHash
    /\ refs (store (snd (@ArchiveRef sampleBackend workRef archiveRef
                           sampleRepo))) !! archiveRef = Some tip
    /\ Ancestor
         (commits (store (snd (@ArchiveRef sampleBackend workRef archiveRef
                                 sampleRepo))))
         refHash tip
    /\ isAncestorOf
         (commits (store (snd (@ArchiveRef sampleBackend workRef archiveRef
                                 sampleRepo))))
         refHash tip = true.
Proof.
  apply (@ArchiveRef_reachable sampleBackend sampleRepo).
  - vm_compute. reflexivity.
  - vm_compute. reflexivity.
Defined.

(** The same call falls in the third case: [c2] is not an ancestor of
    [c3], so a commit with the parents [c3; c2] is created. *)
Lemma ArchiveRef_case_analysis_witness :
  @outcome unit (@ArchiveRef sampleBackend workRef archiveRef) sampleRepo
  = (Ok tt,
     withRef
       (@withCommit sampleBackend sampleStore
          (@archiveCommit sampleBackend ["c3"; "c2"] "c2" "t2"))
       archiveRef
       (@objectId sampleBackend
          (@archiveCommit sampleBackend ["c3"; "c2"] "c2" "t2")))
  /\ last (@issued unit (@ArchiveRef sampleBackend workRef archiveRef)
             sampleRepo)
     = Some ["update-ref"; archiveRef;
             @objectId sampleBackend
               (@archiveCommit sampleBackend ["c3"; "c2"] "c2" "t2");
             "c3"].
Proof.
  destruct (@ArchiveRef_case_analysis sampleBackend sampleRepo workRef
              archiveRef "c2" (sampleCommit ["c1"] "t2" "two"))
    as (_ & _ & Hthird).
  - vm_compute. reflexivity.
  - vm_compute. reflexivity.
  - destruct (Hthird "c3") as (_ & _ & _ & Houtcome & Hlast).
    + vm_compute. reflexivity.
    + intros Hanc.
      assert (Hsearch : isAncestorOf (commits sampleStore) "c2" "c3" = true).
      { apply isAncestorOf_spec. repeat split; [eexists..|exact Hanc];
          vm_compute; reflexivity. }
      vm_compute in Hsearch. discriminate.
    + split; [exact Houtcome | exact Hlast].
Defined.

(** Merging the remote archive (at [c1]) into the local one (at [c3]):
    [c3] is not an ancestor of [c1], so a merge commit is created. *)
Lemma mergeArchives_case_analysis_witness :
  @outcome unit (@mergeArchives sampleBackend archiveRef remoteArchiveRef)
           sampleRepo
  = (Ok tt,
     withRef
       (@withCommit sampleBackend sampleStore
          (@mergeCommit sampleBackend "c1" "c3" "t1"))
       archiveRef
       (@objectId sampleBackend (@mergeCommit sampleBackend "c1" "c3" "t1"))).
Proof.
  destruct (@mergeArchives_case_analysis sampleBackend sampleRepo archiveRef
              remoteArchiveRef)
    as (_ & Hremote).
  - vm_compute. reflexivity.
  - destruct (Hremote "c1" (sampleCommit [] "t1" "one")) as (_ & _ & Hmerge).
    + vm_compute. reflexivity.
    + destruct (Hmerge "c3") as (_ & Houtcome & _).
      * vm_compute. reflexivity.
      * intros Hanc.
        assert (Hsearch : isAncestorOf (commits sampleStore) "c3" "c1" = true).
        { apply isAncestorOf_spec. repeat split; [eexists..|exact Hanc];
            vm_compute; reflexivity. }
        vm_compute in Hsearch. discriminate.
      * exact Houtcome.
Defined.

(** The rule as first stated fails there: the remote tip [c1] is an
    ancestor of the local tip [c3], and yet the merge is not a no-op: the
    local archive moves from [c3] to a new merge commit with the parents
    [c1; c3]. *)
Lemma mergeArchives_remote_ancestor_not_noop :
  Ancestor (commits sampleStore) "c1" "c3"
  /\ refs sampleStore !! remoteArchiveRef = Some "c1"
  /\ refs sampleStore !! archiveRef = Some "c3"
  /\ refs (snd (@outcome unit
                  (@mergeArchives sampleBackend archiveRef remoteArchiveRef)
                  sampleRepo)) !! archiveRef
     = Some (@objectId sampleBackend
               (@mergeCommit sampleBackend "c1" "c3" "t1"))
  /\ String.eqb
       (@objectId sampleBackend (@mergeCommit sampleBackend "c1" "c3" "t1"))
       "c3" = false
  /\ size (commits (snd (@outcome unit
                           (@mergeArchives sampleBackend archiveRef
                              remoteArchiveRef)
                           sampleRepo)))
     = S (size (commits sampleStore)).
Proof.
  split.
  - apply (isAncestorOf_spec (commits sampleStore) "c1" "c3").
    vm_compute. reflexivity.
  - vm_compute. repeat split; reflexivity.
Qed.

(** A compare-and-swap of [work] (at [c2]) that expects [c1]. *)
Lemma SetRef_conflict_surfaced_witness :
  exists e,
    @outcome unit (@SetRef sampleBackend workRef "c3" "c1") sampleRepo
    = (Err e, store sampleRepo)
    /\ @issued unit (@SetRef sampleBackend workRef "c3" "c1") sampleRepo
       = [["update-ref"; workRef; "c3"; "c1"]].
Proof.
  apply (@SetRef_conflict_surfaced sampleBackend sampleRepo).
  - discriminate.
  - vm_compute. discriminate.
Defined.

(** The failed compare-and-swap is not retried: one [update-ref] is run,
    not two, the ref is not read again, and the error is returned. *)
Lemma SetRef_conflict_single_attempt :
  refs sampleStore !! workRef = Some "c2"
  /\ isErr (fst (@SetRef sampleBackend workRef "c3" "c1" sampleRepo)) = true
  /\ updateRefAttempts
       (@issued unit (@SetRef sampleBackend workRef "c3" "c1") sampleRepo) = 1
  /\ @issued unit (@SetRef sampleBackend workRef "c3" "c1") sampleRepo
     = [["update-ref"; workRef; "c3"; "c1"]].
Proof. vm_compute. repeat split; reflexivity. Qed.

Lemma sampleDigest_not_empty (c : Commit) : sampleDigest c <> "".
Proof.
  unfold sampleDigest.
  destruct (strings.Join (cParents c) "+"); discriminate.
Qed.



(** A fetch that moves the notes ref [reviews] from [n1] to [n2], a commit
    with the same tree, and brings a new notes ref [discuss] at [n1]: the
    new ref gives the id of its one path, the moved ref the empty
    string. *)
Lemma FetchAndReturnNewReviewHashes_review_ids_witness :
  @outcome (list string)
    (@FetchAndReturnNewReviewHashes
       (sampleGit (<["refs/notes/remotes/origin/devtools/discuss" := "n1"]>
                     sampleFetched))
       "origin" notesPattern [archivePattern]) sampleRepo
  = (Ok ["abcdef"; ""],
     mkStore
       (<["refs/notes/remotes/origin/devtools/discuss" := "n1"]>
          sampleFetched ∪ refs sampleStore)
       (commits sampleStore) (trees sampleStore)).
Proof.
  rewrite (@FetchAndReturnNewReviewHashes_review_ids
             (sampleGit
                (<["refs/notes/remotes/origin/devtools/discuss" := "n1"]>
                   sampleFetched))
             "origin" notesPattern [archivePattern] sampleRepo
             (mkStore
                (<["refs/notes/remotes/origin/devtools/discuss" := "n1"]>
                   sampleFetched ∪ refs sampleStore)
                (commits sampleStore) (trees sampleStore)));
    vm_compute; reflexivity.
Defined.

(** A note that moved from one review to another: git lists it under
    its new path, and the review it moved to is returned. *)
Example FetchAndReturnNewReviewHashes_moved_note :
  fst (@FetchAndReturnNewReviewHashes (sampleGit movedFetched) "origin"
         notesPattern [archivePattern] (mkGitRepo movedStore []))
  = Ok ["123456"].
Proof. vm_compute. reflexivity. Qed.

(** C5 at a notes ref that moved to a commit with the same tree: no path
    differs from the prior version, so no review id changed, and
    [FetchAndReturnNewReviewHashes] returns the empty string as an id. *)
Lemma FetchAndReturnNewReviewHashes_empty_diff :
  @changedReviewIds sampleBackend sampleStore
    (store (snd (@Fetch sampleBackend "origin" [] sampleRepo)))
    "refs/notes/remotes/origin/devtools/" = ∅
  /\ fst (@FetchAndReturnNewReviewHashes sampleBackend "origin" notesPattern
            [archivePattern] sampleRepo)
     = Ok [""].
Proof. split; vm_compute; reflexivity. Qed.

End Samples.

Section CommandSamples.
Import commands.

(** A plain comment on the current review, with no -F and no -m, when the
    editor comes back empty: rejected, nothing appended. *)
Lemma commentCmd_rejects_without_mutation_witness :
  exists e,
    @commentCmd (sampleCommandsEnv "" "") [] plainCommentFlags []
    = (Err e, []).
Proof.
  apply (@commentCmd_rejects_without_mutation (sampleCommandsEnv "" "")
           [] plainCommentFlags []).
  right. right. repeat split.
  intros message Hmessage. vm_compute in Hmessage.
  injection Hmessage as <-. reflexivity.
Defined.

(** With -F naming an empty file, no input source provides a non-empty
    message, and yet the command succeeds and appends a comment with an
    empty description. *)
Lemma commentCmd_accepts_empty_file :
  commentMessage
    (mkCommentFlags "empty.txt" "" "" "" false false false false ""
                    (mkRange 0 0 0 0)) = ""
  /\ @input_FromFile (sampleCommandsEnv "" "") "empty.txt" = Ok ""
  /\ @commentCmd (sampleCommandsEnv "" "") []
       (mkCommentFlags "empty.txt" "" "" "" false false false false ""
                       (mkRange 0 0 0 0)) []
     = (Ok tt,
        [("c2",
          mkComment "1700000000" "reviewer@example.com"
                    (Some (mkLocation "c2" "" (Some (mkRange 0 0 0 0))))
                    "" "" None "")]).
Proof. vm_compute. repeat split; reflexivity. Qed.

(** Accepting the current review (head [c2]) with a message. *)
Example acceptReview_sample :
  @acceptReview (sampleCommandsEnv "" "") []
    (mkAcceptFlags "" "ship it" "" false) []
  = (Ok tt,
     [("c2",
       mkComment "1700000000" "reviewer@example.com"
                 (Some (mkLocation "c2" "" None)) "" "ship it" (Some true)
                 "")]).
Proof. vm_compute. reflexivity. Qed.

(** The same run, as the addition of an LGTM comment at [c2]. *)
Lemma acceptReview_appends_lgtm_witness :
  exists c,
    @acceptReview (sampleCommandsEnv "" "") []
      (mkAcceptFlags "" "ship it" "" false) []
    = @AddComment (sampleCommandsEnv "" "")
        (mkReview "c2" sampleThreads) c []
    /\ Resolved c = Some true
    /\ CommentLocation c = Some (mkLocation "c2" "" None).
Proof.
  apply (proj2 (@acceptReview_appends_lgtm (sampleCommandsEnv "" "") []
                  (mkAcceptFlags "" "ship it" "" false) [])
           (mkReview "c2" sampleThreads) "c2" "reviewer@example.com").
  - cbn. lia.
  - reflexivity.
  - reflexivity.
  - reflexivity.
  - left. reflexivity.
  - reflexivity.
  - left. reflexivity.
Defined.

End CommandSamples.

(* ===================================================================== *)
(** * Part V. The further properties at work on the sample data           *)
(* ===================================================================== *)

Section PortSamples.
Import repository.

(** Moving [work] from [c2] to [c3] by compare-and-swap. *)
Lemma SetRef_sets_ref_witness :
  exists repo',
    @SetRef sampleBackend workRef "c3" "c2" sampleRepo = (Ok tt, repo')
    /\ store repo' = withRef (store sampleRepo) workRef "c3"
    /\ updateRefAttempts
         (@issued unit (@SetRef sampleBackend workRef "c3" "c2") sampleRepo)
       = 1
    /\ refs (store repo') !! workRef = Some "c3"
    /\ (forall other, other <> workRef ->
                      refs (store repo') !! other
                      = refs (store sampleRepo) !! other)
    /\ fst (@GetCommitHash sampleBackend workRef repo') = Ok "c3".
Proof.
  apply (@SetRef_sets_ref sampleBackend sampleRepo workRef "c3" "c2").
  - vm_compute. eauto.
  - reflexivity.
  - right. vm_compute. reflexivity.
Defined.

(** Archiving [work] under the archive (at [c3]): the old tip [c3] stays
    reachable. *)
Lemma ArchiveRef_only_grows_witness :
  onlyWrites archiveRef (store sampleRepo)
    (store (snd (@ArchiveRef sampleBackend workRef archiveRef sampleRepo)))
  /\ (forall archiveHash,
        refs (store sampleRepo) !! archiveRef = Some archiveHash ->
        exists tip,
          refs (store (snd (@ArchiveRef sampleBackend workRef archiveRef
                              sampleRepo))) !! archiveRef = Some tip
          /\ Ancestor
               (commits (store (snd (@ArchiveRef sampleBackend workRef
                                       archiveRef sampleRepo))))
               archiveHash tip).
Proof.
  apply (@ArchiveRef_only_grows sampleBackend sampleRepo workRef archiveRef).
  vm_compute. reflexivity.
Defined.

(** Archiving [work] twice: the second run writes nothing. *)
Lemma ArchiveRef_idempotent_witness :
  @outcome unit (@ArchiveRef sampleBackend workRef archiveRef)
           (snd (@ArchiveRef sampleBackend workRef archiveRef sampleRepo))
  = (Ok tt,
     store (snd (@ArchiveRef sampleBackend workRef archiveRef sampleRepo)))
  /\ Forall (fun args => isArchiveWrite args = false)
            (@issued unit (@ArchiveRef sampleBackend workRef archiveRef)
               (snd (@ArchiveRef sampleBackend workRef archiveRef
                       sampleRepo))).
Proof.
  apply (@ArchiveRef_idempotent sampleBackend sampleRepo).
  - exact sampleDigest_not_empty.
  - vm_compute. reflexivity.
  - vm_compute. reflexivity.
Defined.

(** Merging the remote archive (at [c1]) into the local one (at [c3]):
    both tips are reachable from the merge commit. *)
Lemma mergeArchives_keeps_tips_witness :
  onlyWrites archiveRef (store sampleRepo)
    (store (snd (@mergeArchives sampleBackend archiveRef remoteArchiveRef
                   sampleRepo)))
  /\ (forall archiveHash,
        refs (store sampleRepo) !! archiveRef = Some archiveHash ->
        exists tip,
          refs (store (snd (@mergeArchives sampleBackend archiveRef
                              remoteArchiveRef sampleRepo))) !! archiveRef
          = Some tip
          /\ Ancestor
               (commits (store (snd (@mergeArchives sampleBackend archiveRef
                                       remoteArchiveRef sampleRepo))))
               archiveHash tip)
  /\ (fst (@mergeArchives sampleBackend archiveRef remoteArchiveRef
             sampleRepo) = Ok tt ->
      forall remoteHash,
        refs (store sampleRepo) !! remoteArchiveRef = Some remoteHash ->
        exists tip,
          refs (store (snd (@mergeArchives sampleBackend archiveRef
                              remoteArchiveRef sampleRepo))) !! archiveRef
          = Some tip
          /\ Ancestor
               (commits (store (snd (@mergeArchives sampleBackend archiveRef
                                       remoteArchiveRef sampleRepo))))
               remoteHash tip).
Proof.
  apply (@mergeArchives_keeps_tips sampleBackend sampleRepo archiveRef
           remoteArchiveRef).
  vm_compute. reflexivity.
Defined.

(** The remote-tracking notes refs of the sample repository. *)
Lemma getRefHashes_refs_under_prefix_witness :
  exists refsMap,
    @getRefHashes sampleBackend "refs/notes/remotes/origin/devtools/*"
                  sampleRepo
    = (Ok refsMap, after sampleRepo (store sampleRepo) ["show-ref"])
    /\ forall ref hash,
         refsMap !! ref = Some hash
         <-> strings.HasPrefix ref
               (strings.TrimSuffix "refs/notes/remotes/origin/devtools/*" "*")
             = true
             /\ refs (store sampleRepo) !! ref = Some hash.
Proof.
  apply (@getRefHashes_refs_under_prefix sampleBackend).
  - vm_compute. reflexivity.
  - vm_compute. reflexivity.
Defined.

(** A pull with an archive pattern outside [refs/devtools/]. *)
Lemma FetchAndReturnNewReviewHashes_unsupported_witness :
  exists unsupported,
    In unsupported ["refs/heads/*"]
    /\ strings.HasPrefix unsupported devtoolsRefPrefix = false
    /\ @FetchAndReturnNewReviewHashes sampleBackend "origin" notesPattern
         ["refs/heads/*"] sampleRepo
       = (Err ("Unsupported devtools ref: " ++ quoted unsupported),
          sampleRepo).
Proof.
  apply (@FetchAndReturnNewReviewHashes_unsupported sampleBackend "origin"
           notesPattern ["refs/heads/*"] "refs/heads/*" sampleRepo).
  - left. reflexivity.
  - reflexivity.
Defined.

(** A pull while the remote cannot be reached. *)
Lemma PullNotesAndArchive_failed_fetch_witness :
  exists e,
    @outcome unit
      (@PullNotesAndArchive offlineBackend "origin" notesPattern
         archivePattern) sampleRepo
    = (Err e, store sampleRepo)
    /\ @issued unit
         (@PullNotesAndArchive offlineBackend "origin" notesPattern
            archivePattern) sampleRepo
       = [["show-ref"];
          ["fetch"; "origin";
           "+" ++ notesPattern ++ ":"
           ++ getRemoteNotesRef "origin" notesPattern;
           "+" ++ (devtoolsRefPrefix ++ "*") ++ ":"
           ++ getRemoteDevtoolsRef "origin" (devtoolsRefPrefix ++ "*")]].
Proof.
  apply (@PullNotesAndArchive_failed_fetch offlineBackend "origin"
           notesPattern archivePattern sampleRepo);
    vm_compute; reflexivity.
Defined.

(** The details of [work] (at [c2], whose parent is [c1]). *)
Lemma GetCommitDetails_parents_witness :
  exists details,
    @GetCommitDetails sampleBackend workRef sampleRepo
    = (Ok details,
       mkGitRepo (store sampleRepo) (trace sampleRepo ++ showDetails workRef))
    /\ Tree details = "t2"
    /\ Parents details = ["c1"].
Proof.
  apply (@GetCommitDetails_parents sampleBackend sampleRepo workRef "c2"
           (sampleCommit ["c1"] "t2" "two")).
  - vm_compute. reflexivity.
  - repeat constructor.
Defined.



(** Two objects, one of them a commit, and a tail without a space. *)
Lemma splitBatchCheckOutput_round_trip_witness :
  exists isCommit,
    splitBatchCheckOutput
      (batchCheckText [("c1", "commit"); ("b1", "blob")] ++ "c2")
    = Ok isCommit
    /\ forall name,
         isCommit !! name
         = if existsb (fun entry => String.eqb (fst entry) name
                                    && String.eqb (snd entry) "commit")
                      [("c1", "commit"); ("b1", "blob")]
           then Some true else None.
Proof.
  apply (splitBatchCheckOutput_round_trip
           [("c1", "commit"); ("b1", "blob")] "c2");
    reflexivity.
Defined.

(** Two notes, the first with a newline in its contents. *)
Lemma splitBatchCatFileOutput_round_trip_witness :
  splitBatchCatFileOutput 64
    (batchText [("n1", "line one" ++ newline ++ "line two"); ("n2", "")])
  = Return (Ok (<["n2" := ""]>
                  (<["n1" := "line one" ++ newline ++ "line two"]> ∅))).
Proof.
  apply (splitBatchCatFileOutput_round_trip 64
           [("n1", "line one" ++ newline ++ "line two"); ("n2", "")]).
  - right. reflexivity.
  - reflexivity.
Defined.

(** A batch that announces the size -5. *)
Lemma splitBatchCatFileOutput_broken_off_witness :
  exists msg,
    splitBatchCatFileOutput 64
      ("n1" ++ newline ++ "-" ++ strconv.FormatUint 5 ++ newline ++ "abc")
    = Panic msg.
Proof.
  destruct (splitBatchCatFileOutput_broken_off 64 "n1") as (_ & _ & Hneg).
  - right. reflexivity.
  - reflexivity.
  - apply (Hneg 5%Z "abc"). split; [lia | apply Z.leb_le; reflexivity].
Defined.

(** The notes ref of the reviews and its remote-tracking name. *)
Lemma notes_ref_round_trip_witness :
  getLocalNotesRef "origin"
    (getRemoteNotesRef "origin" "refs/notes/devtools/reviews")
  = "refs/notes/devtools/reviews".
Proof.
  apply (proj1 (notes_ref_round_trip "origin")). reflexivity.
Defined.

(** The archive ref of the reviews and its remote-tracking name. *)
Lemma devtools_ref_round_trip_witness :
  getRemoteDevtoolsRef "origin"
    (getLocalDevtoolsRef "origin" remoteArchiveRef)
  = remoteArchiveRef.
Proof.
  apply (proj2 (devtools_ref_round_trip "origin")). reflexivity.
Defined.

(** A repository without any ref. *)
Lemma getRefHashes_errors_witness :
  @getRefHashes sampleBackend notesPattern
    (mkGitRepo (mkStore ∅ ∅ ∅) [])
  = (Err "Error running git command: show-ref",
     mkGitRepo (mkStore ∅ ∅ ∅) [["show-ref"]]).
Proof.
  apply (proj2 (@getRefHashes_errors sampleBackend notesPattern
                  (mkGitRepo (mkStore ∅ ∅ ∅) []))); reflexivity.
Defined.

End PortSamples.

Section CommandWebSamples.
Import commands.

(** A reply to the comment [bbbb] with the message of [-m]. *)
Lemma validateArgs_accepts_witness :
  exists message,
    mkCommentFlags "" "a reply" "bbbb" "" false true false false ""
                   (mkRange 0 0 0 0)
    = withCommentMessage
        (mkCommentFlags "" "a reply" "bbbb" "" false true false false ""
                        (mkRange 0 0 0 0)) message
    /\ message = "a reply"
    /\ true && false = false
    /\ ("bbbb" = "" \/ InThreads "bbbb" sampleThreads).
Proof.
  apply (@validateArgs_accepts (sampleCommandsEnv "" "") [] 
           (mkCommentFlags "" "a reply" "bbbb" "" false true false false ""
                           (mkRange 0 0 0 0)) [] sampleThreads).
  reflexivity.
Defined.

(** Branch 1 of two, on a 64-bit platform. *)
Lemma ServeBranchTemplate_serves_branch_witness :
  @web.ServeBranchTemplate (sampleWebEnv 64 false)
    (@web.mkRepoDetails (sampleWebEnv 64 false) ["main"; "work"])
    (web.mkRequest [("branch", "1")])
  = Return (web.serveHTML "work").
Proof.
  apply (@ServeBranchTemplate_serves_branch (sampleWebEnv 64 false)
           (@web.mkRepoDetails (sampleWebEnv 64 false) ["main"; "work"])
           (web.mkRequest [("branch", "1")]) ["main"; "work"] 1 "work");
    reflexivity.
Defined.

(** A review parameter with an uppercase digit. *)
Lemma ServeReviewTemplate_review_parameter_witness :
  exists msg,
    @web.ServeReviewTemplate (sampleWebEnv 64 false)
      (@web.mkRepoDetails (sampleWebEnv 64 false) ["main"; "work"])
      (web.mkRequest [("branch", "1"); ("review", "0A1F")])
    = Return (web.ServeErrorTemplate msg web.StatusBadRequest).
Proof.
  destruct (@ServeReviewTemplate_review_parameter
              (sampleWebEnv 64 false)
              (@web.mkRepoDetails (sampleWebEnv 64 false) ["main"; "work"])
              (web.mkRequest [("branch", "1"); ("review", "0A1F")])
              ["main"; "work"] eq_refl eq_refl eq_refl)
    as (_ & Hbad & _).
  apply Hbad; [discriminate | reflexivity].
Defined.

(** The link to branch 1 of two. *)
Lemma ServePaths_Branch_round_trip_witness :
  strconv.ParseUint "1" 32 = Ok 1%Z
  /\ @web.ServeBranchTemplate (sampleWebEnv 64 false)
       (@web.mkRepoDetails (sampleWebEnv 64 false) ["main"; "work"])
       (web.mkRequest [("branch", "1")])
     = Return (web.serveHTML "work").
Proof.
  apply (@ServePaths_Branch_round_trip (sampleWebEnv 64 false)
           (@web.mkRepoDetails (sampleWebEnv 64 false) ["main"; "work"])
           (web.mkRequest [("branch", "1")]) ["main"; "work"] 1 "work");
    try reflexivity; try (vm_compute; discriminate).
Defined.

End CommandWebSamples.
